(** * EasySandbox: the restricted-mode allocator and the start-up sequencer

    A shallow embedding of [malloc.c] and [EasySandbox.c].

    The allocator is modelled over a byte-addressed memory (the region
    reserved by [mmap]), with the block headers read and written at the
    offsets the LP64 layout of [struct Header] gives them; every access
    outside the reserved region is a fault (the process dies with
    SIGSEGV), so that a dereference of the null pointer is visible.
    The start-up code is modelled as a program that emits a trace of
    the library calls and system calls it makes. *)

From Stdlib Require Import ZArith List Lia Bool.
From stdpp Require Import base option numbers list gmap.

Local Open Scope Z_scope.

(** ** Machine arithmetic (LP64: [size_t], [intptr_t] and pointers are 64 bits) *)

Definition WORD : Z := 18446744073709551616.      (* 2^64 *)
Definition HALF : Z := 9223372036854775808.       (* 2^63 *)

(** Unsigned wrap-around of [size_t] and pointer arithmetic. *)
Definition wrap (x : Z) : Z := x mod WORD.

(** The value of a 64-bit pattern read as [intptr_t]. *)
Definition to_signed (x : Z) : Z := if x <? HALF then x else x - WORD.

(** [malloc.c]: [#define MIN_ALLOC 65536], [#define ALLOCATED 1]. *)
Definition MIN_ALLOC : Z := 65536.
Definition ALLOCATED : Z := 1.

(** [EasySandbox.c]: [#define DEFAULT_HEAP_SIZE 8388608]. *)
Definition DEFAULT_HEAP_SIZE : Z := 8388608.

(** [errno.h] on Linux. *)
Definition ENOMEM : Z := 12.

(** [sizeof(struct Header)] and the offsets of its fields:
    two pointers, a [size_t], an [int] and four bytes of padding. *)
Definition HEADER : Z := 32.
Definition OFF_PREV : Z := 0.
Definition OFF_NEXT : Z := 8.
Definition OFF_SIZE : Z := 16.
Definition OFF_FLAGS : Z := 24.

(** ** Outcomes: a call returns, or the process faults, or a loop does
    not finish within the fuel it was given *)

Inductive outcome (A : Type) : Type :=
| Ok (a : A)
| Fault
| Timeout.
Arguments Ok {A} a.
Arguments Fault {A}.
Arguments Timeout {A}.

Definition obind {A B} (c : outcome A) (k : A -> outcome B) : outcome B :=
  match c with
  | Ok a => k a
  | Fault => Fault
  | Timeout => Timeout
  end.

Notation "'let*' x := c 'in' k" := (obind c (fun x => k))
  (at level 10, x pattern, c at level 100, k at level 200).

(** ** Process state seen by the allocator *)

(** What [free] prints on [stderr]: ["Invalid free at %p\n"], kept as the
    pointer that was printed. *)
Inductive diagnostic : Type :=
| InvalidFree (p : Z).

Record state : Type := mkState {
  mem : gmap Z Z;        (* bytes of the reserved region; a byte never written is 0 *)
  s_heap : Z;            (* EasySandbox.c: static char *s_heap *)
  s_heapsize : Z;        (* EasySandbox.c: static size_t s_heapsize *)
  s_brk : Z;             (* EasySandbox.c: static char *s_brk *)
  s_head : Z;            (* malloc.c: static struct Header *s_head *)
  s_tail : Z;            (* malloc.c: static struct Header *s_tail *)
  errno : Z;
  stderr_log : list diagnostic
}.

Definition set_mem (s : state) (m : gmap Z Z) : state :=
  mkState m (s_heap s) (s_heapsize s) (s_brk s) (s_head s) (s_tail s) (errno s) (stderr_log s).
Definition set_brk (s : state) (b : Z) : state :=
  mkState (mem s) (s_heap s) (s_heapsize s) b (s_head s) (s_tail s) (errno s) (stderr_log s).
Definition set_head (s : state) (h : Z) : state :=
  mkState (mem s) (s_heap s) (s_heapsize s) (s_brk s) h (s_tail s) (errno s) (stderr_log s).
Definition set_tail (s : state) (t : Z) : state :=
  mkState (mem s) (s_heap s) (s_heapsize s) (s_brk s) (s_head s) t (errno s) (stderr_log s).
Definition set_errno (s : state) (e : Z) : state :=
  mkState (mem s) (s_heap s) (s_heapsize s) (s_brk s) (s_head s) (s_tail s) e (stderr_log s).
Definition log_stderr (s : state) (d : diagnostic) : state :=
  mkState (mem s) (s_heap s) (s_heapsize s) (s_brk s) (s_head s) (s_tail s) (errno s)
          (stderr_log s ++ [d]).

(** The state right after [mmap] returned [base] for a region of [size]
    bytes: anonymous memory is zero-filled, all statics are still zero. *)
Definition fresh (base size : Z) : state :=
  mkState ∅ base size 0 0 0 0 [].

(** ** Byte-addressed memory, little-endian scalars *)

Definition byte_at (m : gmap Z Z) (a : Z) : Z := default 0 (m !! a) mod 256.

Fixpoint load_le (m : gmap Z Z) (a : Z) (n : nat) : Z :=
  match n with
  | O => 0
  | S k => byte_at m a + 256 * load_le m (a + 1) k
  end.

Fixpoint store_le (m : gmap Z Z) (a : Z) (n : nat) (v : Z) : gmap Z Z :=
  match n with
  | O => m
  | S k => <[a := v mod 256]> (store_le m (a + 1) k (v / 256))
  end.

(** An access of [n] bytes at [a] lies inside the reserved region. *)
Definition valid (s : state) (a n : Z) : bool :=
  (s_heap s <=? a) && (a + n <=? s_heap s + s_heapsize s).

Definition load (s : state) (a : Z) (n : nat) : outcome Z :=
  if valid s a (Z.of_nat n) then Ok (load_le (mem s) a n) else Fault.

Definition store (s : state) (a : Z) (n : nat) (v : Z) : outcome state :=
  if valid s a (Z.of_nat n) then Ok (set_mem s (store_le (mem s) a n v)) else Fault.

(** Field accessors of [struct Header *block]. *)
Definition get_prev (s : state) (block : Z) : outcome Z := load s (block + OFF_PREV) 8.
Definition get_next (s : state) (block : Z) : outcome Z := load s (block + OFF_NEXT) 8.
Definition get_size (s : state) (block : Z) : outcome Z := load s (block + OFF_SIZE) 8.
Definition get_flags (s : state) (block : Z) : outcome Z := load s (block + OFF_FLAGS) 4.

Definition put_prev (s : state) (block v : Z) : outcome state := store s (block + OFF_PREV) 8 v.
Definition put_next (s : state) (block v : Z) : outcome state := store s (block + OFF_NEXT) 8 v.
Definition put_size (s : state) (block v : Z) : outcome state := store s (block + OFF_SIZE) 8 v.
Definition put_flags (s : state) (block v : Z) : outcome state := store s (block + OFF_FLAGS) 4 v.

(** ** EasySandbox.c: [sbrk] *)

(** [void *sbrk(intptr_t incr)]: [used] and [remaining] are [intptr_t];
    the failure value is [(void * ) -1]. *)
Definition sbrk (s : state) (incr : Z) : state * Z :=
  let s1 := if s_brk s =? 0 then set_brk s (s_heap s) else s in
  let used := to_signed (wrap (s_brk s1 - s_heap s1)) in
  let remaining := to_signed (wrap (s_heapsize s1 - used)) in
  if remaining <? incr then (set_errno s1 ENOMEM, wrap (-1))
  else (set_brk s1 (wrap (s_brk s1 + incr)), s_brk s1).

(** ** malloc.c *)

(** [round_to_multiple]: arithmetic on [size_t]. *)
Definition round_to_multiple (n multiple : Z) : Z :=
  if negb (n mod multiple =? 0) then wrap (n + (multiple - n mod multiple)) else n.

(** [is_allocated]: [(block->flags & ALLOCATED) != 0]. *)
Definition is_allocated (s : state) (block : Z) : outcome bool :=
  let* fl := get_flags s block in
  Ok (negb (Z.land fl ALLOCATED =? 0)).

Definition alloc_block (s : state) (block_size : Z) : outcome (state * Z) :=
  let block_size := if block_size <? MIN_ALLOC then MIN_ALLOC else block_size in
  let '(s, block) := sbrk s (to_signed block_size) in
  if block =? wrap (-1) then Ok (s, 0)
  else
    let* s := put_next s block 0 in
    let* s := (if s_head s =? 0 then
                 put_prev (set_tail (set_head s block) block) block 0
               else
                 let* s := put_next s (s_tail s) block in
                 let* s := put_prev s block (s_tail s) in
                 Ok (set_tail s block)) in
    let* s := put_size s block block_size in
    let* s := put_flags s block 0 in
    Ok (s, block).

Definition split_block_if_necessary (s : state) (block required_block_size : Z)
  : outcome state :=
  let* sz := get_size s block in
  let left_over := wrap (sz - required_block_size) in
  if left_over <=? HEADER then Ok s
  else
    let* s := put_size s block required_block_size in
    let excess := wrap (block + required_block_size) in
    let* s := put_size s excess left_over in
    let* s := put_flags s excess 0 in
    let* nx := get_next s block in
    let* s := put_next s excess nx in
    let* s := put_prev s excess block in
    let* nx := get_next s block in
    let* s := (if negb (nx =? 0) then put_prev s nx excess
               else Ok (set_tail s excess)) in
    put_next s block excess.

Definition coalesce_if_necessary (s : state) (block : Z) : outcome state :=
  let* a := is_allocated s block in
  if a then Ok s
  else
    let* nx := get_next s block in
    if nx =? 0 then Ok s
    else
      let* a' := is_allocated s nx in
      if a' then Ok s
      else
        (* block->size += block->next->size *)
        let* sz := get_size s block in
        let* nx := get_next s block in
        let* nsz := get_size s nx in
        let* s := put_size s block (wrap (sz + nsz)) in
        (* if (block->next->next != 0) block->next->prev = block; else s_tail = block *)
        let* nx := get_next s block in
        let* nn := get_next s nx in
        let* s := (if negb (nn =? 0) then
                     let* nx := get_next s block in
                     put_prev s nx block
                   else Ok (set_tail s block)) in
        (* block->next = block->next->next *)
        let* nx := get_next s block in
        let* nn := get_next s nx in
        put_next s block nn.

(** The search loop of [malloc]; [fuel] bounds the number of headers
    visited.  The result is the header found, or 0. *)
Fixpoint find_block (fuel : nat) (s : state) (block required_block_size : Z)
  : outcome Z :=
  match fuel with
  | O => Timeout
  | S fuel' =>
      if block =? 0 then Ok 0
      else
        let* sz := get_size s block in
        if required_block_size <=? sz then
          let* a := is_allocated s block in
          if negb a then Ok block
          else
            let* nx := get_next s block in
            find_block fuel' s nx required_block_size
        else
          let* nx := get_next s block in
          find_block fuel' s nx required_block_size
  end.

(** The tail of [malloc] once a block has been chosen. *)
Definition malloc_take (s : state) (block required_block_size : Z)
  : outcome (state * Z) :=
  let* s := split_block_if_necessary s block required_block_size in
  let* fl := get_flags s block in
  let* s := put_flags s block (Z.lor fl ALLOCATED) in
  Ok (s, wrap (block + HEADER)).

Definition malloc (fuel : nat) (s : state) (size : Z) : outcome (state * Z) :=
  let required_block_size := round_to_multiple (wrap (size + HEADER)) HEADER in
  let* block := find_block fuel s (s_head s) required_block_size in
  if block =? 0 then
    let* (s, block) := alloc_block s required_block_size in
    if block =? 0 then Ok (set_errno s ENOMEM, 0)
    else malloc_take s block required_block_size
  else malloc_take s block required_block_size.

(** [~(ALLOCATED)] on a 32-bit [int], as an unsigned bit pattern. *)
Definition NOT_ALLOCATED : Z := 4294967295 - ALLOCATED.

Definition free (s : state) (p : Z) : outcome state :=
  if p =? 0 then Ok s
  else
    let block := wrap (p - HEADER) in
    let* a := is_allocated s block in
    if negb a then Ok (log_stderr s (InvalidFree p))
    else
      let* fl := get_flags s block in
      let* s := put_flags s block (Z.land fl NOT_ALLOCATED) in
      let* s := coalesce_if_necessary s block in
      let* pv := get_prev s block in
      coalesce_if_necessary s pv.

(** [memset(p, c, n)] and [memcpy(dst, src, n)] over the reserved region.
    A run that leaves the region faults part-way; the bytes written
    before the fault are not observable, the process being dead. *)
Fixpoint fill (m : gmap Z Z) (a : Z) (n : nat) (c : Z) : gmap Z Z :=
  match n with
  | O => m
  | S k => <[a := c mod 256]> (fill m (a + 1) k c)
  end.

Definition memset (s : state) (p c n : Z) : outcome state :=
  if n =? 0 then Ok s
  else if valid s p n then Ok (set_mem s (fill (mem s) p (Z.to_nat n) c))
  else Fault.

Fixpoint read_bytes (m : gmap Z Z) (a : Z) (n : nat) : list Z :=
  match n with
  | O => []
  | S k => byte_at m a :: read_bytes m (a + 1) k
  end.

Fixpoint write_bytes (m : gmap Z Z) (a : Z) (bs : list Z) : gmap Z Z :=
  match bs with
  | [] => m
  | b :: bs' => <[a := b]> (write_bytes m (a + 1) bs')
  end.

Definition memcpy (s : state) (dst src n : Z) : outcome state :=
  if n =? 0 then Ok s
  else if valid s src n && valid s dst n then
    Ok (set_mem s (write_bytes (mem s) dst (read_bytes (mem s) src (Z.to_nat n))))
  else Fault.

Definition calloc (fuel : nat) (s : state) (nmemb size : Z) : outcome (state * Z) :=
  let* (s, buf) := malloc fuel s (wrap (nmemb * size)) in
  if negb (buf =? 0) then
    let* s := memset s buf 0 (wrap (nmemb * size)) in
    Ok (s, buf)
  else Ok (s, buf).

Definition realloc (fuel : nat) (s : state) (ptr size : Z) : outcome (state * Z) :=
  if ptr =? 0 then malloc fuel s size
  else if size =? 0 then
    let* s := free s ptr in
    Ok (s, 0)
  else
    let block := wrap (ptr - HEADER) in
    let* (s, buf) := malloc fuel s size in
    if buf =? 0 then Ok (s, 0)
    else
      let* sz := get_size s block in
      let to_copy := wrap (sz - HEADER) in
      let to_copy := if size <? to_copy then size else to_copy in
      let* s := memcpy s buf ptr to_copy in
      let* s := free s ptr in
      Ok (s, buf).

(** ** Vocabulary for the statements about the allocator *)

(** The break as [sbrk] sees it: [s_brk] is set to [s_heap] on first use. *)
Definition cur_brk (s : state) : Z := if s_brk s =? 0 then s_heap s else s_brk s.

(** The block size [malloc] computes for a request of [size] bytes. *)
Definition required (size : Z) : Z := round_to_multiple (wrap (size + HEADER)) HEADER.

(** The region returned by [mmap] starts at or above address 4096, so
    that the null page is outside it, and lies in the lower half of the
    address space. *)
Definition heap_ok (s : state) : bool :=
  (4096 <=? s_heap s) && (0 <=? s_heapsize s) && (s_heap s + s_heapsize s <? HALF).

(** [chainb s b l]: following [next] from [b] visits exactly the headers
    [l] and then the null pointer; every header lies between the start
    of the region and the break, and ends before its successor begins. *)
Fixpoint chainb (s : state) (b : Z) (l : list Z) : bool :=
  match l with
  | [] => b =? 0
  | x :: l' =>
      (b =? x) && (s_heap s <=? b) &&
      match get_size s b, get_next s b with
      | Ok sz, Ok nx =>
          (HEADER <=? sz) && (b + sz <=? cur_brk s) &&
          ((nx =? 0) || (b + sz <=? nx)) && chainb s nx l'
      | _, _ => false
      end
  end.

(** A well-formed heap with block list [l]: the list hangs from
    [s_head], the break is inside the region, and [s_tail] (which
    [alloc_block] writes through) is a header below the break. *)
Definition well_formed (s : state) (l : list Z) : bool :=
  heap_ok s &&
  (s_heap s <=? cur_brk s) && (cur_brk s <=? s_heap s + s_heapsize s) &&
  chainb s (s_head s) l &&
  ((s_head s =? 0) || ((s_heap s <=? s_tail s) && (s_tail s + HEADER <=? cur_brk s))).

(** [insert_after t e l]: the list [l] with [e] put behind [t]; this is
    what a split of block [t] does to the block list. *)
Fixpoint insert_after (t e : Z) (l : list Z) : list Z :=
  match l with
  | [] => []
  | x :: l' => if x =? t then x :: e :: l' else x :: insert_after t e l'
  end.

(** A well-formed heap whose [s_tail] is the last header of the list
    (the one with a null [next]). *)
Definition linked (s : state) (l : list Z) : Prop :=
  well_formed s l = true /\
  (s_head s = 0 \/ (s_tail s ∈ l /\ get_next s (s_tail s) = Ok 0)).

(** Block [b] is free and large enough for a block of [req] bytes. *)
Definition fitsb (s : state) (b req : Z) : bool :=
  match get_size s b, is_allocated s b with
  | Ok sz, Ok false => req <=? sz
  | _, _ => false
  end.

(** The first-fit search over [l] finds nothing. *)
Definition no_fit (s : state) (l : list Z) (req : Z) : bool :=
  forallb (fun b => negb (fitsb s b req)) l.

(** Extending the heap for a block of [req] bytes is refused by [sbrk]. *)
Definition extension_fails (s : state) (req : Z) : bool :=
  s_heapsize s - (cur_brk s - s_heap s) <? Z.max req MIN_ALLOC.

(** What a call [malloc n] that returned [r] in state [s'] owes its
    caller, [s] being the state before the call and [l] its block list:
    either the null pointer with [ENOMEM], after a search that found
    nothing and an extension that [sbrk] refused; or a pointer to a
    block marked allocated, with at least [n] bytes between the pointer
    and the end of the block, the block lying below the break. *)
Definition served (s : state) (l : list Z) (n : Z) (s' : state) (r : Z) : Prop :=
  (r = 0 /\ errno s' = ENOMEM /\
   no_fit s l (required n) = true /\ extension_fails s (required n) = true) \/
  (r <> 0 /\
   exists sz,
     get_size s' (r - HEADER) = Ok sz /\
     is_allocated s' (r - HEADER) = Ok true /\
     n <= sz - HEADER /\
     s_heap s' <= r - HEADER /\
     r - HEADER + sz <= cur_brk s' /\
     cur_brk s' <= s_heap s' + s_heapsize s').

(** The headers reachable from [b] through [next], in list order. *)
Fixpoint walk (fuel : nat) (s : state) (b : Z) : outcome (list Z) :=
  match fuel with
  | O => Timeout
  | S fuel' =>
      if b =? 0 then Ok []
      else
        let* nx := get_next s b in
        let* l := walk fuel' s nx in
        Ok (b :: l)
  end.

Definition block_list (fuel : nat) (s : state) : outcome (list Z) :=
  walk fuel s (s_head s).

(** Sum of the [size] fields of the headers in [l]. *)
Fixpoint sum_sizes (s : state) (l : list Z) : outcome Z :=
  match l with
  | [] => Ok 0
  | b :: l' =>
      let* sz := get_size s b in
      let* rest := sum_sizes s l' in
      Ok (sz + rest)
  end.

(** Bytes by which the break has been advanced. *)
Definition advanced (s : state) : Z := cur_brk s - s_heap s.

(** Two consecutive list entries that touch and are both free. *)
Fixpoint adjacent_free (s : state) (l : list Z) : bool :=
  match l with
  | b :: ((b' :: _) as l') =>
      match get_size s b, is_allocated s b, is_allocated s b' with
      | Ok sz, Ok false, Ok false => (b + sz =? b') || adjacent_free s l'
      | _, _, _ => adjacent_free s l'
      end
  | _ => false
  end.

(** [s'] is [s1] with the [n] bytes at [buf] set to zero. *)
Definition zero_filled (s1 s' : state) (buf n : Z) : Prop :=
  set_mem s' (mem s1) = s1 /\
  forall x, byte_at (mem s') x =
            if (buf <=? x) && (x <? buf + n) then 0 else byte_at (mem s1) x.

(** [s'] is [s1] with the [n] bytes at [src] copied to [dst]. *)
Definition copied (s1 s' : state) (dst src n : Z) : Prop :=
  set_mem s' (mem s1) = s1 /\
  (forall i, 0 <= i < n -> byte_at (mem s') (dst + i) = byte_at (mem s1) (src + i)) /\
  (forall x, x < dst \/ dst + n <= x -> byte_at (mem s') x = byte_at (mem s1) x).

(** ** Sequences of allocator calls *)

(** A call made by the program; [Resize] and [Release] name the pointer
    they act on by its position among the pointers returned so far. *)
Inductive request : Type :=
| Allocate (n : Z)
| ZeroAllocate (count size : Z)
| Resize (k : nat) (n : Z)
| Release (k : nat).

Definition serve (fuel : nat) (st : state * list Z) (r : request)
  : outcome (state * list Z) :=
  let '(s, ps) := st in
  match r with
  | Allocate n =>
      let* (s', p) := malloc fuel s n in Ok (s', ps ++ [p])
  | ZeroAllocate count size =>
      let* (s', p) := calloc fuel s count size in Ok (s', ps ++ [p])
  | Resize k n =>
      let* (s', p) := realloc fuel s (nth k ps 0) n in Ok (s', ps ++ [p])
  | Release k =>
      let* s' := free s (nth k ps 0) in Ok (s', ps)
  end.

Fixpoint serve_all (fuel : nat) (st : state * list Z) (rs : list request)
  : outcome (state * list Z) :=
  match rs with
  | [] => Ok st
  | r :: rs' =>
      let* st' := serve fuel st r in
      serve_all fuel st' rs'
  end.

(** The empty heap: an 8 MiB region mapped at address 65536. *)
Definition empty_heap : state := fresh 65536 DEFAULT_HEAP_SIZE.

(** Four blocks are allocated one after the other; the third, the
    second and the fourth are then released. *)
Definition release_inner_blocks : list request :=
  [Allocate 32; Allocate 32; Allocate 32; Allocate 32;
   Release 2; Release 1; Release 3].

(** The state reached by a sequence of calls, when it is reached. *)
Definition state_after (fuel : nat) (rs : list request) : state :=
  match serve_all fuel (empty_heap, []) rs with
  | Ok (s, _) => s
  | _ => empty_heap
  end.

(** ** The heap as [malloc] lays it out *)

(** Block [x] has a size that is a multiple of the header size and ends
    where its successor begins, or at the break if it has none. *)
Definition tileb (s : state) (x : Z) : bool :=
  match get_size s x, get_next s x with
  | Ok sz, Ok nx =>
      (sz mod HEADER =? 0) && (x + sz =? (if nx =? 0 then cur_brk s else nx))
  | _, _ => false
  end.

(** The layout [malloc] builds: a linked list whose first block starts
    at the start of the region and whose blocks tile the region up to
    the break; with no block yet, the break is at the start. *)
Definition tiles (s : state) (l : list Z) : Prop :=
  linked s l /\
  (s_head s = 0 -> cur_brk s = s_heap s) /\
  (s_head s <> 0 -> s_head s = s_heap s) /\
  forall x, x ∈ l -> tileb s x = true.

(** The same, as a test. *)
Definition layout (s : state) (l : list Z) : bool :=
  well_formed s l &&
  (if s_head s =? 0 then cur_brk s =? s_heap s
   else (s_head s =? s_heap s) && existsb (Z.eqb (s_tail s)) l &&
        match get_next s (s_tail s) with Ok nx => nx =? 0 | _ => false end) &&
  forallb (tileb s) l.

(** The state in which [free(p)] calls [coalesce_if_necessary]: the
    flag of the block of [p] has been cleared. *)
Definition flag_cleared (s : state) (p : Z) : state :=
  match (let* fl := get_flags s (p - HEADER) in
         put_flags s (p - HEADER) (Z.land fl NOT_ALLOCATED)) with
  | Ok s' => s'
  | _ => s
  end.

(** What a call [malloc n] on a heap with block list [l] grants, [s']
    being the state it leaves, [l'] the block list of [s'] and [r] the
    pointer returned.  Either [r] is null: then [errno] is [ENOMEM], no
    block of [l] fits and [sbrk] refuses the extension.  Or [r] is the
    address behind the header of a block of [l']: the block is marked
    allocated, it has at least [n] bytes behind its header and ends
    where the next block begins (at the break if it is the last one);
    it is the first block of [l] that was free and large enough or,
    when no block of [l] was, a new block at the old break; and the
    header and the [n] bytes lie outside every block of [l] that was
    allocated before the call. *)
Definition granted (s : state) (l : list Z) (n : Z)
    (s' : state) (l' : list Z) (r : Z) : Prop :=
  (r = 0 /\ errno s' = ENOMEM /\
   no_fit s l (required n) = true /\ extension_fails s (required n) = true) \/
  (r <> 0 /\ r - HEADER ∈ l' /\
   (exists sz nx,
      get_size s' (r - HEADER) = Ok sz /\ get_next s' (r - HEADER) = Ok nx /\
      is_allocated s' (r - HEADER) = Ok true /\
      n <= sz - HEADER /\
      r - HEADER + sz = (if nx =? 0 then cur_brk s' else nx)) /\
   ((exists l1 l2,
       l = l1 ++ (r - HEADER) :: l2 /\ no_fit s l1 (required n) = true /\
       fitsb s (r - HEADER) (required n) = true) \/
    (r - HEADER = cur_brk s /\ no_fit s l (required n) = true)) /\
   forall x szx,
     x ∈ l -> is_allocated s x = Ok true -> get_size s x = Ok szx ->
     x + szx <= r - HEADER \/ r + n <= x).

(** Calls after which a block that is in use is no longer in the list:
    the calls of [release_inner_blocks], which leave [s_tail] on a
    header that is not in the list; three allocations, of which the
    second takes the block at 65728 and the third extends the heap
    behind the stale tail; and the release of the third. *)
Definition stale_tail_calls : list request :=
  release_inner_blocks ++ [Allocate 1; Allocate 65300; Allocate 96; Release 6].

(** ** EasySandbox.c: the start-up sequence as a trace of calls *)

Definition DLOPEN_FAILED : Z := 120.
Definition SECCOMP_FAILED : Z := 121.
Definition EXIT_FAILED : Z := 122.
Definition MMAP_FAILED : Z := 123.

(** [fcntl.h], [stdio.h], [sys/mman.h] on Linux. *)
Definition O_NONBLOCK : Z := 2048.
Definition EOF : Z := -1.
Definition MAP_FAILED : Z := wrap (-1).

Inductive stream : Type := Stdout | Stderr.

Inductive event : Type :=
| EGetenv                    (* getenv("EASYSANDBOX_HEAPSIZE") *)
| EMmap (len : Z)            (* mmap(0, len, ...) *)
| EDlopen                    (* dlopen("libc.so.6", ...) *)
| EDlsym                     (* dlsym(libc_handle, "__libc_start_main") *)
| ERealStart                 (* call of the real __libc_start_main *)
| ESentinel (st : stream)    (* fprintf(st, "<<entering SECCOMP mode>>\n") *)
| EFflush (st : stream)
| EFcntlGet                  (* fcntl(0, F_GETFL, 0) *)
| EFcntlSet (flags : Z)      (* fcntl(0, F_SETFL, flags) *)
| EFgetc                     (* fgetc(stdin) *)
| EUngetc (c : Z)
| EPrctl                     (* prctl(PR_SET_SECCOMP, 1, 0, 0) *)
| E_exit (status : Z)        (* _exit(status) *)
| ESysExit (status : Z)      (* syscall(SYS_exit, status) *)
| ERealInit                  (* real_init() *)
| ERealMain.                 (* real_main(argc, argv, envp) *)

#[global] Instance stream_eq_dec : EqDecision stream.
Proof. solve_decision. Defined.
#[global] Instance event_eq_dec : EqDecision event.
Proof. solve_decision. Defined.

(** What the environment answers to the calls made during start-up. *)
Record world : Type := mkWorld {
  heapenv : option Z;        (* atol of EASYSANDBOX_HEAPSIZE, if set *)
  mmap_result : Z;           (* address, or MAP_FAILED *)
  dlopen_result : Z;         (* handle, or 0 *)
  dlsym_result : Z;          (* address of the real __libc_start_main, or 0 *)
  stdin_flags : Z;
  fgetc_result : Z;          (* a character, or EOF *)
  prctl_result : Z;          (* 0, or -1 *)
  real_main_result : Z
}.

(** How a piece of the program ends: it returns to its caller, the
    process terminates with a status, or the process crashes. *)
Inductive ending (A : Type) : Type :=
| Returns (a : A)
| Exits (status : Z)
| Crashes.
Arguments Returns {A} a.
Arguments Exits {A} status.
Arguments Crashes {A}.

Definition proc (A : Type) : Type := (list event * ending A)%type.

Definition ret {A} (a : A) : proc A := ([], Returns a).

Definition seq {A B} (c : proc A) (k : A -> proc B) : proc B :=
  match c with
  | (t, Returns a) => let '(t', e) := k a in (t ++ t', e)
  | (t, Exits st) => (t, Exits st)
  | (t, Crashes) => (t, Crashes)
  end.

Notation "'do' x := c 'in' k" := (seq c (fun x => k))
  (at level 10, x pattern, c at level 100, k at level 200).
Notation "c ;; k" := (seq c (fun _ => k))
  (at level 100, k at level 200, right associativity).

Definition call (e : event) : proc unit := ([e], Returns tt).

(** [_exit(status)] (the raw termination call of the C library). *)
Definition _exit {A} (status : Z) : proc A := ([E_exit status], Exits status).

(** [exit]: flush both streams, then the [exit] system call, which does
    not return. *)
Definition exit {A} (exit_code : Z) : proc A :=
  call (EFflush Stdout) ;;
  call (EFflush Stderr) ;;
  ([ESysExit exit_code], Exits exit_code).

Definition wrapper_init (w : world) : proc unit :=
  call (ESentinel Stdout) ;;
  call (EFflush Stdout) ;;
  call (ESentinel Stderr) ;;
  call (EFflush Stderr) ;;
  call EFcntlGet ;;
  call (EFcntlSet (Z.lor (stdin_flags w) O_NONBLOCK)) ;;
  call EFgetc ;;
  (if negb (fgetc_result w =? EOF) then call (EUngetc (fgetc_result w)) else ret tt) ;;
  call (EFcntlSet (stdin_flags w)) ;;
  call EPrctl ;;
  (if prctl_result w =? -1 then _exit SECCOMP_FAILED else ret tt) ;;
  call ERealInit.

Definition wrapper_main (w : world) : proc Z :=
  call ERealMain ;;
  (exit (real_main_result w) : proc unit) ;;
  ret EXIT_FAILED.

(** The real [__libc_start_main] belongs to glibc.  Of its contract only
    this is used: it runs the pre-init hook it is given, then the entry
    function, and passes the entry function's result to [exit]. *)
Definition real_libc_start_main (main : proc Z) (init : proc unit) : proc Z :=
  init ;;
  do n := main in
  exit n.

Definition heap_size_setting (w : world) : Z :=
  wrap (match heapenv w with Some v => v | None => DEFAULT_HEAP_SIZE end).

Definition __libc_start_main (w : world) : proc Z :=
  call EGetenv ;;
  call (EMmap (heap_size_setting w)) ;;
  (if mmap_result w =? MAP_FAILED then _exit MMAP_FAILED else ret tt) ;;
  call EDlopen ;;
  (if dlopen_result w =? 0 then _exit DLOPEN_FAILED else ret tt) ;;
  call EDlsym ;;
  (* the result of dlsym is called without a test *)
  if dlsym_result w =? 0 then ([], Crashes)
  else
    call ERealStart ;;
    real_libc_start_main (wrapper_main w) (wrapper_init w).

(** The allocator state the start-up leaves behind. *)
Definition heap_after_setup (w : world) : state :=
  fresh (mmap_result w) (heap_size_setting w).

(** The I/O-priming calls of [wrapper_init], in program order. *)
Definition priming (w : world) : list event :=
  [ESentinel Stdout; EFflush Stdout; ESentinel Stderr; EFflush Stderr;
   EFcntlGet; EFcntlSet (Z.lor (stdin_flags w) O_NONBLOCK); EFgetc] ++
  (if negb (fgetc_result w =? EOF) then [EUngetc (fgetc_result w)] else []) ++
  [EFcntlSet (stdin_flags w)].

Definition occurrences (e : event) (t : list event) : nat :=
  length (filter (fun x => x = e) t).

(** Some [a] occurs in [t] strictly before some [b]. *)
Definition before (a b : event) (t : list event) : Prop :=
  exists t1 t2 t3, t = t1 ++ a :: t2 ++ b :: t3.

Fixpoint beforeb (a b : event) (t : list event) : bool :=
  match t with
  | [] => false
  | x :: t' => (bool_decide (x = a) && bool_decide (b ∈ t')) || beforeb a b t'
  end.

(* ================================================================== *)
(** * Properties *)
(* ================================================================== *)

Arguments load_le : simpl never.
Arguments store_le : simpl never.
Arguments wrap : simpl never.
Arguments to_signed : simpl never.

(** ** Bytes and little-endian scalars *)

Lemma byte_at_range (m : gmap Z Z) a : 0 <= byte_at m a < 256.
Proof. unfold byte_at. apply Z.mod_pos_bound. lia. Qed.

Lemma byte_at_insert (m : gmap Z Z) a v x :
  byte_at (<[a := v]> m) x = if decide (a = x) then v mod 256 else byte_at m x.
Proof. unfold byte_at. rewrite lookup_insert. case_decide; done. Qed.

Lemma load_le_S (m : gmap Z Z) a n :
  load_le m a (S n) = byte_at m a + 256 * load_le m (a + 1) n.
Proof. reflexivity. Qed.

Lemma store_le_S (m : gmap Z Z) a n v :
  store_le m a (S n) v = <[a := v mod 256]> (store_le m (a + 1) n (v / 256)).
Proof. reflexivity. Qed.

Lemma load_le_range (m : gmap Z Z) a n : 0 <= load_le m a n < 256 ^ Z.of_nat n.
Proof.
  revert a. induction n as [|n IH]; intros a.
  - cbv. split; congruence.
  - rewrite load_le_S, Nat2Z.inj_succ, Z.pow_succ_r by lia.
    pose proof (byte_at_range m a). specialize (IH (a + 1)). lia.
Qed.

Lemma load_le_ext (m m' : gmap Z Z) a n :
  (forall x, a <= x < a + Z.of_nat n -> byte_at m' x = byte_at m x) ->
  load_le m' a n = load_le m a n.
Proof.
  revert a. induction n as [|n IH]; intros a H; [reflexivity|].
  rewrite !load_le_S, H by lia. rewrite IH; [reflexivity|].
  intros x Hx. apply H. lia.
Qed.

Lemma byte_at_store_le_out (m : gmap Z Z) a n v x :
  x < a \/ a + Z.of_nat n <= x -> byte_at (store_le m a n v) x = byte_at m x.
Proof.
  revert a v. induction n as [|n IH]; intros a v H; [reflexivity|].
  rewrite store_le_S, byte_at_insert. case_decide; [lia|]. apply IH. lia.
Qed.

Lemma load_le_store_le_other (m : gmap Z Z) a n v b k :
  b + Z.of_nat k <= a \/ a + Z.of_nat n <= b ->
  load_le (store_le m a n v) b k = load_le m b k.
Proof.
  intros H. apply load_le_ext. intros x Hx. apply byte_at_store_le_out. lia.
Qed.

Lemma load_le_store_le_same (m : gmap Z Z) a n v :
  load_le (store_le m a n v) a n = v mod 256 ^ Z.of_nat n.
Proof.
  revert a v. induction n as [|n IH]; intros a v.
  - rewrite Z.pow_0_r, Z.mod_1_r. reflexivity.
  - rewrite load_le_S, store_le_S, byte_at_insert, decide_True by reflexivity.
    rewrite Z.mod_mod by lia.
    rewrite (load_le_ext (store_le m (a + 1) n (v / 256))).
    + rewrite IH, Nat2Z.inj_succ, Z.pow_succ_r by lia.
      rewrite Z.rem_mul_r by lia. reflexivity.
    + intros x Hx. rewrite byte_at_insert. case_decide; [lia|reflexivity].
Qed.

Lemma byte_at_fill (m : gmap Z Z) a n c x :
  byte_at (fill m a n c) x =
  if (a <=? x) && (x <? a + Z.of_nat n) then c mod 256 else byte_at m x.
Proof.
  revert a. induction n as [|n IH]; intros a.
  - simpl fill.
    destruct (Z.leb_spec a x), (Z.ltb_spec x (a + Z.of_nat 0)); simpl; try reflexivity; lia.
  - simpl fill. rewrite byte_at_insert, IH. rewrite Z.mod_mod by lia.
    case_decide;
      destruct (Z.leb_spec a x), (Z.ltb_spec x (a + Z.of_nat (S n))),
        (Z.leb_spec (a + 1) x), (Z.ltb_spec x (a + 1 + Z.of_nat n));
      simpl; try reflexivity; lia.
Qed.

Lemma length_read_bytes (m : gmap Z Z) a n : length (read_bytes m a n) = n.
Proof. revert a. induction n as [|n IH]; intros a; simpl; [reflexivity|]. by rewrite IH. Qed.

Lemma byte_at_write_bytes_out (m : gmap Z Z) a bs x :
  x < a \/ a + Z.of_nat (length bs) <= x -> byte_at (write_bytes m a bs) x = byte_at m x.
Proof.
  revert a. induction bs as [|b bs IH]; intros a H; [reflexivity|].
  simpl in *. rewrite byte_at_insert. case_decide; [lia|]. apply IH. lia.
Qed.

Lemma byte_at_write_read (m m0 : gmap Z Z) dst src n i :
  0 <= i < Z.of_nat n ->
  byte_at (write_bytes m dst (read_bytes m0 src n)) (dst + i) = byte_at m0 (src + i).
Proof.
  revert dst src i. induction n as [|n IH]; intros dst src i Hi; [lia|].
  simpl. rewrite byte_at_insert. case_decide as E.
  - assert (i = 0) by lia. subst i. rewrite Z.add_0_r.
    pose proof (byte_at_range m0 src). apply Z.mod_small. lia.
  - replace (dst + i) with (dst + 1 + (i - 1)) by lia.
    replace (src + i) with (src + 1 + (i - 1)) by lia.
    apply IH. lia.
Qed.

(** ** Machine words *)

Lemma wrap_small x : 0 <= x < WORD -> wrap x = x.
Proof. intros H. unfold wrap. apply Z.mod_small. exact H. Qed.

Lemma wrap_range x : 0 <= wrap x < WORD.
Proof. unfold wrap, WORD. apply Z.mod_pos_bound. lia. Qed.

Lemma to_signed_small x : 0 <= x < HALF -> to_signed x = x.
Proof.
  intros H. unfold to_signed. destruct (Z.ltb_spec x HALF); [reflexivity|lia].
Qed.

Lemma bit0_land x : Z.land x ALLOCATED = Z.b2z (Z.testbit x 0).
Proof.
  change ALLOCATED with (Z.ones 1). rewrite Z.land_ones by lia.
  rewrite Z.bit0_mod. reflexivity.
Qed.

Lemma allocated_bit_set fl :
  negb (Z.land (Z.lor fl ALLOCATED mod 256 ^ Z.of_nat 4) ALLOCATED =? 0) = true.
Proof.
  rewrite bit0_land. change (256 ^ Z.of_nat 4) with (2 ^ 32).
  rewrite Z.mod_pow2_bits_low by lia.
  rewrite Z.lor_spec. change (Z.testbit ALLOCATED 0) with true.
  rewrite orb_true_r. reflexivity.
Qed.

Lemma allocated_bit_cleared fl :
  negb (Z.land (Z.land fl NOT_ALLOCATED mod 256 ^ Z.of_nat 4) ALLOCATED =? 0) = false.
Proof.
  rewrite bit0_land. change (256 ^ Z.of_nat 4) with (2 ^ 32).
  rewrite Z.mod_pow2_bits_low by lia.
  rewrite Z.land_spec. change (Z.testbit NOT_ALLOCATED 0) with false.
  rewrite andb_false_r. reflexivity.
Qed.

(** ** Loads and stores in a state *)

Lemma obind_Ok {A B} (a : A) (k : A -> outcome B) : obind (Ok a) k = k a.
Proof. reflexivity. Qed.

Lemma valid_intro s a n :
  s_heap s <= a -> a + n <= s_heap s + s_heapsize s -> valid s a n = true.
Proof.
  intros H1 H2. unfold valid.
  destruct (Z.leb_spec (s_heap s) a), (Z.leb_spec (a + n) (s_heap s + s_heapsize s));
    simpl; try reflexivity; lia.
Qed.

Lemma valid_elim s a n :
  valid s a n = true -> s_heap s <= a /\ a + n <= s_heap s + s_heapsize s.
Proof.
  unfold valid.
  destruct (Z.leb_spec (s_heap s) a), (Z.leb_spec (a + n) (s_heap s + s_heapsize s));
    simpl; intros; try discriminate; lia.
Qed.

Lemma load_ok s a n :
  valid s a (Z.of_nat n) = true -> load s a n = Ok (load_le (mem s) a n).
Proof. intros H. unfold load. rewrite H. reflexivity. Qed.

Lemma store_ok s a n v :
  valid s a (Z.of_nat n) = true ->
  store s a n v = Ok (set_mem s (store_le (mem s) a n v)).
Proof. intros H. unfold store. rewrite H. reflexivity. Qed.

Lemma load_inv s a n v :
  load s a n = Ok v ->
  v = load_le (mem s) a n /\ s_heap s <= a /\ a + Z.of_nat n <= s_heap s + s_heapsize s.
Proof.
  unfold load. destruct (valid s a (Z.of_nat n)) eqn:E; [|discriminate].
  intros [= <-]. apply valid_elim in E. tauto.
Qed.

Lemma load_fault s a n :
  a < s_heap s \/ s_heap s + s_heapsize s < a + Z.of_nat n -> load s a n = Fault.
Proof.
  intros H. unfold load. destruct (valid s a (Z.of_nat n)) eqn:E; [|reflexivity].
  apply valid_elim in E. lia.
Qed.

Lemma heap_ok_elim s :
  heap_ok s = true ->
  4096 <= s_heap s /\ 0 <= s_heapsize s /\ s_heap s + s_heapsize s < HALF.
Proof.
  unfold heap_ok. rewrite !andb_true_iff. intros [[H1 H2] H3]. lia.
Qed.

Lemma load8_bound s a v : load s a 8 = Ok v -> 0 <= v < WORD.
Proof.
  intros H. apply load_inv in H as [-> _]. apply (load_le_range (mem s) a 8).
Qed.

Ltac fields :=
  cbn [s_heap s_heapsize s_brk s_head s_tail errno stderr_log mem
       set_mem set_brk set_head set_tail set_errno log_stderr] in *.

Ltac consts :=
  unfold HEADER, OFF_PREV, OFF_NEXT, OFF_SIZE, OFF_FLAGS, MIN_ALLOC, WORD, HALF in *.

Ltac in_heap := apply valid_intro; fields; consts; lia.

Ltac do_store := rewrite store_ok by in_heap; rewrite obind_Ok; fields.
Ltac do_load := rewrite load_ok by in_heap; rewrite obind_Ok; fields.

Ltac frame :=
  repeat first
    [ rewrite load_le_store_le_same
    | rewrite load_le_store_le_other by (consts; simpl Z.of_nat; lia) ].

(** ** [malloc]: taking a block that is large enough *)

Lemma malloc_take_ok s b req sz nx :
  heap_ok s = true -> s_heap s <= b ->
  get_size s b = Ok sz -> get_next s b = Ok nx ->
  HEADER <= req <= sz -> b + sz <= s_heap s + s_heapsize s ->
  (nx = 0 \/ (b + sz <= nx /\ nx + HEADER <= s_heap s + s_heapsize s)) ->
  exists s' sz',
    malloc_take s b req = Ok (s', b + HEADER) /\
    get_size s' b = Ok sz' /\ req <= sz' <= sz /\
    is_allocated s' b = Ok true /\
    s_heap s' = s_heap s /\ s_heapsize s' = s_heapsize s /\
    s_brk s' = s_brk s /\ errno s' = errno s.
Proof.
  intros Hok Hb Hsz Hnx Hreq Hend Hn.
  apply heap_ok_elim in Hok. destruct Hok as (Hlo & Hlen & Hhi).
  pose proof (load8_bound _ _ _ Hsz) as Hszr.
  unfold get_size in Hsz. apply load_inv in Hsz as (Esz & _).
  unfold get_next in Hnx. apply load_inv in Hnx as (Enx & _).
  unfold malloc_take, split_block_if_necessary, is_allocated,
    get_size, get_next, get_flags, put_size, put_next, put_prev, put_flags.
  do_load. rewrite <- Esz.
  assert (Ew : wrap (sz - req) = sz - req) by (apply wrap_small; consts; lia).
  assert (Ep : wrap (b + HEADER) = b + HEADER) by (apply wrap_small; consts; lia).
  rewrite Ew, Ep.
  destruct (Z.leb_spec (sz - req) HEADER) as [Hsmall|Hbig].
  - rewrite obind_Ok. do_load. do_store.
    eexists _, sz. split; [reflexivity|]. fields.
    split; [|split; [lia|split; [|auto]]].
    + rewrite load_ok by in_heap. fields. frame. congruence.
    + rewrite load_ok by in_heap. rewrite obind_Ok. fields. frame.
      rewrite allocated_bit_set. reflexivity.
  - assert (Ee : wrap (b + req) = b + req) by (apply wrap_small; consts; lia).
    rewrite Ee.
    do_store. do_store. do_store. do_load. frame. rewrite <- Enx.
    do_store. do_store. do_load. frame. rewrite <- Enx.
    destruct (Z.eqb_spec nx 0) as [Hz|Hnz]; simpl negb; cbv iota.
    + rewrite obind_Ok. fields. do_store. do_load. do_store.
      eexists _, req. split; [reflexivity|]. fields.
      split; [|split; [lia|split; [|auto]]].
      * rewrite load_ok by in_heap. fields. frame.
        change (256 ^ Z.of_nat 8) with WORD. f_equal. apply wrap_small. consts; lia.
      * rewrite load_ok by in_heap. rewrite obind_Ok. fields. frame.
        rewrite allocated_bit_set. reflexivity.
    + destruct Hn as [?|[Hn1 Hn2]]; [lia|].
      do_store. do_store. do_load. do_store.
      eexists _, req. split; [reflexivity|]. fields.
      split; [|split; [lia|split; [|auto]]].
      * rewrite load_ok by in_heap. fields. frame.
        change (256 ^ Z.of_nat 8) with WORD. f_equal. apply wrap_small. consts; lia.
      * rewrite load_ok by in_heap. rewrite obind_Ok. fields. frame.
        rewrite allocated_bit_set. reflexivity.
Qed.

(** ** The block list *)

Lemma chainb_nil_elim s b : chainb s b [] = true -> b = 0.
Proof. simpl. intros H. apply Z.eqb_eq. exact H. Qed.

Lemma chainb_cons_elim s b x l :
  chainb s b (x :: l) = true ->
  b = x /\ s_heap s <= b /\
  exists sz nx,
    get_size s b = Ok sz /\ get_next s b = Ok nx /\
    HEADER <= sz /\ b + sz <= cur_brk s /\ (nx = 0 \/ b + sz <= nx) /\
    chainb s nx l = true.
Proof.
  simpl. destruct (get_size s b) as [sz| |]; try (rewrite andb_false_r; discriminate).
  destruct (get_next s b) as [nx| |]; try (rewrite andb_false_r; discriminate).
  rewrite !andb_true_iff, orb_true_iff.
  intros [[Hb Hlo] [[[Hsz Hend] Hnx] Hrest]].
  apply Z.eqb_eq in Hb. apply Z.leb_le in Hlo, Hsz, Hend.
  split; [exact Hb|]. split; [exact Hlo|].
  exists sz, nx. repeat split; try assumption.
  destruct Hnx as [Hnx|Hnx]; [left; apply Z.eqb_eq|right; apply Z.leb_le]; exact Hnx.
Qed.

Lemma chainb_head_header s b l :
  chainb s b l = true -> b <> 0 -> s_heap s <= b /\ b + HEADER <= cur_brk s.
Proof.
  destruct l as [|x l]; intros H Hb.
  - apply chainb_nil_elim in H. contradiction.
  - apply chainb_cons_elim in H as (_ & Hlo & sz & nx & _ & _ & Hsz & Hend & _).
    lia.
Qed.

Lemma required_bounds n :
  0 <= n <= HALF - 64 ->
  n + HEADER <= required n < HALF /\ required n mod HEADER = 0.
Proof.
  intros Hn. unfold required, round_to_multiple.
  assert (E : wrap (n + HEADER) = n + HEADER) by (apply wrap_small; consts; lia).
  rewrite E.
  pose proof (Z.mod_pos_bound (n + HEADER) HEADER ltac:(consts; lia)) as Hm.
  destruct (Z.eqb_spec ((n + HEADER) mod HEADER) 0) as [Hz|Hnz]; simpl negb; cbv iota.
  - split; [consts; lia|exact Hz].
  - rewrite wrap_small by (consts; lia). split; [consts; lia|].
    rewrite (Z.div_mod (n + HEADER) HEADER) at 1 by (consts; lia).
    replace (HEADER * ((n + HEADER) / HEADER) + (n + HEADER) mod HEADER +
             (HEADER - (n + HEADER) mod HEADER))
      with ((1 + (n + HEADER) / HEADER) * HEADER) by ring.
    apply Z.mod_mul. consts; lia.
Qed.

(** The search loop terminates on a well-formed list and returns the
    first block that fits, if there is one. *)
Lemma find_block_chain l : forall fuel s b req,
  0 < s_heap s ->
  cur_brk s <= s_heap s + s_heapsize s ->
  chainb s b l = true -> (length l < fuel)%nat ->
  exists r,
    find_block fuel s b req = Ok r /\
    ((r = 0 /\ no_fit s l req = true) \/
     (r <> 0 /\ r ∈ l /\ s_heap s <= r /\
      exists sz nx,
        get_size s r = Ok sz /\ get_next s r = Ok nx /\ req <= sz /\
        r + sz <= cur_brk s /\
        (nx = 0 \/ (r + sz <= nx /\ nx + HEADER <= cur_brk s)) /\
        is_allocated s r = Ok false)).
Proof.
  induction l as [|x l IH]; intros fuel s b req Hpos Hbrk Hc Hfuel.
  - apply chainb_nil_elim in Hc. subst b.
    destruct fuel as [|fuel]; [simpl in Hfuel; lia|].
    exists 0. split; [reflexivity|]. left. split; reflexivity.
  - destruct fuel as [|fuel]; [simpl in Hfuel; lia|].
    apply chainb_cons_elim in Hc as (-> & Hlo & sz & nx & Hsz & Hnx & Hmin & Hend & Hord & Hrest).
    assert (Hx : x <> 0).
    { lia. }
    assert (Hfl : exists fl, get_flags s x = Ok fl).
    { eexists. unfold get_flags. apply load_ok. in_heap. }
    destruct Hfl as [fl Hfl].
    assert (Hnext : nx = 0 \/ (x + sz <= nx /\ nx + HEADER <= cur_brk s)).
    { destruct Hord as [?|?]; [left; assumption|].
      destruct (Z.eq_dec nx 0); [left; assumption|right].
      pose proof (chainb_head_header _ _ _ Hrest n). lia. }
    assert (Hrec : exists r,
      (let* nx := get_next s x in find_block fuel s nx req) = Ok r /\
      ((r = 0 /\ no_fit s l req = true) \/
       (r <> 0 /\ r ∈ l /\ s_heap s <= r /\
        exists sz nx,
          get_size s r = Ok sz /\ get_next s r = Ok nx /\ req <= sz /\
          r + sz <= cur_brk s /\
          (nx = 0 \/ (r + sz <= nx /\ nx + HEADER <= cur_brk s)) /\
          is_allocated s r = Ok false))).
    { rewrite Hnx, obind_Ok. apply IH; [assumption|assumption|assumption|simpl in Hfuel; lia]. }
    simpl find_block. destruct (Z.eqb_spec x 0) as [?|_]; [contradiction|].
    rewrite Hsz, obind_Ok.
    assert (Hnf : forall r, fitsb s x req = false ->
      (r = 0 /\ no_fit s l req = true) -> (r = 0 /\ no_fit s (x :: l) req = true)).
    { intros r Hf [-> Hl]. split; [reflexivity|]. simpl. rewrite Hf, Hl. reflexivity. }
    unfold fitsb in Hnf. rewrite Hsz in Hnf.
    destruct (Z.leb_spec req sz) as [Hfit|Hsmall].
    + unfold is_allocated in *. rewrite Hfl, !obind_Ok in *.
      destruct (negb (Z.land fl ALLOCATED =? 0)) eqn:Ha; simpl negb; cbv iota.
      * destruct Hrec as (r & Hr & Hcase). exists r. split; [exact Hr|].
        destruct Hcase as [Hcase|(? & ? & Hcase)];
          [left; apply Hnf; auto|right; split; [assumption|split; [right; assumption|exact Hcase]]].
      * exists x. split; [reflexivity|]. right.
        split; [exact Hx|]. split; [left|]. split; [exact Hlo|].
        exists sz, nx. rewrite Hfl, obind_Ok, Ha. repeat split; auto.
    + destruct Hrec as (r & Hr & Hcase). exists r. split; [exact Hr|].
      destruct Hcase as [Hcase|(? & ? & Hcase)];
        [left; apply Hnf; auto|right; split; [assumption|split; [right; assumption|exact Hcase]]].
      destruct (is_allocated s x) as [[|]| |]; reflexivity.
Qed.

(** ** [sbrk] and [alloc_block] *)

Lemma sbrk_spec s incr :
  0 <= s_heap s -> s_heap s <= cur_brk s ->
  cur_brk s <= s_heap s + s_heapsize s -> s_heap s + s_heapsize s < HALF ->
  sbrk s incr =
  let s1 := if s_brk s =? 0 then set_brk s (s_heap s) else s in
  if s_heapsize s - (cur_brk s - s_heap s) <? incr
  then (set_errno s1 ENOMEM, wrap (-1))
  else (set_brk s1 (wrap (cur_brk s + incr)), cur_brk s).
Proof.
  intros H0 H1 H2 H3. unfold sbrk, cur_brk in *.
  destruct (s_brk s =? 0); fields;
    rewrite (wrap_small (_ - s_heap s)) by (consts; lia);
    rewrite (to_signed_small (_ - s_heap s)) by (consts; lia);
    rewrite wrap_small by (consts; lia);
    rewrite to_signed_small by (consts; lia); reflexivity.
Qed.

Lemma alloc_block_ok s req :
  heap_ok s = true ->
  s_heap s <= cur_brk s -> cur_brk s <= s_heap s + s_heapsize s ->
  (s_head s = 0 \/ (s_heap s <= s_tail s /\ s_tail s + HEADER <= cur_brk s)) ->
  HEADER <= req < HALF ->
  (extension_fails s req = true /\
   exists s', alloc_block s req = Ok (s', 0) /\
     mem s' = mem s /\ s_head s' = s_head s /\ s_tail s' = s_tail s /\
     s_heap s' = s_heap s /\ s_heapsize s' = s_heapsize s /\
     stderr_log s' = stderr_log s /\ cur_brk s' = cur_brk s) \/
  (extension_fails s req = false /\
   exists s', alloc_block s req = Ok (s', cur_brk s) /\
     get_size s' (cur_brk s) = Ok (Z.max req MIN_ALLOC) /\
     get_next s' (cur_brk s) = Ok 0 /\
     s_brk s' = cur_brk s + Z.max req MIN_ALLOC /\
     s_heap s' = s_heap s /\ s_heapsize s' = s_heapsize s).
Proof.
  intros Hok Hb1 Hb2 Htail Hreq.
  apply heap_ok_elim in Hok. destruct Hok as (Hlo & Hlen & Hhi).
  unfold alloc_block, extension_fails.
  assert (Ebs : (if req <? MIN_ALLOC then MIN_ALLOC else req) = Z.max req MIN_ALLOC).
  { destruct (Z.ltb_spec req MIN_ALLOC); lia. }
  rewrite Ebs. set (bs := Z.max req MIN_ALLOC) in *.
  assert (Hbs : MIN_ALLOC <= bs < HALF) by (unfold bs; consts; lia).
  rewrite to_signed_small by (consts; lia).
  rewrite sbrk_spec by lia. cbv zeta.
  set (s1 := if s_brk s =? 0 then set_brk s (s_heap s) else s).
  assert (Hs1 : mem s1 = mem s /\ s_head s1 = s_head s /\ s_tail s1 = s_tail s /\
                s_heap s1 = s_heap s /\ s_heapsize s1 = s_heapsize s /\
                stderr_log s1 = stderr_log s /\ cur_brk s1 = cur_brk s).
  { unfold s1, cur_brk. destruct (Z.eqb_spec (s_brk s) 0) as [E|E]; fields;
      repeat split; try reflexivity;
      match goal with |- (if ?c =? 0 then _ else _) = _ =>
        destruct (Z.eqb_spec c 0); congruence end. }
  destruct Hs1 as (Em & Eh & Et & Elo & Esz & Elog & Ecb). clearbody s1.
  destruct (Z.ltb_spec (s_heapsize s - (cur_brk s - s_heap s)) bs) as [Hfail|Hfit].
  - left. split; [reflexivity|]. rewrite Z.eqb_refl.
    eexists. split; [reflexivity|]. fields. repeat split; assumption.
  - right. split; [reflexivity|].
    assert (Hne : (cur_brk s =? wrap (-1)) = false).
    { apply Z.eqb_neq. change (wrap (-1)) with (WORD - 1). consts. lia. }
    rewrite Hne. rewrite (wrap_small (cur_brk s + bs)) by (consts; lia).
    unfold put_next, put_prev, put_size, put_flags, get_size, get_next.
    do_store. rewrite Eh.
    destruct (Z.eqb_spec (s_head s) 0) as [Hz|Hnz].
    + do_store. do_store. do_store.
      eexists. split; [reflexivity|]. fields.
      split; [|split; [|auto]].
      * rewrite load_ok by in_heap. fields. frame.
        change (256 ^ Z.of_nat 8) with WORD. f_equal. apply wrap_small. consts; lia.
      * rewrite load_ok by in_heap. fields. frame. reflexivity.
    + destruct Htail as [?|[Ht1 Ht2]]; [contradiction|].
      rewrite Et. do_store. do_store. rewrite obind_Ok. fields.
      do_store. do_store.
      eexists. split; [reflexivity|]. fields.
      split; [|split; [|auto]].
      * rewrite load_ok by in_heap. fields. frame.
        change (256 ^ Z.of_nat 8) with WORD. f_equal. apply wrap_small. consts; lia.
      * rewrite load_ok by in_heap. fields. frame. reflexivity.
Qed.

Lemma well_formed_elim s l :
  well_formed s l = true ->
  heap_ok s = true /\ s_heap s <= cur_brk s /\
  cur_brk s <= s_heap s + s_heapsize s /\
  chainb s (s_head s) l = true /\
  (s_head s = 0 \/ (s_heap s <= s_tail s /\ s_tail s + HEADER <= cur_brk s)).
Proof.
  unfold well_formed. rewrite !andb_true_iff, orb_true_iff, andb_true_iff.
  intros [[[[H1 H2] H3] H4] H5].
  apply Z.leb_le in H2, H3. repeat split; try assumption.
  destruct H5 as [H5|[H5 H6]]; [left; apply Z.eqb_eq; assumption|right].
  apply Z.leb_le in H5, H6. split; assumption.
Qed.

Lemma cur_brk_same s s' :
  s_brk s' = s_brk s -> s_heap s' = s_heap s -> cur_brk s' = cur_brk s.
Proof. unfold cur_brk. intros -> ->. reflexivity. Qed.

Lemma heap_ok_same s s' :
  s_heap s' = s_heap s -> s_heapsize s' = s_heapsize s -> heap_ok s' = heap_ok s.
Proof. unfold heap_ok. intros -> ->. reflexivity. Qed.

(** [malloc] on a well-formed heap, for a request whose block size stays
    in the range of [intptr_t]: the search terminates, and the call
    returns what [served] describes. *)
Lemma malloc_on_well_formed (fuel : nat) (s : state) (l : list Z) (n : Z) :
  well_formed s l = true -> (length l < fuel)%nat -> 0 <= n <= HALF - 64 ->
  exists s' r, malloc fuel s n = Ok (s', r) /\ served s l n s' r.
Proof.
  intros Hwf Hfuel Hn. unfold served.
  apply well_formed_elim in Hwf as (Hok & Hb1 & Hb2 & Hc & Htail).
  pose proof (heap_ok_elim _ Hok) as (Hlo & Hlen & Hhi).
  pose proof (required_bounds n Hn) as [Hreq _].
  unfold malloc. fold (required n). set (req := required n) in *.
  destruct (find_block_chain l fuel s (s_head s) req ltac:(lia) Hb2 Hc Hfuel)
    as (b & Hfind & [[-> Hnofit]|(Hbnz & _ & Hblo & sz & nx & Hsz & Hnx & Hfit & Hend & Hnext & Hfree)]).
  - rewrite Hfind, obind_Ok. simpl (0 =? 0). cbv iota.
    destruct (alloc_block_ok s req Hok Hb1 Hb2 Htail ltac:(consts; lia))
      as [(Hfail & s1 & Ha & _)|(Hfit & s1 & Ha & Hsz & Hnx & Hbrk & Elo & Elen)];
      rewrite Ha, obind_Ok.
    + simpl (0 =? 0). cbv iota.
      eexists _, 0. split; [reflexivity|]. left. fields. auto.
    + assert (Hnz : cur_brk s <> 0) by lia.
      apply Z.eqb_neq in Hnz. rewrite Hnz.
      assert (Hroom : cur_brk s + Z.max req MIN_ALLOC <= s_heap s + s_heapsize s).
      { unfold extension_fails in Hfit. apply Z.ltb_ge in Hfit. lia. }
      assert (Hok1 : heap_ok s1 = true) by (rewrite (heap_ok_same s s1); assumption).
      destruct (malloc_take_ok s1 (cur_brk s) req (Z.max req MIN_ALLOC) 0
                  Hok1 ltac:(lia) Hsz Hnx ltac:(lia) ltac:(lia) ltac:(left; reflexivity))
        as (s2 & sz' & Ht & Hsz' & Hle & Hal & Elo2 & Elen2 & Ebrk2 & _).
      rewrite Ht. eexists s2, _. split; [reflexivity|]. right.
      replace (cur_brk s + HEADER - HEADER) with (cur_brk s) by lia.
      split; [consts; lia|]. exists sz'.
      assert (Ecb : cur_brk s2 = cur_brk s + Z.max req MIN_ALLOC).
      { unfold cur_brk at 1. rewrite Ebrk2, Hbrk.
        destruct (Z.eqb_spec (cur_brk s + Z.max req MIN_ALLOC) 0); [consts; lia|reflexivity]. }
      repeat split; try assumption; lia.
  - rewrite Hfind, obind_Ok.
    apply Z.eqb_neq in Hbnz. rewrite Hbnz.
    assert (Hnext' : nx = 0 \/ (b + sz <= nx /\ nx + HEADER <= s_heap s + s_heapsize s)).
    { destruct Hnext as [?|[? ?]]; [left; assumption|right; lia]. }
    destruct (malloc_take_ok s b req sz nx Hok Hblo Hsz Hnx ltac:(lia) ltac:(lia) Hnext')
      as (s2 & sz' & Ht & Hsz' & Hle & Hal & Elo2 & Elen2 & Ebrk2 & _).
    rewrite Ht. eexists s2, _. split; [reflexivity|]. right.
    replace (b + HEADER - HEADER) with b by lia.
    apply Z.eqb_neq in Hbnz.
    split; [consts; lia|]. exists sz'.
    rewrite (cur_brk_same s s2) by assumption.
    repeat split; try assumption; lia.
Qed.

(** ** Inversion of sequenced calls *)

Lemma obind_inv {A B} (c : outcome A) (k : A -> outcome B) r :
  obind c k = Ok r -> exists a, c = Ok a /\ k a = Ok r.
Proof. destruct c as [a| |]; simpl; intros H; try discriminate. eauto. Qed.

Lemma store_inv s a n v s' :
  store s a n v = Ok s' ->
  s' = set_mem s (store_le (mem s) a n v) /\
  s_heap s <= a /\ a + Z.of_nat n <= s_heap s + s_heapsize s.
Proof.
  unfold store. destruct (valid s a (Z.of_nat n)) eqn:E; [|discriminate].
  intros [= <-]. apply valid_elim in E. tauto.
Qed.

(** ** [free]: the null pointer and the invalid free *)

Lemma walk_log_stderr fuel s d b : walk fuel (log_stderr s d) b = walk fuel s b.
Proof.
  revert b. induction fuel as [|fuel IH]; intros b; [reflexivity|].
  simpl. destruct (b =? 0); [reflexivity|].
  change (get_next (log_stderr s d) b) with (get_next s b).
  destruct (get_next s b) as [nx| |]; simpl; try reflexivity.
  rewrite IH. reflexivity.
Qed.

(** C7.  [free(0)] returns and leaves the state as it is.  [free(p)] on
    a pointer whose header is not marked allocated returns too: it
    appends the diagnostic naming [p] to [stderr] and changes nothing
    else, so memory, list head and tail, break and block list are those
    of the state before the call. *)
Theorem free_null_and_invalid (s : state) (p : Z) :
  p <> 0 -> is_allocated s (wrap (p - HEADER)) = Ok false ->
  free s 0 = Ok s /\
  exists s',
    free s p = Ok s' /\
    stderr_log s' = stderr_log s ++ [InvalidFree p] /\
    mem s' = mem s /\ s_head s' = s_head s /\ s_tail s' = s_tail s /\
    s_brk s' = s_brk s /\ s_heap s' = s_heap s /\ s_heapsize s' = s_heapsize s /\
    errno s' = errno s /\
    forall fuel, block_list fuel s' = block_list fuel s.
Proof.
  intros Hp Hfree. split; [reflexivity|].
  exists (log_stderr s (InvalidFree p)).
  unfold free. apply Z.eqb_neq in Hp. rewrite Hp, Hfree, obind_Ok. simpl negb.
  repeat split. intros fuel. unfold block_list. apply walk_log_stderr.
Qed.

(** ** [calloc] *)

Lemma memset_zero_filled s p n :
  0 <= n -> (n =? 0) || valid s p n = true ->
  exists s', memset s p 0 n = Ok s' /\ zero_filled s s' p n.
Proof.
  intros Hn Hv. unfold memset, zero_filled.
  destruct (Z.eqb_spec n 0) as [->|Hnz].
  - exists s. split; [reflexivity|]. split; [destruct s; reflexivity|].
    intros x. destruct (Z.leb_spec p x), (Z.ltb_spec x (p + 0)); simpl; try reflexivity; lia.
  - simpl in Hv. rewrite Hv. eexists. split; [reflexivity|]. fields.
    split; [destruct s; reflexivity|].
    intros x. rewrite byte_at_fill, Z2Nat.id by lia. reflexivity.
Qed.

(** C9.  [calloc(nmemb, size)] is [malloc] of the product taken modulo
    2^64, followed, when the pointer is not null, by zeroing that many
    bytes at the pointer; the pointer returned is the one [malloc]
    returned.  When the bytes to zero leave the reserved region the
    process faults. *)
Theorem calloc_is_malloc_then_zero (fuel : nat) (s : state) (nmemb size : Z) :
  let n := (nmemb * size) mod WORD in
  match malloc fuel s n with
  | Ok (s1, buf) =>
      if buf =? 0 then calloc fuel s nmemb size = Ok (s1, 0)
      else if (n =? 0) || valid s1 buf n then
        exists s', calloc fuel s nmemb size = Ok (s', buf) /\ zero_filled s1 s' buf n
      else calloc fuel s nmemb size = Fault
  | Fault => calloc fuel s nmemb size = Fault
  | Timeout => calloc fuel s nmemb size = Timeout
  end.
Proof.
  intros n. unfold calloc. fold (wrap (nmemb * size)). change (wrap (nmemb * size)) with n.
  destruct (malloc fuel s n) as [[s1 buf]| |]; try reflexivity.
  rewrite obind_Ok. destruct (Z.eqb_spec buf 0) as [->|Hnz]; [reflexivity|].
  simpl negb. cbv iota.
  assert (Hn : 0 <= n) by (unfold n, WORD; apply Z.mod_pos_bound; lia).
  destruct ((n =? 0) || valid s1 buf n) eqn:Hv.
  - destruct (memset_zero_filled s1 buf n Hn Hv) as (s' & Hm & Hz).
    exists s'. rewrite Hm. split; [reflexivity|exact Hz].
  - apply orb_false_iff in Hv as [Hv1 Hv2]. unfold memset. rewrite Hv1, Hv2. reflexivity.
Qed.

(** The product is not checked for overflow: 2^32 elements of 2^32
    bytes are served as a request for 0 bytes. *)
Example calloc_product_wraps :
  calloc 1 empty_heap 4294967296 4294967296 = malloc 1 empty_heap 0.
Proof. vm_compute. reflexivity. Qed.

(** ** What a returning [malloc] has done *)

Ltac inv_step :=
  match goal with
  | H : obind _ _ = Ok _ |- _ =>
      let a := fresh "v" in
      let E := fresh "E" in
      apply obind_inv in H as (a & E & H)
  | H : store _ _ _ _ = Ok ?s' |- _ =>
      apply store_inv in H as (? & ? & ?); subst s'
  | H : Ok _ = Ok _ |- _ => injection H as H
  end.

Ltac inv_all :=
  repeat first
    [ inv_step
    | match goal with
      | H : (if ?c then _ else _) = Ok _ |- _ => destruct c eqn:?
      end ].

Ltac unfold_fields :=
  unfold get_size, get_next, get_prev, get_flags,
         put_size, put_next, put_prev, put_flags in *.

Lemma split_region s b req s' :
  split_block_if_necessary s b req = Ok s' ->
  s_heap s' = s_heap s /\ s_heapsize s' = s_heapsize s.
Proof.
  unfold split_block_if_necessary. unfold_fields. intros H.
  inv_all; subst; fields; split; reflexivity.
Qed.

Lemma malloc_take_inv s b req s1 r :
  heap_ok s = true -> malloc_take s b req = Ok (s1, r) ->
  r = b + HEADER /\ r <> 0.
Proof.
  intros Hok H. apply heap_ok_elim in Hok as (Hlo & Hlen & Hhi).
  unfold malloc_take in H. inv_step. inv_step. inv_step.
  destruct (split_region _ _ _ _ E) as [Elo Elen].
  unfold_fields. apply load_inv in E0 as (_ & Hf1 & Hf2).
  injection H as _ <-. rewrite Elo, Elen in *.
  rewrite wrap_small by (consts; simpl Z.of_nat in *; lia).
  split; [reflexivity|]. consts. simpl Z.of_nat in *. lia.
Qed.

Lemma find_block_inv fuel : forall s h req b,
  find_block fuel s h req = Ok b -> b <> 0 -> is_allocated s b = Ok false.
Proof.
  induction fuel as [|fuel IH]; intros s h req b H Hb; [discriminate|].
  simpl in H. destruct (h =? 0); [injection H as <-; contradiction|].
  inv_step. destruct (req <=? v).
  - inv_step. destruct v0; simpl in H.
    + inv_step. eapply IH; eassumption.
    + injection H as <-. exact E0.
  - inv_step. eapply IH; eassumption.
Qed.

Lemma cur_brk_nonzero s : s_heap s <> 0 -> cur_brk s <> 0.
Proof.
  unfold cur_brk. destruct (Z.eqb_spec (s_brk s) 0); intros; assumption.
Qed.

Lemma alloc_block_inv s req s' blk :
  alloc_block s req = Ok (s', blk) ->
  s_heap s' = s_heap s /\ s_heapsize s' = s_heapsize s /\
  ((blk = 0 /\ mem s' = mem s /\ s_head s' = s_head s /\ s_tail s' = s_tail s /\
    stderr_log s' = stderr_log s) \/
   blk = cur_brk s).
Proof.
  unfold alloc_block, sbrk, cur_brk. unfold_fields. intros H.
  destruct (s_brk s =? 0); fields;
    match type of H with
    | context [if ?c then (set_errno _ _, _) else _] => destruct c
    end;
    try (rewrite Z.eqb_refl in H; injection H as <- <-; fields;
         split; [reflexivity|split; [reflexivity|left; repeat split; reflexivity]]);
    match type of H with
    | context [if ?c then Ok (_, 0) else _] => destruct c
    end;
    try (injection H as <- <-; fields;
         split; [reflexivity|split; [reflexivity|left; repeat split; reflexivity]]);
    fields; inv_step; inv_step;
    match type of E0 with
    | context [if ?c then _ else _] => destruct c
    end;
    repeat inv_step; subst; fields;
    (split; [reflexivity|split; [reflexivity|right; reflexivity]]).
Qed.

Lemma malloc_inv fuel s n s1 buf :
  heap_ok s = true -> malloc fuel s n = Ok (s1, buf) ->
  (buf = 0 /\ errno s1 = ENOMEM /\ mem s1 = mem s /\
   s_head s1 = s_head s /\ s_tail s1 = s_tail s /\
   s_heap s1 = s_heap s /\ s_heapsize s1 = s_heapsize s /\
   stderr_log s1 = stderr_log s) \/
  (buf <> 0 /\ exists b, buf = b + HEADER /\ (is_allocated s b = Ok false \/ b = cur_brk s)).
Proof.
  intros Hok H. unfold malloc in H. inv_step.
  destruct (Z.eqb_spec v 0) as [->|Hnz].
  - inv_step. destruct v as [s' blk].
    destruct (alloc_block_inv _ _ _ _ E0) as (Elo & Elen & Hcase).
    destruct (Z.eqb_spec blk 0) as [->|Hbnz].
    + injection H as <- <-. left. fields.
      destruct Hcase as [(_ & Em & Eh & Et & Elog)|Hcur].
      * repeat split; assumption.
      * exfalso. symmetry in Hcur. revert Hcur. apply cur_brk_nonzero.
        apply heap_ok_elim in Hok. lia.
    + right. destruct Hcase as [(? & _)|Hcur]; [contradiction|].
      assert (Hok' : heap_ok s' = true) by (rewrite (heap_ok_same s s'); assumption).
      destruct (malloc_take_inv _ _ _ _ _ Hok' H) as [-> Hr].
      split; [exact Hr|]. exists blk. split; [reflexivity|right; exact Hcur].
  - right. destruct (malloc_take_inv _ _ _ _ _ Hok H) as [-> Hr].
    split; [exact Hr|]. exists v. split; [reflexivity|left].
    eapply find_block_inv; eassumption.
Qed.

(** ** [realloc] *)

Lemma load_same_mem s s' a n :
  mem s' = mem s -> s_heap s' = s_heap s -> s_heapsize s' = s_heapsize s ->
  load s' a n = load s a n.
Proof. unfold load, valid. intros -> -> ->. reflexivity. Qed.

Lemma walk_same_mem fuel s s' :
  mem s' = mem s -> s_heap s' = s_heap s -> s_heapsize s' = s_heapsize s ->
  forall b, walk fuel s' b = walk fuel s b.
Proof.
  intros Em Elo Elen. induction fuel as [|fuel IH]; intros b; [reflexivity|].
  simpl. destruct (b =? 0); [reflexivity|].
  unfold get_next. rewrite (load_same_mem s s') by assumption.
  destruct (load s (b + OFF_NEXT) 8) as [nx| |]; simpl; try reflexivity.
  rewrite IH. reflexivity.
Qed.

Lemma block_header_address s p a :
  heap_ok s = true -> is_allocated s (p - HEADER) = Ok a ->
  wrap (p - HEADER) = p - HEADER /\ p <> 0.
Proof.
  intros Hok H. apply heap_ok_elim in Hok as (Hlo & Hlen & Hhi).
  unfold is_allocated in H. inv_step. unfold_fields.
  apply load_inv in E as (_ & H1 & H2). simpl Z.of_nat in *.
  split; [apply wrap_small|]; consts; lia.
Qed.

(** C10.  When the [malloc] inside [realloc(p, n)] returns the null
    pointer, [realloc] returns the null pointer in the state [malloc]
    left: [errno] is [ENOMEM], and memory, list head and tail are those
    before the call, so the block of [p] is still marked allocated, its
    bytes are in place and the block list is the same. *)
Theorem realloc_failure_keeps_block (fuel : nat) (s s1 : state) (p n : Z) :
  heap_ok s = true ->
  is_allocated s (p - HEADER) = Ok true ->
  0 < n ->
  malloc fuel s n = Ok (s1, 0) ->
  realloc fuel s p n = Ok (s1, 0) /\
  errno s1 = ENOMEM /\
  mem s1 = mem s /\ s_head s1 = s_head s /\ s_tail s1 = s_tail s /\
  is_allocated s1 (p - HEADER) = Ok true /\
  forall fuel', block_list fuel' s1 = block_list fuel' s.
Proof.
  intros Hok Hp Hn Hm.
  destruct (block_header_address _ _ _ Hok Hp) as [_ Hpnz].
  destruct (malloc_inv _ _ _ _ _ Hok Hm)
    as [(_ & Herr & Em & Eh & Et & Elo & Elen & _)|[Hcontra _]]; [|contradiction].
  split.
  - unfold realloc. apply Z.eqb_neq in Hpnz. rewrite Hpnz.
    destruct (Z.eqb_spec n 0); [lia|]. rewrite Hm, obind_Ok. reflexivity.
  - repeat split; try assumption.
    + unfold is_allocated, get_flags in *.
      rewrite (load_same_mem s s1) by assumption. exact Hp.
    + intros fuel'. unfold block_list. rewrite Eh. apply walk_same_mem; assumption.
Qed.

Lemma memcpy_copied s dst src n :
  0 <= n -> valid s src n = true -> valid s dst n = true ->
  exists s', memcpy s dst src n = Ok s' /\ copied s s' dst src n.
Proof.
  intros Hn Hs Hd. unfold memcpy, copied.
  destruct (Z.eqb_spec n 0) as [->|Hnz].
  - exists s. split; [reflexivity|]. split; [destruct s; reflexivity|].
    split; [intros; lia|reflexivity].
  - rewrite Hs, Hd. eexists. split; [reflexivity|]. fields.
    split; [destruct s; reflexivity|]. split.
    + intros i Hi. apply byte_at_write_read. lia.
    + intros x Hx. apply byte_at_write_bytes_out.
      rewrite length_read_bytes, Z2Nat.id by lia. exact Hx.
Qed.

(** The steps of [realloc].  [realloc(0, n)] is [malloc(n)].
    [realloc(p, 0)] for a non-null
    [p] is [free(p)] followed by the return of the null pointer.  For
    an allocated block [p] and [n > 0], when [malloc(n)] returns a
    non-null [buf]: [buf] is not [p] (the block is never grown in
    place), the first [min(old size - header, n)] bytes at [p] are
    copied to [buf], and the call ends as [free(p)] in the state after
    the copy, returning [buf]. *)
Lemma realloc_steps (fuel : nat) (s s1 : state) (p n buf sz : Z) :
  heap_ok s = true ->
  is_allocated s (p - HEADER) = Ok true -> p <= cur_brk s ->
  0 < n ->
  malloc fuel s n = Ok (s1, buf) -> buf <> 0 ->
  get_size s1 (p - HEADER) = Ok sz ->
  let k := Z.min (wrap (sz - HEADER)) n in
  valid s1 p k = true -> valid s1 buf k = true ->
  (forall m, realloc fuel s 0 m = malloc fuel s m) /\
  (forall q, q <> 0 -> realloc fuel s q 0 = (let* s' := free s q in Ok (s', 0))) /\
  buf <> p /\
  exists s2,
    copied s1 s2 buf p k /\
    realloc fuel s p n = (let* s3 := free s2 p in Ok (s3, buf)).
Proof.
  intros Hok Hp Hbrk Hn Hm Hbuf Hsz k Hvs Hvd.
  destruct (block_header_address _ _ _ Hok Hp) as [Ew Hpnz].
  pose proof Hpnz as Hpb. apply Z.eqb_neq in Hpb.
  split; [reflexivity|]. split.
  { intros q Hq. unfold realloc. apply Z.eqb_neq in Hq. rewrite Hq. reflexivity. }
  split.
  { destruct (malloc_inv _ _ _ _ _ Hok Hm) as [[? _]|(_ & b & -> & Hb)]; [contradiction|].
    intros Heq. assert (b = p - HEADER) by lia. subst b.
    destruct Hb as [Hb|Hb]; [congruence|]. consts. lia. }
  assert (Hk : 0 <= k).
  { unfold k. pose proof (wrap_range (sz - HEADER)). lia. }
  destruct (memcpy_copied s1 buf p k Hk Hvs Hvd) as (s2 & Hcp & Hcopied).
  exists s2. split; [exact Hcopied|].
  unfold realloc. rewrite Hpb.
  destruct (Z.eqb_spec n 0); [lia|]. rewrite Hm, obind_Ok.
  apply Z.eqb_neq in Hbuf. rewrite Hbuf. rewrite Ew, Hsz, obind_Ok.
  assert (Ek : (if n <? wrap (sz - HEADER) then n else wrap (sz - HEADER)) = k).
  { unfold k. destruct (Z.ltb_spec n (wrap (sz - HEADER))); lia. }
  rewrite Ek, Hcp, obind_Ok. reflexivity.
Qed.

(** ** The block list under the writes of [malloc] *)

Lemma chainb_cons_intro s b sz nx l :
  s_heap s <= b -> get_size s b = Ok sz -> get_next s b = Ok nx ->
  HEADER <= sz -> b + sz <= cur_brk s -> (nx = 0 \/ b + sz <= nx) ->
  chainb s nx l = true -> chainb s b (b :: l) = true.
Proof.
  intros Hlo Hsz Hnx Hmin Hend Hord Hrest. simpl. rewrite Hsz, Hnx, Hrest.
  rewrite Z.eqb_refl. rewrite !andb_true_iff, orb_true_iff.
  repeat split; try (apply Z.leb_le; assumption).
  destruct Hord; [left; apply Z.eqb_eq|right; apply Z.leb_le]; assumption.
Qed.

Lemma chainb_elem s l : forall b x,
  0 < s_heap s -> chainb s b l = true -> x ∈ l ->
  b <= x /\ s_heap s <= x /\
  exists sz nx,
    get_size s x = Ok sz /\ get_next s x = Ok nx /\ HEADER <= sz /\
    x + sz <= cur_brk s /\ (nx = 0 \/ (x + sz <= nx /\ nx ∈ l)).
Proof.
  induction l as [|y l IH]; intros b x Hpos Hc Hin; [inversion Hin|].
  apply chainb_cons_elim in Hc as (-> & Hlo & sz & nx & Hsz & Hnx & Hmin & Hend & Hord & Hrest).
  assert (Hnxl : nx = 0 \/ (y + sz <= nx /\ nx ∈ l)).
  { destruct (Z.eq_dec nx 0) as [?|Hnz]; [left; assumption|right].
    destruct Hord as [?|?]; [contradiction|]. split; [assumption|].
    destruct l as [|z l]; [apply chainb_nil_elim in Hrest; contradiction|].
    apply chainb_cons_elim in Hrest as (-> & _). left. }
  apply elem_of_cons in Hin as [->|Hin].
  - split; [lia|]. split; [assumption|]. exists sz, nx.
    repeat split; try assumption.
    destruct Hnxl as [?|[? ?]]; [left; assumption|right; split; [assumption|right; assumption]].
  - destruct Hnxl as [->|[Hge _]].
    { destruct l as [|z l]; [inversion Hin|].
      apply chainb_cons_elim in Hrest as (<- & Hz & _). lia. }
    destruct (IH nx x Hpos Hrest Hin) as (Hle & Hxlo & sz' & nx' & H1 & H2 & H3 & H4 & H5).
    split; [consts; lia|]. split; [assumption|]. exists sz', nx'.
    repeat split; try assumption.
    destruct H5 as [?|[? ?]]; [left; assumption|right; split; [assumption|right; assumption]].
Qed.

Lemma chainb_after_head s b l x sz :
  0 < s_heap s -> chainb s b (b :: l) = true -> get_size s b = Ok sz ->
  x ∈ l -> b + sz <= x.
Proof.
  intros Hpos Hc Hsz Hin.
  apply chainb_cons_elim in Hc as (_ & Hlo & sz' & nx & Hsz' & Hnx & Hmin & Hend & Hord & Hrest).
  assert (sz' = sz) by congruence. subst sz'.
  destruct (chainb_elem s l nx x Hpos Hrest Hin) as (Hle & _).
  destruct Hord as [->|?]; [|lia].
  destruct l as [|z l]; [inversion Hin|].
  apply chainb_cons_elim in Hrest as (<- & Hz & _). lia.
Qed.

Lemma chainb_separated s l : forall b x t szx szt,
  0 < s_heap s -> chainb s b l = true -> x ∈ l -> t ∈ l -> x <> t ->
  get_size s x = Ok szx -> get_size s t = Ok szt ->
  x + szx <= t \/ t + szt <= x.
Proof.
  induction l as [|y l IH]; intros b x t szx szt Hpos Hc Hx Ht Hne Hszx Hszt;
    [inversion Hx|].
  pose proof Hc as Hc'.
  apply chainb_cons_elim in Hc' as (-> & _ & _ & nx & _ & _ & _ & _ & _ & Hrest).
  apply elem_of_cons in Hx as [->|Hx]; apply elem_of_cons in Ht as [->|Ht].
  - contradiction.
  - left. eapply chainb_after_head; eassumption.
  - right. eapply chainb_after_head; eassumption.
  - eapply IH; eassumption.
Qed.

Lemma chainb_frame s s' l : forall b,
  s_heap s' = s_heap s -> cur_brk s <= cur_brk s' ->
  (forall x, x ∈ l -> get_size s' x = get_size s x /\ get_next s' x = get_next s x) ->
  chainb s b l = true -> chainb s' b l = true.
Proof.
  induction l as [|y l IH]; intros b Elo Hbrk Hframe Hc; [exact Hc|].
  apply chainb_cons_elim in Hc as (-> & Hlo & sz & nx & Hsz & Hnx & Hmin & Hend & Hord & Hrest).
  destruct (Hframe y ltac:(left)) as [E1 E2].
  apply (chainb_cons_intro s' y sz nx); try congruence; try lia; try assumption.
  apply IH; try assumption. intros x Hx. apply Hframe. right. exact Hx.
Qed.

Lemma elem_of_insert_after t e l x : x ∈ l -> x ∈ insert_after t e l.
Proof.
  induction l as [|y l IH]; intros Hin; [inversion Hin|]. simpl.
  destruct (y =? t); apply elem_of_cons in Hin as [->|Hin].
  - left.
  - right. right. exact Hin.
  - left.
  - right. apply IH. exact Hin.
Qed.

Lemma elem_of_insert_after_new t e l : t ∈ l -> e ∈ insert_after t e l.
Proof.
  induction l as [|y l IH]; intros Hin; [inversion Hin|]. simpl.
  destruct (Z.eqb_spec y t) as [->|Hne].
  - right. left.
  - apply elem_of_cons in Hin as [->|Hin]; [contradiction|]. right. apply IH. exact Hin.
Qed.

Lemma length_insert_after t e l : (length (insert_after t e l) <= S (length l))%nat.
Proof.
  induction l as [|y l IH]; simpl; [lia|]. destruct (y =? t); simpl; lia.
Qed.

Lemma chainb_insert_after s s' l : forall b t sz nx req,
  0 < s_heap s -> chainb s b l = true -> t ∈ l ->
  get_size s t = Ok sz -> get_next s t = Ok nx ->
  s_heap s' = s_heap s -> cur_brk s' = cur_brk s ->
  HEADER <= req -> HEADER <= sz - req ->
  get_size s' t = Ok req -> get_next s' t = Ok (t + req) ->
  get_size s' (t + req) = Ok (sz - req) -> get_next s' (t + req) = Ok nx ->
  (forall x, x ∈ l -> x <> t ->
     get_size s' x = get_size s x /\ get_next s' x = get_next s x) ->
  chainb s' b (insert_after t (t + req) l) = true.
Proof.
  induction l as [|y l IH];
    intros b t sz nx req Hpos Hc Ht Hsz Hnx Elo Ebrk Hreq Hrest Hs1 Hn1 Hs2 Hn2 Hframe;
    [inversion Ht|].
  pose proof Hc as Hc'.
  apply chainb_cons_elim in Hc' as (-> & Hlo & szy & nxy & Hszy & Hnxy & Hmin & Hend & Hord & Hc').
  simpl. destruct (Z.eqb_spec y t) as [->|Hne].
  - assert (szy = sz) by congruence. assert (nxy = nx) by congruence. subst szy nxy.
    apply (chainb_cons_intro s' t req (t + req)); try assumption; try (consts; lia).
    apply (chainb_cons_intro s' (t + req) (sz - req) nx); try assumption; try (consts; lia).
    apply (chainb_frame s s'); try assumption; try (consts; lia).
    intros x Hx. apply Hframe; [right; exact Hx|].
    pose proof (chainb_after_head s t l x sz Hpos Hc Hsz Hx). consts. lia.
  - apply elem_of_cons in Ht as [->|Ht]; [contradiction|].
    destruct (Hframe y ltac:(left) Hne) as [E1 E2].
    apply (chainb_cons_intro s' y szy nxy); try congruence; try (consts; lia).
    apply (IH nxy t sz nx req); try assumption.
    intros x Hx Hxt. apply Hframe; [right; exact Hx|exact Hxt].
Qed.

Lemma chainb_append s s' l : forall b tl blk bs sz,
  0 < s_heap s -> chainb s b l = true -> tl ∈ l ->
  get_size s tl = Ok sz -> get_next s tl = Ok 0 ->
  s_heap s' = s_heap s -> blk = cur_brk s -> cur_brk s' = blk + bs ->
  HEADER <= bs ->
  get_size s' tl = Ok sz -> get_next s' tl = Ok blk ->
  get_size s' blk = Ok bs -> get_next s' blk = Ok 0 ->
  (forall x, x ∈ l -> x <> tl ->
     get_size s' x = get_size s x /\ get_next s' x = get_next s x) ->
  chainb s' b (l ++ [blk]) = true.
Proof.
  induction l as [|y l IH];
    intros b tl blk bs sz Hpos Hc Ht Hsz Hnx Elo Eblk Ebrk Hbs Hs1 Hn1 Hs2 Hn2 Hframe;
    [inversion Ht|].
  pose proof Hc as Hc'.
  apply chainb_cons_elim in Hc' as (-> & Hlo & szy & nxy & Hszy & Hnxy & Hmin & Hend & Hord & Hc').
  simpl app. destruct (Z.eq_dec y tl) as [->|Hne].
  - assert (szy = sz) by congruence. assert (nxy = 0) by congruence. subst szy nxy.
    assert (l = []).
    { destruct l as [|z l]; [reflexivity|].
      apply chainb_cons_elim in Hc' as (<- & Hz & _). lia. }
    subst l. simpl app.
    apply (chainb_cons_intro s' tl sz blk); try assumption; try (consts; lia).
    apply (chainb_cons_intro s' blk bs 0); try assumption; try (consts; lia);
      reflexivity.
  - apply elem_of_cons in Ht as [->|Ht]; [contradiction|].
    destruct (Hframe y ltac:(left) Hne) as [E1 E2].
    apply (chainb_cons_intro s' y szy nxy); try congruence; try (consts; lia).
    apply (IH nxy tl blk bs sz); try assumption.
    intros x Hx Hxt. apply Hframe; [right; exact Hx|exact Hxt].
Qed.

Ltac read_back :=
  rewrite load_ok by in_heap; fields; frame;
  try (change (256 ^ Z.of_nat 8) with WORD; f_equal; apply wrap_small; consts; lia);
  try congruence.

Ltac same_load :=
  let a := fresh "a" in
  let k := fresh "k" in
  intros a k ? ?; unfold load, valid; fields; frame; reflexivity.

Lemma malloc_take_effect s b req sz nx :
  heap_ok s = true -> s_heap s <= b ->
  get_size s b = Ok sz -> get_next s b = Ok nx ->
  HEADER <= req <= sz -> b + sz <= s_heap s + s_heapsize s ->
  (nx = 0 \/ (b + sz <= nx /\ nx + HEADER <= s_heap s + s_heapsize s)) ->
  exists s',
    malloc_take s b req = Ok (s', b + HEADER) /\
    s_heap s' = s_heap s /\ s_heapsize s' = s_heapsize s /\
    s_brk s' = s_brk s /\ s_head s' = s_head s /\
    (forall a k,
       a + Z.of_nat k <= b + 8 \/ b + sz <= a ->
       nx = 0 \/ a + Z.of_nat k <= nx \/ nx + 8 <= a ->
       load s' a k = load s a k) /\
    ((sz - req <= HEADER /\ get_size s' b = Ok sz /\ get_next s' b = Ok nx /\
      s_tail s' = s_tail s) \/
     (HEADER < sz - req /\ get_size s' b = Ok req /\ get_next s' b = Ok (b + req) /\
      get_size s' (b + req) = Ok (sz - req) /\ get_next s' (b + req) = Ok nx /\
      s_tail s' = if nx =? 0 then b + req else s_tail s)).
Proof.
  intros Hok Hb Hsz Hnx Hreq Hend Hn.
  apply heap_ok_elim in Hok. destruct Hok as (Hlo & Hlen & Hhi).
  pose proof (load8_bound _ _ _ Hsz) as Hszr.
  pose proof (load8_bound _ _ _ Hnx) as Hnxr.
  unfold get_size in Hsz. apply load_inv in Hsz as (Esz & _).
  unfold get_next in Hnx. apply load_inv in Hnx as (Enx & _).
  unfold malloc_take, split_block_if_necessary, is_allocated,
    get_size, get_next, get_flags, put_size, put_next, put_prev, put_flags.
  do_load. rewrite <- Esz.
  assert (Ew : wrap (sz - req) = sz - req) by (apply wrap_small; consts; lia).
  assert (Ep : wrap (b + HEADER) = b + HEADER) by (apply wrap_small; consts; lia).
  rewrite Ew, Ep.
  destruct (Z.leb_spec (sz - req) HEADER) as [Hsmall|Hbig].
  - rewrite obind_Ok. do_load. do_store.
    eexists. split; [reflexivity|]. fields.
    do 4 (split; [reflexivity|]). split; [same_load|].
    left. split; [assumption|]. split; [read_back|]. split; [read_back|reflexivity].
  - assert (Ee : wrap (b + req) = b + req) by (apply wrap_small; consts; lia).
    rewrite Ee.
    do_store. do_store. do_store. do_load. frame. rewrite <- Enx.
    do_store. do_store. do_load. frame. rewrite <- Enx.
    destruct (Z.eqb_spec nx 0) as [Hz|Hnz]; simpl negb; cbv iota.
    + rewrite obind_Ok. fields. do_store. do_load. do_store.
      eexists. split; [reflexivity|]. fields.
      do 4 (split; [reflexivity|]). split; [same_load|].
      right. split; [assumption|].
      split; [read_back|]. split; [read_back|]. split; [read_back|].
      split; [read_back|reflexivity].
    + destruct Hn as [?|[Hn1 Hn2]]; [lia|].
      do_store. do_store. do_load. do_store.
      eexists. split; [reflexivity|]. fields.
      do 4 (split; [reflexivity|]). split; [same_load|].
      right. split; [assumption|].
      split; [read_back|]. split; [read_back|]. split; [read_back|].
      split; [read_back|reflexivity].
Qed.

Lemma alloc_block_effect s req :
  heap_ok s = true ->
  s_heap s <= cur_brk s -> cur_brk s <= s_heap s + s_heapsize s ->
  (s_head s = 0 \/ (s_heap s <= s_tail s /\ s_tail s + HEADER <= cur_brk s)) ->
  HEADER <= req < HALF ->
  extension_fails s req = false ->
  exists s',
    alloc_block s req = Ok (s', cur_brk s) /\
    s_heap s' = s_heap s /\ s_heapsize s' = s_heapsize s /\
    s_brk s' = cur_brk s + Z.max req MIN_ALLOC /\
    s_tail s' = cur_brk s /\
    s_head s' = (if s_head s =? 0 then cur_brk s else s_head s) /\
    get_size s' (cur_brk s) = Ok (Z.max req MIN_ALLOC) /\
    get_next s' (cur_brk s) = Ok 0 /\
    (s_head s = 0 \/ get_next s' (s_tail s) = Ok (cur_brk s)) /\
    (forall a k,
       a + Z.of_nat k <= cur_brk s ->
       s_head s = 0 \/ a + Z.of_nat k <= s_tail s + 8 \/ s_tail s + 16 <= a ->
       load s' a k = load s a k).
Proof.
  intros Hok Hb1 Hb2 Htail Hreq Hfit.
  apply heap_ok_elim in Hok. destruct Hok as (Hlo & Hlen & Hhi).
  unfold alloc_block. unfold extension_fails in Hfit. apply Z.ltb_ge in Hfit.
  assert (Ebs : (if req <? MIN_ALLOC then MIN_ALLOC else req) = Z.max req MIN_ALLOC).
  { destruct (Z.ltb_spec req MIN_ALLOC); lia. }
  rewrite Ebs. set (bs := Z.max req MIN_ALLOC) in *.
  assert (Hbs : MIN_ALLOC <= bs < HALF) by (unfold bs; consts; lia).
  rewrite to_signed_small by (consts; lia).
  rewrite sbrk_spec by lia. cbv zeta.
  set (s1 := if s_brk s =? 0 then set_brk s (s_heap s) else s).
  assert (Hs1 : mem s1 = mem s /\ s_head s1 = s_head s /\ s_tail s1 = s_tail s /\
                s_heap s1 = s_heap s /\ s_heapsize s1 = s_heapsize s).
  { unfold s1. destruct (s_brk s =? 0); repeat split; reflexivity. }
  destruct Hs1 as (Em & Eh & Et & Elo & Esz). clearbody s1.
  destruct (Z.ltb_spec (s_heapsize s - (cur_brk s - s_heap s)) bs) as [Hfail|_]; [lia|].
  assert (Hne : (cur_brk s =? wrap (-1)) = false).
  { apply Z.eqb_neq. change (wrap (-1)) with (WORD - 1). consts. lia. }
  rewrite Hne. rewrite (wrap_small (cur_brk s + bs)) by (consts; lia).
  unfold put_next, put_prev, put_size, put_flags, get_size, get_next.
  do_store. rewrite Eh.
  destruct (Z.eqb_spec (s_head s) 0) as [Hz|Hnz].
  - do_store. do_store. do_store.
    eexists. split; [reflexivity|]. fields.
    do 5 (split; [congruence|]).
    split; [read_back|]. split; [read_back|]. split; [left; exact Hz|].
    intros a k Ha _. unfold load, valid. fields. rewrite Em, Elo, Esz. frame. reflexivity.
  - destruct Htail as [?|[Ht1 Ht2]]; [contradiction|].
    rewrite Et. do_store. do_store. rewrite obind_Ok. fields.
    do_store. do_store.
    eexists. split; [reflexivity|]. fields.
    do 5 (split; [congruence|]).
    split; [read_back|]. split; [read_back|]. split.
    + right. read_back.
    + intros a k Ha [?|Hd]; [contradiction|].
      unfold load, valid. fields. rewrite Em, Elo, Esz. frame. reflexivity.
Qed.

Lemma well_formed_intro s l :
  heap_ok s = true -> s_heap s <= cur_brk s ->
  cur_brk s <= s_heap s + s_heapsize s ->
  chainb s (s_head s) l = true ->
  (s_head s = 0 \/ (s_heap s <= s_tail s /\ s_tail s + HEADER <= cur_brk s)) ->
  well_formed s l = true.
Proof.
  intros H1 H2 H3 H4 H5. unfold well_formed.
  rewrite H1, H4. rewrite !andb_true_iff, orb_true_iff, andb_true_iff.
  repeat split; try (apply Z.leb_le; assumption).
  destruct H5 as [H5|[H5 H6]]; [left; apply Z.eqb_eq; assumption|right].
  split; apply Z.leb_le; assumption.
Qed.

Lemma chainb_nonempty_head s b l x :
  0 < s_heap s -> chainb s b l = true -> x ∈ l -> b <> 0.
Proof.
  intros Hpos Hc Hin. destruct l as [|y l]; [inversion Hin|].
  apply chainb_cons_elim in Hc as (-> & Hlo & _). lia.
Qed.

Lemma chainb_empty_head s l : 0 < s_heap s -> chainb s 0 l = true -> l = [].
Proof.
  intros Hpos Hc. destruct l as [|y l]; [reflexivity|].
  apply chainb_cons_elim in Hc as (<- & Hlo & _). lia.
Qed.

(** Taking a block of a linked list leaves a linked list. *)
Lemma malloc_take_linked s l b req sz nx :
  linked s l -> b ∈ l ->
  get_size s b = Ok sz -> get_next s b = Ok nx -> HEADER <= req <= sz ->
  exists s' l',
    malloc_take s b req = Ok (s', b + HEADER) /\ linked s' l' /\
    (length l' <= S (length l))%nat.
Proof.
  intros [Hwf Htl] Hb Hsz Hnx Hreq.
  apply well_formed_elim in Hwf as (Hok & Hb1 & Hb2 & Hc & Htail).
  pose proof (heap_ok_elim _ Hok) as (Hlo & Hlen & Hhi).
  assert (Hpos : 0 < s_heap s) by lia.
  destruct (chainb_elem s l _ b Hpos Hc Hb)
    as (_ & Hblo & sz' & nx' & Hsz' & Hnx' & Hmin & Hend & Hord).
  assert (sz' = sz) by congruence. assert (nx' = nx) by congruence. subst sz' nx'.
  assert (Hhead : s_head s <> 0) by (eapply chainb_nonempty_head; eassumption).
  destruct Htl as [?|[Htin Htnx]]; [contradiction|].
  assert (Hn : nx = 0 \/ (b + sz <= nx /\ nx + HEADER <= s_heap s + s_heapsize s)).
  { destruct Hord as [?|[Hge Hin]]; [left; assumption|right]. split; [assumption|].
    destruct (chainb_elem s l _ nx Hpos Hc Hin) as (_ & _ & ? & ? & _ & _ & ? & ? & _).
    lia. }
  destruct (malloc_take_effect s b req sz nx Hok Hblo Hsz Hnx Hreq ltac:(lia) Hn)
    as (s' & Ht & Elo & Elen & Ebrk & Ehead & Hframe & Hcase).
  assert (Ecb : cur_brk s' = cur_brk s) by (apply cur_brk_same; assumption).
  assert (Hok' : heap_ok s' = true) by (rewrite (heap_ok_same s s'); assumption).
  assert (Hothers : forall x, x ∈ l -> x <> b ->
            get_size s' x = get_size s x /\ get_next s' x = get_next s x).
  { intros x Hx Hxb.
    destruct (chainb_elem s l _ x Hpos Hc Hx) as (_ & _ & szx & nxx & Hszx & _ & Hminx & _).
    pose proof (chainb_separated s l _ x b szx sz Hpos Hc Hx Hb Hxb Hszx Hsz) as Hsep.
    assert (Hsepn : nx = 0 \/ x = nx \/ x + szx <= nx \/ nx + HEADER <= x).
    { destruct Hord as [?|[_ Hin]]; [left; assumption|right].
      destruct (Z.eq_dec x nx) as [?|Hne]; [left; assumption|right].
      destruct (chainb_elem s l _ nx Hpos Hc Hin) as (_ & _ & szn & ? & Hszn & _ & ? & _).
      pose proof (chainb_separated s l _ x nx szx szn Hpos Hc Hx Hin Hne Hszx Hszn).
      lia. }
    unfold get_size, get_next.
    split; apply Hframe; consts; simpl Z.of_nat; lia. }
  destruct Hcase as [(Hsmall & Hs1 & Hn1 & Etail)|(Hbig & Hs1 & Hn1 & Hs2 & Hn2 & Etail)].
  - exists s', l. split; [exact Ht|]. split; [|lia].
    assert (Hall : forall x, x ∈ l ->
              get_size s' x = get_size s x /\ get_next s' x = get_next s x).
    { intros x Hx. destruct (Z.eq_dec x b) as [->|Hne]; [split; congruence|].
      apply Hothers; assumption. }
    split.
    + apply well_formed_intro; [exact Hok'|lia|lia| |].
      * rewrite Ehead. apply (chainb_frame s s'); try assumption. lia.
      * right. rewrite Etail, Ecb, Elo. destruct Htail as [?|?]; [contradiction|assumption].
    + right. rewrite Etail. split; [assumption|].
      rewrite (proj2 (Hall _ Htin)). exact Htnx.
  - exists s', (insert_after b (b + req) l). split; [exact Ht|].
    split; [|apply length_insert_after].
    split.
    + apply well_formed_intro; [exact Hok'|lia|lia| |].
      * rewrite Ehead.
        apply (chainb_insert_after s s' l (s_head s) b sz nx req);
          try assumption; try (consts; lia).
      * right. rewrite Etail, Ecb, Elo.
        destruct (Z.eqb_spec nx 0); [consts; lia|].
        destruct Htail as [?|?]; [contradiction|assumption].
    + right. rewrite Etail. destruct (Z.eqb_spec nx 0) as [->|Hnz].
      * split; [apply elem_of_insert_after_new; assumption|exact Hn2].
      * split; [apply elem_of_insert_after; assumption|].
        assert (Hne : s_tail s <> b) by (intros E; rewrite E in Htnx; congruence).
        rewrite (proj2 (Hothers _ Htin Hne)). exact Htnx.
Qed.

Lemma cur_brk_after_extension s s' bs :
  s_brk s' = cur_brk s + bs -> 0 < cur_brk s + bs -> cur_brk s' = cur_brk s + bs.
Proof.
  intros E H. unfold cur_brk at 1. rewrite E.
  destruct (Z.eqb_spec (cur_brk s + bs) 0); [lia|reflexivity].
Qed.

(** Extending a linked list by a block from [sbrk] leaves a linked list. *)
Lemma alloc_block_linked s l req :
  linked s l -> HEADER <= req < HALF -> extension_fails s req = false ->
  exists s',
    alloc_block s req = Ok (s', cur_brk s) /\
    linked s' (l ++ [cur_brk s]) /\
    get_size s' (cur_brk s) = Ok (Z.max req MIN_ALLOC) /\
    get_next s' (cur_brk s) = Ok 0.
Proof.
  intros [Hwf Htl] Hreq Hfit.
  apply well_formed_elim in Hwf as (Hok & Hb1 & Hb2 & Hc & Htail).
  pose proof (heap_ok_elim _ Hok) as (Hlo & Hlen & Hhi).
  assert (Hpos : 0 < s_heap s) by lia.
  destruct (alloc_block_effect s req Hok Hb1 Hb2 Htail Hreq Hfit)
    as (s' & Ha & Elo & Elen & Ebrk & Etail & Ehead & Hsz & Hnx & Hlink & Hframe).
  set (bs := Z.max req MIN_ALLOC) in *.
  assert (Hbs : MIN_ALLOC <= bs) by (unfold bs; lia).
  assert (Hroom : cur_brk s + bs <= s_heap s + s_heapsize s).
  { unfold extension_fails in Hfit. apply Z.ltb_ge in Hfit. fold bs in Hfit. lia. }
  assert (Ecb : cur_brk s' = cur_brk s + bs).
  { apply cur_brk_after_extension; [assumption|consts; lia]. }
  assert (Hok' : heap_ok s' = true) by (rewrite (heap_ok_same s s'); assumption).
  exists s'. split; [exact Ha|]. split; [|split; assumption].
  destruct (Z.eqb_spec (s_head s) 0) as [Hz|Hnz].
  - rewrite Hz in Hc. apply chainb_empty_head in Hc; [|assumption]. subst l.
    simpl app. split.
    + apply well_formed_intro; [exact Hok'|consts; lia|lia| |].
      * rewrite Ehead.
        apply (chainb_cons_intro s' (cur_brk s) bs 0);
          try assumption; try (consts; lia); reflexivity.
      * right. rewrite Etail. consts. lia.
    + right. rewrite Etail. split; [left|exact Hnx].
  - destruct Htl as [?|[Htin Htnx]]; [contradiction|].
    destruct Hlink as [?|Hlink]; [contradiction|].
    destruct (chainb_elem s l _ _ Hpos Hc Htin)
      as (_ & Htlo & szt & ? & Hszt & _ & Hmint & Hendt & _).
    assert (Hsame : forall y szy, y ∈ l -> get_size s y = Ok szy ->
              HEADER <= szy -> y + szy <= cur_brk s ->
              (y = s_tail s \/ y + szy <= s_tail s \/ s_tail s + szt <= y) ->
              get_size s' y = get_size s y /\
              (y <> s_tail s -> get_next s' y = get_next s y)).
    { intros y szy Hy Hszy Hminy Hendy Hsep. unfold get_size, get_next.
      split; [|intros Hne]; apply Hframe; consts; simpl Z.of_nat; lia. }
    split.
    + apply well_formed_intro; [exact Hok'|consts; lia|lia| |].
      * rewrite Ehead.
        apply (chainb_append s s' l (s_head s) (s_tail s) (cur_brk s) bs szt);
          try assumption; try (consts; lia); try reflexivity.
        -- rewrite <- Hszt. apply (Hsame (s_tail s) szt); auto.
        -- intros y Hy Hne.
           destruct (chainb_elem s l _ y Hpos Hc Hy)
             as (_ & _ & szy & ? & Hszy & _ & Hminy & Hendy & _).
           pose proof (chainb_separated s l _ y (s_tail s) szy szt Hpos Hc Hy Htin Hne Hszy Hszt).
           destruct (Hsame y szy Hy Hszy Hminy Hendy ltac:(lia)) as [E1 E2].
           split; [exact E1|apply E2; exact Hne].
      * right. rewrite Etail. consts. lia.
    + right. rewrite Etail. split; [apply elem_of_app; right; left|exact Hnx].
Qed.

Lemma linked_same s s' l :
  mem s' = mem s -> s_heap s' = s_heap s -> s_heapsize s' = s_heapsize s ->
  s_head s' = s_head s -> s_tail s' = s_tail s -> cur_brk s' = cur_brk s ->
  linked s l -> linked s' l.
Proof.
  intros Em Elo Elen Eh Et Ecb [Hwf Htl].
  apply well_formed_elim in Hwf as (Hok & Hb1 & Hb2 & Hc & Htail).
  assert (Hload : forall a k, load s' a k = load s a k)
    by (intros; apply load_same_mem; assumption).
  split.
  - apply well_formed_intro.
    + rewrite (heap_ok_same s s'); assumption.
    + lia.
    + lia.
    + rewrite Eh. apply (chainb_frame s s'); try assumption; [lia|].
      intros x _. unfold get_size, get_next. rewrite !Hload. split; reflexivity.
    + rewrite Eh, Et, Elo, Ecb. exact Htail.
  - rewrite Eh, Et. unfold get_next in *. rewrite Hload. exact Htl.
Qed.

(** [malloc] keeps the block list linked; the list grows by at most two
    headers (a block from [sbrk] and the remainder of a split). *)
Theorem malloc_keeps_linked (fuel : nat) (s : state) (l : list Z) (n : Z) :
  linked s l -> (length l < fuel)%nat -> 0 <= n <= HALF - 64 ->
  exists s' r l',
    malloc fuel s n = Ok (s', r) /\ served s l n s' r /\
    linked s' l' /\ (length l' <= length l + 2)%nat.
Proof.
  intros Hl Hfuel Hn.
  destruct (malloc_on_well_formed fuel s l n (proj1 Hl) Hfuel Hn) as (s' & r & Hm & Hserved).
  exists s', r.
  enough (exists s2 r2 l', malloc fuel s n = Ok (s2, r2) /\ linked s2 l' /\
                           (length l' <= length l + 2)%nat) as (s2 & r2 & l' & Hm2 & H2 & H3).
  { rewrite Hm in Hm2. injection Hm2 as <- <-. exists l'. auto. }
  clear s' r Hm Hserved.
  pose proof Hl as [Hwf Htl].
  apply well_formed_elim in Hwf as (Hok & Hb1 & Hb2 & Hc & Htail).
  pose proof (heap_ok_elim _ Hok) as (Hlo & Hlen & Hhi).
  pose proof (required_bounds n Hn) as [Hreq _].
  unfold malloc. fold (required n). set (req := required n) in *.
  destruct (find_block_chain l fuel s (s_head s) req ltac:(lia) Hb2 Hc Hfuel)
    as (b & Hfind & [[-> Hnofit]|(Hbnz & Hbin & Hblo & sz & nx & Hsz & Hnx & Hfit & _)]).
  - rewrite Hfind, obind_Ok. simpl (0 =? 0). cbv iota.
    destruct (extension_fails s req) eqn:Hext.
    + destruct (alloc_block_ok s req Hok Hb1 Hb2 Htail ltac:(consts; lia))
        as [(_ & s1 & Ha & Em & Eh & Et & Elo & Elen & _ & Ecb)|(Hcontra & _)];
        [|congruence].
      rewrite Ha, obind_Ok. simpl (0 =? 0). cbv iota.
      eexists _, _, l. split; [reflexivity|]. split; [|lia].
      apply (linked_same s); fields; assumption.
    + destruct (alloc_block_linked s l req Hl ltac:(consts; lia) Hext)
        as (s1 & Ha & Hl1 & Hsz1 & Hnx1).
      rewrite Ha, obind_Ok.
      assert (Hnz : cur_brk s <> 0) by lia.
      apply Z.eqb_neq in Hnz. rewrite Hnz.
      destruct (malloc_take_linked s1 (l ++ [cur_brk s]) (cur_brk s) req
                  (Z.max req MIN_ALLOC) 0 Hl1
                  ltac:(apply elem_of_app; right; left) Hsz1 Hnx1 ltac:(lia))
        as (s2 & l2 & Ht & Hl2 & Hlen2).
      rewrite Ht. eexists _, _, l2. split; [reflexivity|]. split; [exact Hl2|].
      rewrite length_app in Hlen2. simpl in Hlen2. lia.
  - rewrite Hfind, obind_Ok. apply Z.eqb_neq in Hbnz. rewrite Hbnz.
    destruct (malloc_take_linked s l b req sz nx Hl Hbin Hsz Hnx ltac:(lia))
      as (s2 & l2 & Ht & Hl2 & Hlen2).
    rewrite Ht. eexists _, _, l2. split; [reflexivity|]. split; [exact Hl2|lia].
Qed.

Lemma fresh_linked base size : heap_ok (fresh base size) = true -> linked (fresh base size) [].
Proof.
  intros Hok. pose proof (heap_ok_elim _ Hok) as (Hlo & Hlen & Hhi).
  simpl in Hlo, Hlen, Hhi.
  split; [|left; reflexivity].
  apply well_formed_intro; [exact Hok| | |reflexivity|left; reflexivity];
    unfold cur_brk; simpl; lia.
Qed.

(** Any number of allocations, one after the other, from a linked
    heap: each call returns and the list stays linked. *)
Lemma allocations_keep_linked (fuel : nat) (ns : list Z) : forall s l ps,
  linked s l -> Forall (fun n => 0 <= n <= HALF - 64) ns ->
  (length l + 2 * length ns < fuel)%nat ->
  exists s' ps' l',
    serve_all fuel (s, ps) (map Allocate ns) = Ok (s', ps') /\
    linked s' l' /\ (length l' <= length l + 2 * length ns)%nat.
Proof.
  induction ns as [|n ns IH]; intros s l ps Hl Hns Hfuel.
  - exists s, ps, l. split; [reflexivity|]. split; [exact Hl|simpl; lia].
  - apply Forall_cons in Hns as [Hn Hns]. simpl in Hfuel.
    destruct (malloc_keeps_linked fuel s l n Hl ltac:(lia) Hn)
      as (s1 & r & l1 & Hm & _ & Hl1 & Hlen1).
    destruct (IH s1 l1 (ps ++ [r]) Hl1 Hns ltac:(lia)) as (s' & ps' & l' & Hrun & Hl' & Hlen').
    exists s', ps', l'. simpl. rewrite Hm, !obind_Ok. split; [exact Hrun|].
    split; [exact Hl'|simpl; lia].
Qed.

(** The states the allocator reaches by allocations alone are well
    formed: after any allocations of admissible sizes from a fresh
    region, a further [malloc n] returns and is served. *)
Theorem malloc_after_allocations (base size : Z) (ns : list Z) (n : Z) :
  heap_ok (fresh base size) = true ->
  Forall (fun n => 0 <= n <= HALF - 64) ns -> 0 <= n <= HALF - 64 ->
  let fuel := S (2 * length ns) in
  exists s ps l s' r,
    serve_all fuel (fresh base size, []) (map Allocate ns) = Ok (s, ps) /\
    well_formed s l = true /\
    malloc fuel s n = Ok (s', r) /\ served s l n s' r.
Proof.
  intros Hok Hns Hn fuel.
  destruct (allocations_keep_linked fuel ns (fresh base size) [] []
              (fresh_linked _ _ Hok) Hns ltac:(unfold fuel; simpl; lia))
    as (s & ps & l & Hrun & Hl & Hlen).
  destruct (malloc_on_well_formed fuel s l n (proj1 Hl) ltac:(unfold fuel; simpl in *; lia) Hn)
    as (s' & r & Hm & Hserved).
  exists s, ps, l, s', r.
  split; [exact Hrun|]. split; [exact (proj1 Hl)|]. split; [exact Hm|exact Hserved].
Qed.

(** ** [free] of a block without predecessor *)

Lemma load_never_times_out s a n : load s a n <> Timeout.
Proof. unfold load. destruct (valid s a (Z.of_nat n)); discriminate. Qed.

Lemma store_never_times_out s a n v : store s a n v <> Timeout.
Proof. unfold store. destruct (valid s a (Z.of_nat n)); discriminate. Qed.

Lemma coalesce_keeps_prev s b s' nx :
  coalesce_if_necessary s b = Ok s' ->
  get_next s b = Ok nx -> (nx = 0 \/ b + HEADER <= nx) ->
  get_prev s' b = get_prev s b /\ s_heap s' = s_heap s /\ s_heapsize s' = s_heapsize s.
Proof.
  intros H Hnx Hord. unfold coalesce_if_necessary, is_allocated in H.
  unfold_fields. inv_all; subst; fields; try (repeat split; reflexivity).
  all: repeat match goal with
       | H : load _ _ _ = Ok _ |- _ => apply load_inv in H as (? & ? & ?); fields
       | H : (_ =? _) = false |- _ => apply Z.eqb_neq in H
       end.
  all: repeat match goal with
       | H : _ = load_le (store_le _ _ _ _) _ _ |- _ =>
           rewrite load_le_store_le_other in H by (consts; simpl Z.of_nat; lia)
       end.
  all: split; [|split; reflexivity].
  all: unfold load, valid; fields.
  all: repeat rewrite load_le_store_le_other by (consts; simpl Z.of_nat; lia).
  all: reflexivity.
Qed.

Lemma coalesce_returns_or_faults s b : coalesce_if_necessary s b <> Timeout.
Proof.
  unfold coalesce_if_necessary, is_allocated. unfold_fields.
  repeat match goal with
         | |- context [obind (load ?s ?a ?n) _] =>
             let E := fresh "E" in
             destruct (load s a n) eqn:E;
             [ rewrite obind_Ok | discriminate | apply load_never_times_out in E; contradiction ]
         | |- context [obind (store ?s ?a ?n ?v) _] =>
             let E := fresh "E" in
             destruct (store s a n v) eqn:E;
             [ rewrite obind_Ok | discriminate | apply store_never_times_out in E; contradiction ]
         | |- context [if ?c then _ else _] => destruct c
         | |- context [obind (Ok _) _] => rewrite obind_Ok
         | |- Ok _ <> Timeout => discriminate
         | |- store _ _ _ _ <> Timeout => apply store_never_times_out
         end.
Qed.

(** [free(p)] of an allocated block whose [prev] is null, and whose
    successor (if any) begins after the block's own header, faults:
    after clearing the flag and coalescing with the successor it calls
    [coalesce_if_necessary] on the null pointer. *)
Lemma free_without_predecessor_faults s p nx :
  heap_ok s = true ->
  is_allocated s (p - HEADER) = Ok true ->
  get_prev s (p - HEADER) = Ok 0 ->
  get_next s (p - HEADER) = Ok nx -> (nx = 0 \/ p <= nx) ->
  free s p = Fault.
Proof.
  intros Hok Hal Hprev Hnext Hord.
  destruct (block_header_address _ _ _ Hok Hal) as [Ew Hp].
  apply heap_ok_elim in Hok as (Hlo & Hlen & Hhi).
  unfold free. apply Z.eqb_neq in Hp. rewrite Hp, Ew, Hal, obind_Ok. simpl negb. cbv iota.
  unfold is_allocated in Hal. apply obind_inv in Hal as (fl & Hfl & _).
  rewrite Hfl, obind_Ok.
  pose proof Hfl as Hflv. unfold get_flags in Hflv. apply load_inv in Hflv as (_ & Hf1 & Hf2).
  unfold put_flags. rewrite store_ok by (apply valid_intro; assumption). rewrite obind_Ok.
  set (s1 := set_mem s _).
  assert (Hnext1 : get_next s1 (p - HEADER) = Ok nx).
  { unfold get_next in *. apply load_inv in Hnext as (-> & H1 & H2).
    unfold s1. rewrite load_ok by (apply valid_intro; fields; assumption). fields.
    rewrite load_le_store_le_other by (consts; simpl Z.of_nat; lia). reflexivity. }
  assert (Hprev1 : get_prev s1 (p - HEADER) = Ok 0).
  { unfold get_prev in *. apply load_inv in Hprev as (E0 & H1 & H2).
    unfold s1. rewrite load_ok by (apply valid_intro; fields; assumption). fields.
    rewrite load_le_store_le_other by (consts; simpl Z.of_nat; lia). congruence. }
  destruct (coalesce_if_necessary s1 (p - HEADER)) as [s2| |] eqn:Hc.
  - rewrite obind_Ok.
    destruct (coalesce_keeps_prev _ _ _ _ Hc Hnext1 ltac:(consts; lia)) as (Ep & Elo & Elen).
    rewrite Ep, Hprev1, obind_Ok.
    unfold coalesce_if_necessary, is_allocated, get_flags.
    rewrite load_fault; [reflexivity|].
    left. rewrite Elo. unfold s1. fields. consts. lia.
  - reflexivity.
  - exfalso. revert Hc. apply coalesce_returns_or_faults.
Qed.

(** ** Start-up: order of the calls *)

Lemma beforeb_spec a b t : beforeb a b t = true <-> before a b t.
Proof.
  unfold before. induction t as [|x t IH]; simpl.
  - split; [discriminate|]. intros (t1 & t2 & t3 & H). destruct t1; discriminate.
  - rewrite orb_true_iff, andb_true_iff, !bool_decide_eq_true, IH. split.
    + intros [[-> Hin]|(t1 & t2 & t3 & ->)].
      * apply list_elem_of_split in Hin as (t2 & t3 & ->). exists [], t2, t3. reflexivity.
      * exists (x :: t1), t2, t3. reflexivity.
    + intros (t1 & t2 & t3 & H). destruct t1 as [|y t1]; simpl in H.
      * injection H as -> ->. left. split; [reflexivity|].
        apply elem_of_app. right. left.
      * injection H as -> ->. right. exists t1, t2, t3. reflexivity.
Qed.

Lemma before_between a b pre0 pre post :
  a ∈ pre -> before a b (pre0 ++ pre ++ b :: post).
Proof.
  intros Hin. apply list_elem_of_split in Hin as (l1 & l2 & ->).
  exists (pre0 ++ l1), l2, post. rewrite <- !app_assoc. reflexivity.
Qed.

(** The calls made before [wrapper_init] runs, when set-up succeeds. *)
Lemma start_trace w :
  mmap_result w <> MAP_FAILED -> dlopen_result w <> 0 -> dlsym_result w <> 0 ->
  __libc_start_main w =
  ([EGetenv; EMmap (heap_size_setting w); EDlopen; EDlsym; ERealStart] ++
   priming w ++ EPrctl ::
   (if prctl_result w =? -1 then [E_exit SECCOMP_FAILED]
    else [ERealInit; ERealMain; EFflush Stdout; EFflush Stderr;
          ESysExit (real_main_result w)]),
   if prctl_result w =? -1 then Exits SECCOMP_FAILED
   else Exits (real_main_result w)).
Proof.
  intros Hm Hd Hs. apply Z.eqb_neq in Hm, Hd, Hs.
  unfold __libc_start_main, real_libc_start_main, wrapper_init, wrapper_main, priming.
  rewrite Hm, Hd, Hs.
  destruct (fgetc_result w =? EOF), (prctl_result w =? -1); reflexivity.
Qed.

(** C1.  When set-up succeeds (the region is mapped, the C library is
    opened and its start routine found), the run of the interception
    entry point issues [prctl(PR_SET_SECCOMP)] exactly once; every
    I/O-priming call comes before it; the real pre-init hook never comes
    before it.  If the call fails the next and last call is
    [_exit(SECCOMP_FAILED)] and the real pre-init hook is not run;
    otherwise the real pre-init hook runs once, after it. *)
Theorem seccomp_once_before_init (w : world) :
  mmap_result w <> MAP_FAILED -> dlopen_result w <> 0 -> dlsym_result w <> 0 ->
  let t := fst (__libc_start_main w) in
  occurrences EPrctl t = 1%nat /\
  (forall e, e ∈ priming w -> before e EPrctl t) /\
  ~ before ERealInit EPrctl t /\
  (if prctl_result w =? -1
   then snd (__libc_start_main w) = Exits SECCOMP_FAILED /\
        (exists pre, t = pre ++ [EPrctl; E_exit SECCOMP_FAILED]) /\
        ERealInit ∉ t
   else before EPrctl ERealInit t /\ occurrences ERealInit t = 1%nat).
Proof.
  intros Hm Hd Hs t. unfold t. rewrite (start_trace w Hm Hd Hs). cbn [fst snd].
  split; [|split; [|split]].
  - unfold priming. destruct (fgetc_result w =? EOF), (prctl_result w =? -1); reflexivity.
  - intros e He. apply before_between. exact He.
  - rewrite <- beforeb_spec. unfold priming.
    destruct (fgetc_result w =? EOF), (prctl_result w =? -1); simpl; congruence.
  - destruct (prctl_result w =? -1).
    + split; [reflexivity|]. split.
      * exists ([EGetenv; EMmap (heap_size_setting w); EDlopen; EDlsym; ERealStart]
                  ++ priming w).
        rewrite <- app_assoc. reflexivity.
      * unfold priming. destruct (fgetc_result w =? EOF); simpl;
          rewrite list_elem_of_In; simpl; intuition discriminate.
    + split.
      * rewrite <- beforeb_spec. unfold priming.
        destruct (fgetc_result w =? EOF); reflexivity.
      * unfold priming. destruct (fgetc_result w =? EOF); reflexivity.
Qed.

(** A run in which everything succeeds and a character is waiting on
    standard input. *)
Lemma seccomp_once_before_init_witness :
  let w := mkWorld None 65536 1 1 2 97 0 0 in
  let t := fst (__libc_start_main w) in
  occurrences EPrctl t = 1%nat /\
  (forall e, e ∈ priming w -> before e EPrctl t) /\
  ~ before ERealInit EPrctl t /\
  (if prctl_result w =? -1
   then snd (__libc_start_main w) = Exits SECCOMP_FAILED /\
        (exists pre, t = pre ++ [EPrctl; E_exit SECCOMP_FAILED]) /\
        ERealInit ∉ t
   else before EPrctl ERealInit t /\ occurrences ERealInit t = 1%nat).
Proof.
  apply (seccomp_once_before_init (mkWorld None 65536 1 1 2 97 0 0));
    vm_compute; discriminate.
Defined.

(** ** Start-up: fatal failures *)

(** The three failures the code tests for end the process through
    [_exit], each with its own status, and the four statuses differ. *)
Lemma setup_failures_exit w :
  (mmap_result w = MAP_FAILED ->
   snd (__libc_start_main w) = Exits MMAP_FAILED /\
   last (fst (__libc_start_main w)) = Some (E_exit MMAP_FAILED)) /\
  (mmap_result w <> MAP_FAILED -> dlopen_result w = 0 ->
   snd (__libc_start_main w) = Exits DLOPEN_FAILED /\
   last (fst (__libc_start_main w)) = Some (E_exit DLOPEN_FAILED)) /\
  (mmap_result w <> MAP_FAILED -> dlopen_result w <> 0 -> dlsym_result w <> 0 ->
   prctl_result w = -1 ->
   snd (__libc_start_main w) = Exits SECCOMP_FAILED /\
   last (fst (__libc_start_main w)) = Some (E_exit SECCOMP_FAILED)) /\
  NoDup [DLOPEN_FAILED; SECCOMP_FAILED; EXIT_FAILED; MMAP_FAILED].
Proof.
  split; [|split; [|split]].
  - intros Hm. unfold __libc_start_main. rewrite Hm. split; reflexivity.
  - intros Hm Hd. apply Z.eqb_neq in Hm. unfold __libc_start_main. rewrite Hm, Hd.
    split; reflexivity.
  - intros Hm Hd Hs Hp. rewrite (start_trace w Hm Hd Hs), Hp. cbn [fst snd].
    split; [reflexivity|]. unfold priming.
    destruct (fgetc_result w =? EOF); reflexivity.
  - unfold DLOPEN_FAILED, SECCOMP_FAILED, EXIT_FAILED, MMAP_FAILED.
    repeat (constructor; [rewrite list_elem_of_In; simpl; lia|]). constructor.
Qed.

(** The wrapped entry function never returns its fallback value: the
    run ends in the [exit] system call with the result of the real
    entry function. *)
Lemma wrapper_main_exits w :
  wrapper_main w =
  ([ERealMain; EFflush Stdout; EFflush Stderr; ESysExit (real_main_result w)],
   Exits (real_main_result w)).
Proof. reflexivity. Qed.

(** C8 (the code at the failing input).  The region is mapped and the C
    library is opened, but [dlsym] does not find [__libc_start_main]:
    the null result is called.  The run makes no [_exit] call at all
    and does not end with status [DLOPEN_FAILED]. *)
Theorem unresolved_start_symbol_is_called :
  let w := mkWorld None 65536 1 0 2 EOF 0 0 in
  __libc_start_main w =
    ([EGetenv; EMmap DEFAULT_HEAP_SIZE; EDlopen; EDlsym], Crashes) /\
  snd (__libc_start_main w) <> Exits DLOPEN_FAILED.
Proof. split; [reflexivity|discriminate]. Qed.

(** ** The allocator on concrete heaps *)

(** A request for 2^64 - 1 bytes on the empty
    heap: [size + sizeof(struct Header)] wraps to 31, the block size is
    32, and [malloc] returns a non-null pointer to a block that has no
    byte after its header. *)
Lemma malloc_wrapped_request_not_served :
  well_formed empty_heap [] = true /\
  exists s' r,
    malloc 1 empty_heap (WORD - 1) = Ok (s', r) /\
    r = 65568 /\ get_size s' (r - HEADER) = Ok HEADER /\
    ~ served empty_heap [] (WORD - 1) s' r.
Proof.
  split; [vm_compute; reflexivity|].
  destruct (malloc 1 empty_heap (WORD - 1)) as [[s' r]| |] eqn:E;
    vm_compute in E; try discriminate.
  injection E as <- <-. eexists _, _. split; [reflexivity|].
  split; [reflexivity|]. split; [vm_compute; reflexivity|].
  intros [[H _]|(_ & sz & Hsz & _ & Hn & _)].
  - discriminate.
  - vm_compute in Hsz. injection Hsz as <-. vm_compute in Hn. apply Hn. reflexivity.
Qed.

(** A request for 2^63 bytes: the block size, cast to [intptr_t], is
    negative, [sbrk] accepts it, and the block returned ends far beyond
    the break and the reserved region. *)
Lemma malloc_negative_increment_not_served :
  exists s' r,
    malloc 1 empty_heap HALF = Ok (s', r) /\
    r = 65568 /\ get_size s' (r - HEADER) = Ok (HALF + HEADER) /\
    ~ served empty_heap [] HALF s' r.
Proof.
  destruct (malloc 1 empty_heap HALF) as [[s' r]| |] eqn:E;
    vm_compute in E; try discriminate.
  injection E as <- <-. eexists _, _. split; [reflexivity|].
  split; [reflexivity|]. split; [vm_compute; reflexivity|].
  intros [[H _]|(_ & sz & Hsz & _ & _ & _ & _ & Hend)].
  - discriminate.
  - vm_compute in Hend. apply Hend. reflexivity.
Qed.

(** A second [free] of the same pointer. *)
Lemma free_null_and_invalid_witness :
  let s := state_after 4 [Allocate 32; Allocate 100; Release 1] in
  free s 0 = Ok s /\
  exists s',
    free s 65632 = Ok s' /\
    stderr_log s' = stderr_log s ++ [InvalidFree 65632] /\
    mem s' = mem s /\ s_head s' = s_head s /\ s_tail s' = s_tail s /\
    s_brk s' = s_brk s /\ s_heap s' = s_heap s /\ s_heapsize s' = s_heapsize s /\
    errno s' = errno s /\
    forall fuel, block_list fuel s' = block_list fuel s.
Proof.
  apply (free_null_and_invalid
           (state_after 4 [Allocate 32; Allocate 100; Release 1]) 65632).
  - lia.
  - vm_compute. reflexivity.
Defined.

(** Growing a block to more than the whole region. *)
Lemma realloc_failure_keeps_block_witness :
  let s := state_after 4 [Allocate 32; Allocate 100] in
  let s1 := set_errno s ENOMEM in
  realloc 4 s 65632 10000000 = Ok (s1, 0) /\
  errno s1 = ENOMEM /\
  mem s1 = mem s /\ s_head s1 = s_head s /\ s_tail s1 = s_tail s /\
  is_allocated s1 (65632 - HEADER) = Ok true /\
  forall fuel', block_list fuel' s1 = block_list fuel' s.
Proof.
  apply (realloc_failure_keeps_block 4
           (state_after 4 [Allocate 32; Allocate 100])
           (set_errno (state_after 4 [Allocate 32; Allocate 100]) ENOMEM)
           65632 10000000).
  - vm_compute. reflexivity.
  - vm_compute. reflexivity.
  - lia.
  - vm_compute. reflexivity.
Defined.

(** Growing a block of 128 usable bytes to 200. *)
Example realloc_steps_on_second_block :
  let s := state_after 4 [Allocate 32; Allocate 100] in
  let s1 := state_after 4 [Allocate 32; Allocate 100; Allocate 200] in
  let k := Z.min (wrap (160 - HEADER)) 200 in
  (forall m, realloc 4 s 0 m = malloc 4 s m) /\
  (forall q, q <> 0 -> realloc 4 s q 0 = (let* s' := free s q in Ok (s', 0))) /\
  65792 <> 65632 /\
  exists s2,
    copied s1 s2 65792 65632 k /\
    realloc 4 s 65632 200 = (let* s3 := free s2 65632 in Ok (s3, 65792)).
Proof.
  apply (realloc_steps 4
           (state_after 4 [Allocate 32; Allocate 100])
           (state_after 4 [Allocate 32; Allocate 100; Allocate 200])
           65632 200 65792 160).
  - vm_compute. reflexivity.
  - vm_compute. reflexivity.
  - vm_compute. discriminate.
  - lia.
  - vm_compute. reflexivity.
  - lia.
  - vm_compute. reflexivity.
  - vm_compute. reflexivity.
  - vm_compute. reflexivity.
Qed.

(** C2 (the code at the failing input).  Four blocks of 64 bytes are
    allocated at 65536, 65600, 65664 and 65728; the third, the second
    and the fourth are released.  Every [free] returns.  After the last
    one the list is [65536; 65600; 65728]: the block at 65600 is free
    and 128 bytes long, the block at 65728 starts where it ends and is
    free too. *)
Theorem free_leaves_adjacent_free_blocks :
  exists s ps,
    serve_all 4 (empty_heap, []) release_inner_blocks = Ok (s, ps) /\
    block_list 4 s = Ok [65536; 65600; 65728] /\
    is_allocated s 65600 = Ok false /\ get_size s 65600 = Ok 128 /\
    is_allocated s 65728 = Ok false /\
    adjacent_free s [65536; 65600; 65728] = true.
Proof.
  destruct (serve_all 4 (empty_heap, []) release_inner_blocks) as [[s ps]| |] eqn:E;
    vm_compute in E; try discriminate.
  injection E as <- <-. eexists _, _. split; [reflexivity|].
  repeat split; vm_compute; reflexivity.
Qed.

(** The cause: when [coalesce_if_necessary] absorbs the block at 65664
    into the block at 65600, the [prev] field of the block that follows
    (65728) keeps pointing to the absorbed header. *)
Lemma absorbed_header_stays_predecessor :
  let s := state_after 5 [Allocate 32; Allocate 32; Allocate 32; Allocate 32;
                          Release 2; Release 1] in
  block_list 5 s = Ok [65536; 65600; 65728; 65792] /\ get_prev s 65728 = Ok 65664.
Proof. split; vm_compute; reflexivity. Qed.

(** C4 (the code at the failing input).  After the same calls [s_tail]
    is the absorbed header at 65664; the next extension of the heap is
    linked behind it and is not reachable from [s_head].  The sizes in
    the list add up to 65536 while the break has advanced by 135584. *)
Theorem list_loses_extension_block :
  exists s ps,
    serve_all 4 (empty_heap, []) (release_inner_blocks ++ [Allocate 70000]) = Ok (s, ps) /\
    block_list 4 s = Ok [65536; 65600; 65728] /\
    sum_sizes s [65536; 65600; 65728] = Ok 65536 /\
    advanced s = 135584 /\
    nth 4 ps 0 = 131104.
Proof.
  destruct (serve_all 4 (empty_heap, []) (release_inner_blocks ++ [Allocate 70000]))
    as [[s ps]| |] eqn:E; vm_compute in E; try discriminate.
  injection E as <- <-. eexists _, _. split; [reflexivity|].
  repeat split; vm_compute; reflexivity.
Qed.

(** C5 (the code at the failing input).  The first block of the list
    has no predecessor; releasing it makes [free] call
    [coalesce_if_necessary] on the null pointer, which reads its flags.
    Scenario A of the specification releases the first block. *)
Theorem free_first_block_faults :
  serve_all 4 (empty_heap, []) [Allocate 1; Release 0] = Fault /\
  serve_all 4 (empty_heap, [])
    [Allocate 100; Allocate 200; Release 0; Allocate 50] = Fault.
Proof. split; vm_compute; reflexivity. Qed.

(** Scenario C of the specification: with a capacity of 4096 bytes a
    request that needs a block of 8192 bytes returns the null pointer
    and sets [ENOMEM]; no byte of the region is written. *)
Example request_beyond_capacity :
  let s := fresh 65536 4096 in
  malloc 1 s 8160 = Ok (set_errno (set_brk s 65536) ENOMEM, 0).
Proof. vm_compute. reflexivity. Qed.

(** With the setting absent and the region mapped at 65536, start-up
    leaves the allocator on the empty heap used above. *)
Example heap_after_default_setup :
  heap_after_setup (mkWorld None 65536 1 1 2 EOF 0 0) = empty_heap /\
  linked empty_heap [].
Proof. split; [reflexivity|]. apply fresh_linked. reflexivity. Qed.

(* ================================================================== *)
(** * Further properties of the allocator and of the start-up code *)
(* ================================================================== *)

(** ** [round_to_multiple] *)

(** X1.  For a positive [multiple] and an [n] that leaves room for the
    rounding below 2^64, [round_to_multiple] returns the least multiple
    of [multiple] that is not below [n]; a multiple is returned as it is. *)
Theorem round_to_multiple_least (n m : Z) :
  0 < m -> 0 <= n -> n + m <= WORD ->
  let r := round_to_multiple n m in
  r mod m = 0 /\ n <= r < n + m /\
  (forall k, k mod m = 0 -> n <= k -> r <= k) /\
  round_to_multiple r m = r.
Proof.
  intros Hm Hn Hroom r.
  pose proof (Z.mod_pos_bound n m Hm) as Hmod.
  assert (Hr : r = if n mod m =? 0 then n else n + (m - n mod m)).
  { unfold r, round_to_multiple. destruct (Z.eqb_spec (n mod m) 0); simpl negb; cbv iota;
      [reflexivity|]. apply wrap_small. unfold WORD in *. lia. }
  assert (Hdiv : r mod m = 0).
  { rewrite Hr. destruct (Z.eqb_spec (n mod m) 0) as [E|E]; [exact E|].
    rewrite (Z.div_mod n m) at 1 by lia.
    replace (m * (n / m) + n mod m + (m - n mod m)) with ((1 + n / m) * m) by ring.
    apply Z.mod_mul. lia. }
  assert (Hrange : n <= r < n + m).
  { rewrite Hr. destruct (Z.eqb_spec (n mod m) 0); lia. }
  split; [exact Hdiv|]. split; [exact Hrange|]. split.
  - intros k Hk Hnk.
    apply Z.mod_divide in Hk; [|lia]. apply Z.mod_divide in Hdiv; [|lia].
    destruct Hk as [a ->]. destruct Hdiv as [b Hb]. rewrite Hb in *.
    assert (b < a + 1) by (apply (Z.mul_lt_mono_pos_r m); lia).
    apply Z.mul_le_mono_nonneg_r; lia.
  - unfold round_to_multiple. rewrite Hdiv. reflexivity.
Qed.

Lemma round_to_multiple_least_witness :
  let r := round_to_multiple 33 32 in
  r mod 32 = 0 /\ 33 <= r < 33 + 32 /\
  (forall k, k mod 32 = 0 -> 33 <= k -> r <= k) /\
  round_to_multiple r 32 = r.
Proof.
  apply (round_to_multiple_least 33 32); unfold WORD; lia.
Defined.

(** ** [sbrk] *)

(** X2.  With the break inside the region and a non-negative increment
    below 2^63: if the increment fits in what is left of the region,
    [sbrk] returns the old break and advances the break by the
    increment, staying inside the region; otherwise it returns
    [(void * ) -1], sets [errno] to [ENOMEM] and leaves the break where
    it was.  In both cases no byte of memory and no list pointer
    changes. *)
Theorem sbrk_contract (s : state) (incr : Z) :
  heap_ok s = true ->
  s_heap s <= cur_brk s -> cur_brk s <= s_heap s + s_heapsize s ->
  0 <= incr < HALF ->
  let '(s', r) := sbrk s incr in
  mem s' = mem s /\ s_head s' = s_head s /\ s_tail s' = s_tail s /\
  s_heap s' = s_heap s /\ s_heapsize s' = s_heapsize s /\
  if incr <=? s_heap s + s_heapsize s - cur_brk s
  then r = cur_brk s /\ cur_brk s' = cur_brk s + incr /\
       cur_brk s' <= s_heap s' + s_heapsize s' /\ errno s' = errno s
  else r = wrap (-1) /\ errno s' = ENOMEM /\ cur_brk s' = cur_brk s.
Proof.
  intros Hok Hb1 Hb2 Hincr.
  apply heap_ok_elim in Hok as (Hlo & Hlen & Hhi).
  rewrite sbrk_spec by lia. cbv zeta.
  set (s1 := if s_brk s =? 0 then set_brk s (s_heap s) else s).
  assert (Hs1 : mem s1 = mem s /\ s_head s1 = s_head s /\ s_tail s1 = s_tail s /\
                s_heap s1 = s_heap s /\ s_heapsize s1 = s_heapsize s /\
                errno s1 = errno s /\ cur_brk s1 = cur_brk s).
  { unfold s1, cur_brk. destruct (Z.eqb_spec (s_brk s) 0) as [E|E]; fields;
      repeat split; try reflexivity;
      match goal with |- (if ?c =? 0 then _ else _) = _ =>
        destruct (Z.eqb_spec c 0); congruence end. }
  destruct Hs1 as (Em & Eh & Et & Elo & Esz & Eerr & Ecb). clearbody s1.
  destruct (Z.ltb_spec (s_heapsize s - (cur_brk s - s_heap s)) incr) as [Hfail|Hfit];
    destruct (Z.leb_spec incr (s_heap s + s_heapsize s - cur_brk s)); try lia; fields.
  - repeat split; assumption.
  - rewrite wrap_small by (consts; lia).
    assert (Ecb' : cur_brk (set_brk s1 (cur_brk s + incr)) = cur_brk s + incr).
    { destruct (Z.eq_dec incr 0) as [->|Hnz].
      - rewrite Z.add_0_r. unfold cur_brk at 1. fields.
        destruct (Z.eqb_spec (cur_brk s) 0); [lia|reflexivity].
      - unfold cur_brk at 1. fields.
        destruct (Z.eqb_spec (cur_brk s + incr) 0); [lia|reflexivity]. }
    repeat split; try assumption; rewrite ?Ecb'; fields; lia.
Qed.

Lemma sbrk_contract_witness :
  let s := state_after 4 [Allocate 32] in
  let '(s', r) := sbrk s 4096 in
  mem s' = mem s /\ s_head s' = s_head s /\ s_tail s' = s_tail s /\
  s_heap s' = s_heap s /\ s_heapsize s' = s_heapsize s /\
  if 4096 <=? s_heap s + s_heapsize s - cur_brk s
  then r = cur_brk s /\ cur_brk s' = cur_brk s + 4096 /\
       cur_brk s' <= s_heap s' + s_heapsize s' /\ errno s' = errno s
  else r = wrap (-1) /\ errno s' = ENOMEM /\ cur_brk s' = cur_brk s.
Proof.
  apply (sbrk_contract (state_after 4 [Allocate 32]) 4096).
  - vm_compute. reflexivity.
  - vm_compute. discriminate.
  - vm_compute. discriminate.
  - unfold HALF. lia.
Defined.

(** X3.  [sbrk] tests the increment only against the room that is left:
    a negative increment is never refused.  The old break is returned
    and the break moves down by the increment (modulo 2^64), below the
    start of the region if the increment is large enough. *)
Theorem sbrk_negative_increment (s : state) (incr : Z) :
  heap_ok s = true ->
  s_heap s <= cur_brk s -> cur_brk s <= s_heap s + s_heapsize s ->
  - HALF <= incr < 0 ->
  snd (sbrk s incr) = cur_brk s /\
  s_brk (fst (sbrk s incr)) = wrap (cur_brk s + incr) /\
  errno (fst (sbrk s incr)) = errno s /\
  (- cur_brk s <= incr < s_heap s - cur_brk s ->
   s_brk (fst (sbrk s incr)) = cur_brk s + incr /\
   s_brk (fst (sbrk s incr)) < s_heap s).
Proof.
  intros Hok Hb1 Hb2 Hincr.
  apply heap_ok_elim in Hok as (Hlo & Hlen & Hhi).
  rewrite sbrk_spec by lia. cbv zeta.
  destruct (Z.ltb_spec (s_heapsize s - (cur_brk s - s_heap s)) incr) as [Hfail|_]; [lia|].
  cbn [fst snd]. fields.
  split; [reflexivity|]. split; [reflexivity|]. split.
  - destruct (s_brk s =? 0); reflexivity.
  - intros H. rewrite wrap_small by (consts; lia). lia.
Qed.

Lemma sbrk_negative_increment_witness :
  let s := state_after 4 [Allocate 32] in
  snd (sbrk s (-100000)) = cur_brk s /\
  s_brk (fst (sbrk s (-100000))) = wrap (cur_brk s + -100000) /\
  errno (fst (sbrk s (-100000))) = errno s /\
  (- cur_brk s <= -100000 < s_heap s - cur_brk s ->
   s_brk (fst (sbrk s (-100000))) = cur_brk s + -100000 /\
   s_brk (fst (sbrk s (-100000))) < s_heap s).
Proof.
  apply (sbrk_negative_increment (state_after 4 [Allocate 32]) (-100000)).
  - vm_compute. reflexivity.
  - vm_compute. discriminate.
  - vm_compute. discriminate.
  - unfold HALF. lia.
Defined.

(** ** [alloc_block] *)

(** X4.  [alloc_block] on a heap whose break and tail are in place, for
    a block size below 2^63.  If the region has no room for
    [max(block_size, MIN_ALLOC)] bytes it returns the null pointer and
    changes neither memory nor the list.  Otherwise it returns the old
    break, where it has written a free header of that size with a null
    [next]; the block is the new tail, linked behind the old tail in
    both directions (or it is the head, with a null [prev], if the list
    was empty); the break has advanced by the block's size; and below
    the old break only the [next] field of the old tail has changed. *)
Theorem alloc_block_appends (s : state) (block_size : Z) :
  heap_ok s = true ->
  s_heap s <= cur_brk s -> cur_brk s <= s_heap s + s_heapsize s ->
  (s_head s = 0 \/ (s_heap s <= s_tail s /\ s_tail s + HEADER <= cur_brk s)) ->
  0 <= block_size < HALF ->
  let bs := Z.max block_size MIN_ALLOC in
  exists s',
    if extension_fails s block_size
    then alloc_block s block_size = Ok (s', 0) /\
         mem s' = mem s /\ s_head s' = s_head s /\ s_tail s' = s_tail s /\
         cur_brk s' = cur_brk s /\ errno s' = ENOMEM
    else alloc_block s block_size = Ok (s', cur_brk s) /\
         get_size s' (cur_brk s) = Ok bs /\
         get_flags s' (cur_brk s) = Ok 0 /\
         get_next s' (cur_brk s) = Ok 0 /\
         get_prev s' (cur_brk s) = Ok (if s_head s =? 0 then 0 else s_tail s) /\
         s_tail s' = cur_brk s /\
         s_head s' = (if s_head s =? 0 then cur_brk s else s_head s) /\
         (s_head s <> 0 -> get_next s' (s_tail s) = Ok (cur_brk s)) /\
         cur_brk s' = cur_brk s + bs /\
         (forall a k,
            a + Z.of_nat k <= cur_brk s ->
            s_head s = 0 \/ a + Z.of_nat k <= s_tail s + 8 \/ s_tail s + 16 <= a ->
            load s' a k = load s a k).
Proof.
  intros Hok Hb1 Hb2 Htail Hreq bs.
  apply heap_ok_elim in Hok. destruct Hok as (Hlo & Hlen & Hhi).
  unfold alloc_block, extension_fails.
  assert (Ebs : (if block_size <? MIN_ALLOC then MIN_ALLOC else block_size) = bs).
  { unfold bs. destruct (Z.ltb_spec block_size MIN_ALLOC); lia. }
  rewrite Ebs. fold bs.
  assert (Hbs : MIN_ALLOC <= bs < HALF) by (unfold bs; consts; lia).
  clearbody bs.
  rewrite to_signed_small by (consts; lia).
  rewrite sbrk_spec by lia. cbv zeta.
  set (s1 := if s_brk s =? 0 then set_brk s (s_heap s) else s).
  assert (Hs1 : mem s1 = mem s /\ s_head s1 = s_head s /\ s_tail s1 = s_tail s /\
                s_heap s1 = s_heap s /\ s_heapsize s1 = s_heapsize s /\
                cur_brk s1 = cur_brk s).
  { unfold s1, cur_brk. destruct (Z.eqb_spec (s_brk s) 0) as [E|E]; fields;
      repeat split; try reflexivity;
      match goal with |- (if ?c =? 0 then _ else _) = _ =>
        destruct (Z.eqb_spec c 0); congruence end. }
  destruct Hs1 as (Em & Eh & Et & Elo & Esz & Ecb). clearbody s1.
  destruct (Z.ltb_spec (s_heapsize s - (cur_brk s - s_heap s)) bs) as [Hfail|Hfit].
  - rewrite Z.eqb_refl. eexists. split; [reflexivity|]. fields.
    repeat split; assumption || reflexivity.
  - assert (Hne : (cur_brk s =? wrap (-1)) = false).
    { apply Z.eqb_neq. change (wrap (-1)) with (WORD - 1). consts. lia. }
    rewrite Hne. rewrite (wrap_small (cur_brk s + bs)) by (consts; lia).
    assert (Ecb' : forall m h t,
      cur_brk (mkState m (s_heap s1) (s_heapsize s1) (cur_brk s + bs) h t
                       (errno s1) (stderr_log s1)) = cur_brk s + bs).
    { intros. unfold cur_brk at 1. fields.
      destruct (Z.eqb_spec (cur_brk s + bs) 0); [consts; lia|reflexivity]. }
    unfold put_next, put_prev, put_size, put_flags, get_size, get_next, get_prev, get_flags.
    do_store. rewrite Eh.
    destruct (Z.eqb_spec (s_head s) 0) as [Hz|Hnz].
    + do_store. do_store. do_store.
      eexists. split; [reflexivity|]. fields.
      split; [read_back|]. split; [read_back|]. split; [read_back|].
      split; [read_back|]. split; [reflexivity|]. split; [reflexivity|].
      split; [intros; contradiction|]. split; [apply Ecb'|].
      intros a k Ha _. unfold load, valid. fields. rewrite Em, Elo, Esz. frame. reflexivity.
    + destruct Htail as [?|[Ht1 Ht2]]; [contradiction|].
      rewrite Et. do_store. do_store. rewrite obind_Ok. fields.
      do_store. do_store.
      eexists. split; [reflexivity|]. fields.
      split; [read_back|]. split; [read_back|]. split; [read_back|].
      split.
      { rewrite load_ok by in_heap. fields. frame. rewrite Et.
        change (256 ^ Z.of_nat 8) with WORD. f_equal. apply wrap_small. consts; lia. }
      split; [reflexivity|]. split; [congruence|].
      split; [intros _; read_back|]. split; [apply Ecb'|].
      intros a k Ha [?|Hd]; [contradiction|].
      unfold load, valid. fields. rewrite Em, Elo, Esz. frame. reflexivity.
Qed.

Lemma alloc_block_appends_witness :
  let s := state_after 4 [Allocate 32] in
  let block_size := 100000 in
  let bs := Z.max block_size MIN_ALLOC in
  exists s',
    if extension_fails s block_size
    then alloc_block s block_size = Ok (s', 0) /\
         mem s' = mem s /\ s_head s' = s_head s /\ s_tail s' = s_tail s /\
         cur_brk s' = cur_brk s /\ errno s' = ENOMEM
    else alloc_block s block_size = Ok (s', cur_brk s) /\
         get_size s' (cur_brk s) = Ok bs /\
         get_flags s' (cur_brk s) = Ok 0 /\
         get_next s' (cur_brk s) = Ok 0 /\
         get_prev s' (cur_brk s) = Ok (if s_head s =? 0 then 0 else s_tail s) /\
         s_tail s' = cur_brk s /\
         s_head s' = (if s_head s =? 0 then cur_brk s else s_head s) /\
         (s_head s <> 0 -> get_next s' (s_tail s) = Ok (cur_brk s)) /\
         cur_brk s' = cur_brk s + bs /\
         (forall a k,
            a + Z.of_nat k <= cur_brk s ->
            s_head s = 0 \/ a + Z.of_nat k <= s_tail s + 8 \/ s_tail s + 16 <= a ->
            load s' a k = load s a k).
Proof.
  apply (alloc_block_appends (state_after 4 [Allocate 32]) 100000).
  - vm_compute. reflexivity.
  - vm_compute. discriminate.
  - vm_compute. discriminate.
  - right. vm_compute. split; discriminate.
  - unfold HALF. lia.
Defined.

(** ** [split_block_if_necessary] *)

(** X5.  [split_block_if_necessary] on a block of [sz] bytes of which
    [required] (at least one header) are needed.  If at most one header
    is left over the state is unchanged.  Otherwise the block keeps
    [required] bytes and a free block of the remaining [sz - required]
    bytes begins right behind it; the new block stands between the
    block and its old successor in both directions, or becomes the tail
    if there was no successor; flags and [prev] of the block, and every
    byte outside the two headers and the successor's [prev], are
    unchanged. *)
Theorem split_block_effect (s : state) (b required sz nx : Z) :
  heap_ok s = true -> s_heap s <= b ->
  get_size s b = Ok sz -> get_next s b = Ok nx ->
  HEADER <= required <= sz -> b + sz <= s_heap s + s_heapsize s ->
  (nx = 0 \/ (b + sz <= nx /\ nx + HEADER <= s_heap s + s_heapsize s)) ->
  let e := b + required in
  exists s',
    split_block_if_necessary s b required = Ok s' /\
    if sz - required <=? HEADER then s' = s
    else
      get_size s' b = Ok required /\ get_next s' b = Ok e /\
      get_size s' e = Ok (sz - required) /\ get_flags s' e = Ok 0 /\
      get_next s' e = Ok nx /\ get_prev s' e = Ok b /\
      (if nx =? 0 then s_tail s' = e
       else get_prev s' nx = Ok e /\ s_tail s' = s_tail s) /\
      get_flags s' b = get_flags s b /\ get_prev s' b = get_prev s b /\
      s_head s' = s_head s /\ s_brk s' = s_brk s /\
      (forall a k,
         a + Z.of_nat k <= b + 8 \/ b + 24 <= a ->
         a + Z.of_nat k <= e \/ e + HEADER <= a ->
         nx = 0 \/ a + Z.of_nat k <= nx \/ nx + 8 <= a ->
         load s' a k = load s a k).
Proof.
  intros Hok Hb Hsz Hnx Hreq Hend Hn e. unfold e. clear e.
  apply heap_ok_elim in Hok. destruct Hok as (Hlo & Hlen & Hhi).
  pose proof (load8_bound _ _ _ Hsz) as Hszr.
  pose proof (load8_bound _ _ _ Hnx) as Hnxr.
  unfold get_size in Hsz. apply load_inv in Hsz as (Esz & _).
  unfold get_next in Hnx. apply load_inv in Hnx as (Enx & _).
  unfold split_block_if_necessary,
    get_size, get_next, get_flags, get_prev, put_size, put_next, put_prev, put_flags.
  do_load. rewrite <- Esz.
  assert (Ew : wrap (sz - required) = sz - required) by (apply wrap_small; consts; lia).
  rewrite Ew.
  destruct (Z.leb_spec (sz - required) HEADER) as [Hsmall|Hbig].
  - exists s. split; reflexivity.
  - assert (Ee : wrap (b + required) = b + required) by (apply wrap_small; consts; lia).
    rewrite Ee.
    do_store. do_store. do_store. do_load. frame. rewrite <- Enx.
    do_store. do_store. do_load. frame. rewrite <- Enx.
    destruct (Z.eqb_spec nx 0) as [Hz|Hnz]; simpl negb; cbv iota.
    + rewrite obind_Ok. fields. rewrite store_ok by in_heap. fields.
      eexists. split; [reflexivity|]. fields.
      do 6 (split; [read_back|]). split; [reflexivity|].
      split; [unfold load, valid; fields; frame; reflexivity|].
      split; [unfold load, valid; fields; frame; reflexivity|].
      split; [reflexivity|]. split; [reflexivity|].
      intros a k ? ? ?. unfold load, valid. fields. frame. reflexivity.
    + destruct Hn as [?|[Hn1 Hn2]]; [lia|].
      do_store. rewrite store_ok by in_heap. fields.
      eexists. split; [reflexivity|]. fields.
      do 6 (split; [read_back|]). split; [split; [read_back|reflexivity]|].
      split; [unfold load, valid; fields; frame; reflexivity|].
      split; [unfold load, valid; fields; frame; reflexivity|].
      split; [reflexivity|]. split; [reflexivity|].
      intros a k ? ? ?. unfold load, valid. fields. frame. reflexivity.
Qed.

Lemma split_block_effect_witness :
  let s := state_after 4 [Allocate 32] in
  let e := 65600 + 96 in
  exists s',
    split_block_if_necessary s 65600 96 = Ok s' /\
    if 65472 - 96 <=? HEADER then s' = s
    else
      get_size s' 65600 = Ok 96 /\ get_next s' 65600 = Ok e /\
      get_size s' e = Ok (65472 - 96) /\ get_flags s' e = Ok 0 /\
      get_next s' e = Ok 0 /\ get_prev s' e = Ok 65600 /\
      (if 0 =? 0 then s_tail s' = e
       else get_prev s' 0 = Ok e /\ s_tail s' = s_tail s) /\
      get_flags s' 65600 = get_flags s 65600 /\ get_prev s' 65600 = get_prev s 65600 /\
      s_head s' = s_head s /\ s_brk s' = s_brk s /\
      (forall a k,
         a + Z.of_nat k <= 65600 + 8 \/ 65600 + 24 <= a ->
         a + Z.of_nat k <= e \/ e + HEADER <= a ->
         0 = 0 \/ a + Z.of_nat k <= 0 \/ 0 + 8 <= a ->
         load s' a k = load s a k).
Proof.
  apply (split_block_effect (state_after 4 [Allocate 32]) 65600 96 65472 0).
  - vm_compute. reflexivity.
  - vm_compute. discriminate.
  - vm_compute. reflexivity.
  - vm_compute. reflexivity.
  - unfold HEADER. lia.
  - vm_compute. discriminate.
  - left. reflexivity.
Defined.

(** ** [coalesce_if_necessary] *)

(** What [coalesce_if_necessary] does when the block and its successor
    are both free. *)
Lemma coalesce_absorb_effect s b sz nx nsz nn :
  heap_ok s = true -> s_heap s <= b ->
  is_allocated s b = Ok false ->
  get_size s b = Ok sz -> get_next s b = Ok nx ->
  nx <> 0 -> b + HEADER <= nx ->
  is_allocated s nx = Ok false ->
  get_size s nx = Ok nsz -> get_next s nx = Ok nn ->
  exists s',
    coalesce_if_necessary s b = Ok s' /\
    get_size s' b = Ok (wrap (sz + nsz)) /\ get_next s' b = Ok nn /\
    s_tail s' = (if nn =? 0 then b else s_tail s) /\
    s_head s' = s_head s /\ s_brk s' = s_brk s /\
    s_heap s' = s_heap s /\ s_heapsize s' = s_heapsize s /\
    errno s' = errno s /\ stderr_log s' = stderr_log s /\
    (forall a k,
       a + Z.of_nat k <= b + 8 \/ b + 24 <= a ->
       a + Z.of_nat k <= nx \/ nx + 8 <= a ->
       load s' a k = load s a k).
Proof.
  intros Hok Hb Hal Hsz Hnx Hnz Hord Haln Hnsz Hnn.
  apply heap_ok_elim in Hok. destruct Hok as (Hlo & Hlen & Hhi).
  pose proof (load8_bound _ _ _ Hnn) as Hnnr.
  pose proof (wrap_range (sz + nsz)) as Hsum.
  unfold coalesce_if_necessary. rewrite Hal, obind_Ok. cbv iota.
  rewrite Hnx, obind_Ok. apply Z.eqb_neq in Hnz. rewrite Hnz.
  rewrite Haln, obind_Ok. cbv iota.
  rewrite Hsz, !obind_Ok, Hnsz, obind_Ok.
  unfold get_size in Hsz, Hnsz. unfold get_next in Hnx, Hnn.
  apply load_inv in Hsz as (Esz & Hs1 & Hs2). apply load_inv in Hnsz as (Ensz & Hs3 & Hs4).
  apply load_inv in Hnx as (Enx & Hs5 & Hs6). apply load_inv in Hnn as (Enn & Hs7 & Hs8).
  simpl Z.of_nat in *.
  unfold get_size, get_next, get_flags, get_prev, put_size, put_next, put_prev, put_flags.
  do_store. do_load. frame. rewrite <- Enx.
  do_load. frame. rewrite <- Enn.
  destruct (Z.eqb_spec nn 0) as [Hz|Hnnz]; simpl negb; cbv iota;
    repeat (first [ rewrite obind_Ok
                  | rewrite load_ok by in_heap
                  | rewrite store_ok by in_heap ];
            fields; frame; rewrite <- ?Enx, <- ?Enn);
    (eexists; split; [reflexivity|]; fields;
     split; [read_back|]; split; [read_back|];
     do 7 (split; [reflexivity|]);
     intros a k ? ?; unfold load, valid; fields; frame; reflexivity).
Qed.

(** X6.  When a free block is followed by a free block,
    [coalesce_if_necessary] gives the block the sum of the two sizes and
    the successor's [next], and makes it the tail if the successor was
    the last block.  Nothing else in the list is written: in
    particular the [prev] field of the block after the absorbed one
    keeps the value it had. *)
Theorem coalesce_absorbs_successor (s : state) (b sz nx nsz nn : Z) :
  heap_ok s = true -> s_heap s <= b ->
  is_allocated s b = Ok false ->
  get_size s b = Ok sz -> get_next s b = Ok nx ->
  nx <> 0 -> b + HEADER <= nx ->
  is_allocated s nx = Ok false ->
  get_size s nx = Ok nsz -> get_next s nx = Ok nn ->
  (nn = 0 \/ nx + HEADER <= nn) ->
  exists s',
    coalesce_if_necessary s b = Ok s' /\
    get_size s' b = Ok (wrap (sz + nsz)) /\ get_next s' b = Ok nn /\
    is_allocated s' b = Ok false /\
    s_tail s' = (if nn =? 0 then b else s_tail s) /\
    s_head s' = s_head s /\
    (nn <> 0 -> get_prev s' nn = get_prev s nn) /\
    (forall a k,
       a + Z.of_nat k <= b + 8 \/ b + 24 <= a ->
       a + Z.of_nat k <= nx \/ nx + 8 <= a ->
       load s' a k = load s a k).
Proof.
  intros Hok Hb Hal Hsz Hnx Hnz Hord Haln Hnsz Hnn Hnnord.
  destruct (coalesce_absorb_effect s b sz nx nsz nn Hok Hb Hal Hsz Hnx Hnz Hord Haln Hnsz Hnn)
    as (s' & Hc & H1 & H2 & H3 & H4 & _ & _ & _ & _ & _ & Hframe).
  exists s'. split; [exact Hc|]. split; [exact H1|]. split; [exact H2|].
  split; [|split; [exact H3|split; [exact H4|split; [|exact Hframe]]]].
  - unfold is_allocated, get_flags in *. rewrite Hframe; [exact Hal| |];
      consts; simpl Z.of_nat; lia.
  - intros Hnnz. unfold get_prev. apply Hframe; consts; simpl Z.of_nat; lia.
Qed.

Lemma coalesce_absorbs_successor_witness :
  let s := flag_cleared
             (state_after 6 [Allocate 32; Allocate 32; Allocate 32; Allocate 32;
                             Allocate 32; Release 2]) 65760 in
  exists s',
    coalesce_if_necessary s 65664 = Ok s' /\
    get_size s' 65664 = Ok (wrap (64 + 64)) /\ get_next s' 65664 = Ok 65792 /\
    is_allocated s' 65664 = Ok false /\
    s_tail s' = (if 65792 =? 0 then 65664 else s_tail s) /\
    s_head s' = s_head s /\
    (65792 <> 0 -> get_prev s' 65792 = get_prev s 65792) /\
    (forall a k,
       a + Z.of_nat k <= 65664 + 8 \/ 65664 + 24 <= a ->
       a + Z.of_nat k <= 65728 \/ 65728 + 8 <= a ->
       load s' a k = load s a k).
Proof.
  apply (coalesce_absorbs_successor
           (flag_cleared
              (state_after 6 [Allocate 32; Allocate 32; Allocate 32; Allocate 32;
                              Allocate 32; Release 2]) 65760)
           65664 64 65728 64 65792).
  - vm_compute. reflexivity.
  - vm_compute. discriminate.
  - vm_compute. reflexivity.
  - vm_compute. reflexivity.
  - vm_compute. reflexivity.
  - lia.
  - unfold HEADER. lia.
  - vm_compute. reflexivity.
  - vm_compute. reflexivity.
  - vm_compute. reflexivity.
  - right. unfold HEADER. lia.
Defined.


(** ** The layout of the heap under [malloc] *)

Lemma layout_tiles s l : layout s l = true <-> tiles s l.
Proof.
  unfold layout, tiles, linked. rewrite !andb_true_iff, forallb_forall. split.
  - intros [[Hwf Hh] Hall]. split; [split; [exact Hwf|]|split; [|split]].
    + destruct (Z.eqb_spec (s_head s) 0) as [E|E]; [left; exact E|right].
      apply andb_true_iff in Hh as [Hh Hn]. apply andb_true_iff in Hh as [_ Hin].
      apply existsb_exists in Hin as (x & Hx & Ex). apply Z.eqb_eq in Ex. subst x.
      split; [apply list_elem_of_In; exact Hx|].
      destruct (get_next s (s_tail s)) as [nx| |]; try discriminate.
      apply Z.eqb_eq in Hn. subst nx. reflexivity.
    + intros E. rewrite E in Hh. simpl in Hh. apply Z.eqb_eq. exact Hh.
    + intros E. apply Z.eqb_neq in E. rewrite E in Hh.
      apply andb_true_iff in Hh as [Hh _]. apply andb_true_iff in Hh as [Hh _].
      apply Z.eqb_eq. exact Hh.
    + intros x Hx. apply Hall. apply list_elem_of_In. exact Hx.
  - intros ([Hwf Htl] & H0 & H1 & Hall). split; [split; [exact Hwf|]|].
    + destruct (Z.eqb_spec (s_head s) 0) as [E|E].
      * apply Z.eqb_eq. apply H0. exact E.
      * destruct Htl as [?|[Hin Hn]]; [contradiction|].
        rewrite Hn, Z.eqb_refl, andb_true_r. apply andb_true_iff. split.
        -- apply Z.eqb_eq. apply H1. exact E.
        -- apply existsb_exists. exists (s_tail s).
           split; [apply list_elem_of_In; exact Hin|apply Z.eqb_refl].
    + intros x Hx. apply Hall. apply list_elem_of_In. exact Hx.
Qed.

Lemma tileb_elim s x :
  tileb s x = true ->
  exists sz nx,
    get_size s x = Ok sz /\ get_next s x = Ok nx /\
    sz mod HEADER = 0 /\ x + sz = (if nx =? 0 then cur_brk s else nx).
Proof.
  unfold tileb. destruct (get_size s x) as [sz| |]; try discriminate.
  destruct (get_next s x) as [nx| |]; try discriminate.
  rewrite andb_true_iff, !Z.eqb_eq. intros [H1 H2]. exists sz, nx. auto.
Qed.

Lemma tileb_intro s x sz nx :
  get_size s x = Ok sz -> get_next s x = Ok nx ->
  sz mod HEADER = 0 -> x + sz = (if nx =? 0 then cur_brk s else nx) ->
  tileb s x = true.
Proof.
  intros H1 H2 H3 H4. unfold tileb. rewrite H1, H2.
  apply andb_true_iff. split; apply Z.eqb_eq; assumption.
Qed.

Lemma elem_of_insert_after_inv t e l x :
  x ∈ insert_after t e l -> x = e \/ x ∈ l.
Proof.
  induction l as [|y l IH]; simpl; intros Hin; [inversion Hin|].
  destruct (y =? t).
  - apply elem_of_cons in Hin as [->|Hin]; [right; left|].
    apply elem_of_cons in Hin as [->|Hin]; [left; reflexivity|right; right; exact Hin].
  - apply elem_of_cons in Hin as [->|Hin]; [right; left|].
    destruct (IH Hin) as [?|?]; [left; assumption|right; right; assumption].
Qed.

(** The walk of the code's list visits exactly the headers of a chain. *)
Lemma walk_chain s l : forall fuel b,
  0 < s_heap s -> chainb s b l = true -> (length l < fuel)%nat ->
  walk fuel s b = Ok l.
Proof.
  induction l as [|x l IH]; intros fuel b Hpos Hc Hfuel;
    (destruct fuel as [|fuel]; [simpl in Hfuel; lia|]).
  - apply chainb_nil_elim in Hc. subst b. reflexivity.
  - apply chainb_cons_elim in Hc as (-> & Hlo & sz & nx & _ & Hnx & _ & _ & _ & Hrest).
    simpl. destruct (Z.eqb_spec x 0); [lia|].
    rewrite Hnx, obind_Ok. rewrite (IH fuel nx Hpos Hrest) by (simpl in Hfuel; lia).
    reflexivity.
Qed.

(** In a tiled chain the sizes add up to the distance from the first
    header to the break. *)
Lemma tiled_chain_sum s l : forall b,
  0 < s_heap s -> chainb s b l = true -> (forall x, x ∈ l -> tileb s x = true) ->
  sum_sizes s l = Ok (if b =? 0 then 0 else cur_brk s - b).
Proof.
  induction l as [|x l IH]; intros b Hpos Hc Hall.
  - apply chainb_nil_elim in Hc. subst b. reflexivity.
  - pose proof (Hall x ltac:(left)) as Ht. apply tileb_elim in Ht as (sz & nx & Hsz & Hnx & _ & Hend).
    apply chainb_cons_elim in Hc as (-> & Hlo & sz' & nx' & Hsz' & Hnx' & _ & _ & _ & Hrest).
    assert (nx' = nx) by congruence. subst nx'.
    simpl. rewrite Hsz, obind_Ok.
    rewrite (IH nx Hpos Hrest) by (intros y Hy; apply Hall; right; exact Hy).
    rewrite obind_Ok. destruct (Z.eqb_spec x 0); [lia|].
    destruct (Z.eqb_spec nx 0); f_equal; lia.
Qed.

Lemma tiles_sum s l :
  tiles s l -> sum_sizes s l = Ok (advanced s) /\ block_list (S (length l)) s = Ok l.
Proof.
  intros ([Hwf Htl] & H0 & H1 & Hall).
  apply well_formed_elim in Hwf as (Hok & Hb1 & Hb2 & Hc & Htail).
  pose proof (heap_ok_elim _ Hok) as (Hlo & Hlen & Hhi).
  split.
  - rewrite (tiled_chain_sum s l (s_head s)) by (assumption || lia).
    unfold advanced. destruct (Z.eqb_spec (s_head s) 0) as [E|E]; f_equal.
    + rewrite (H0 E). lia.
    + rewrite (H1 E). reflexivity.
  - unfold block_list. apply walk_chain; [lia|assumption|lia].
Qed.

(** Taking a block of a linked list: the list that results, and what
    has changed in memory. *)
Lemma malloc_take_list s l b req sz nx :
  linked s l -> b ∈ l ->
  get_size s b = Ok sz -> get_next s b = Ok nx -> HEADER <= req <= sz ->
  exists s' l',
    malloc_take s b req = Ok (s', b + HEADER) /\ linked s' l' /\
    (length l' <= S (length l))%nat /\
    cur_brk s' = cur_brk s /\ s_heap s' = s_heap s /\
    s_heapsize s' = s_heapsize s /\ s_head s' = s_head s /\
    (forall a k,
       a + Z.of_nat k <= b + 8 \/ b + sz <= a ->
       nx = 0 \/ a + Z.of_nat k <= nx \/ nx + 8 <= a ->
       load s' a k = load s a k) /\
    (forall x, x ∈ l -> x <> b ->
       get_size s' x = get_size s x /\ get_next s' x = get_next s x) /\
    ((l' = l /\ get_size s' b = Ok sz /\ get_next s' b = Ok nx) \/
     (l' = insert_after b (b + req) l /\
      get_size s' b = Ok req /\ get_next s' b = Ok (b + req) /\
      get_size s' (b + req) = Ok (sz - req) /\ get_next s' (b + req) = Ok nx)).
Proof.
  intros [Hwf Htl] Hb Hsz Hnx Hreq.
  apply well_formed_elim in Hwf as (Hok & Hb1 & Hb2 & Hc & Htail).
  pose proof (heap_ok_elim _ Hok) as (Hlo & Hlen & Hhi).
  assert (Hpos : 0 < s_heap s) by lia.
  destruct (chainb_elem s l _ b Hpos Hc Hb)
    as (_ & Hblo & sz' & nx' & Hsz' & Hnx' & Hmin & Hend & Hord).
  assert (sz' = sz) by congruence. assert (nx' = nx) by congruence. subst sz' nx'.
  assert (Hhead : s_head s <> 0) by (eapply chainb_nonempty_head; eassumption).
  destruct Htl as [?|[Htin Htnx]]; [contradiction|].
  assert (Hn : nx = 0 \/ (b + sz <= nx /\ nx + HEADER <= s_heap s + s_heapsize s)).
  { destruct Hord as [?|[Hge Hin]]; [left; assumption|right]. split; [assumption|].
    destruct (chainb_elem s l _ nx Hpos Hc Hin) as (_ & _ & ? & ? & _ & _ & ? & ? & _).
    lia. }
  destruct (malloc_take_effect s b req sz nx Hok Hblo Hsz Hnx Hreq ltac:(lia) Hn)
    as (s' & Ht & Elo & Elen & Ebrk & Ehead & Hframe & Hcase).
  assert (Ecb : cur_brk s' = cur_brk s) by (apply cur_brk_same; assumption).
  assert (Hok' : heap_ok s' = true) by (rewrite (heap_ok_same s s'); assumption).
  assert (Hothers : forall x, x ∈ l -> x <> b ->
            get_size s' x = get_size s x /\ get_next s' x = get_next s x).
  { intros x Hx Hxb.
    destruct (chainb_elem s l _ x Hpos Hc Hx) as (_ & _ & szx & nxx & Hszx & _ & Hminx & _).
    pose proof (chainb_separated s l _ x b szx sz Hpos Hc Hx Hb Hxb Hszx Hsz) as Hsep.
    assert (Hsepn : nx = 0 \/ x = nx \/ x + szx <= nx \/ nx + HEADER <= x).
    { destruct Hord as [?|[_ Hin]]; [left; assumption|right].
      destruct (Z.eq_dec x nx) as [?|Hne]; [left; assumption|right].
      destruct (chainb_elem s l _ nx Hpos Hc Hin) as (_ & _ & szn & ? & Hszn & _ & ? & _).
      pose proof (chainb_separated s l _ x nx szx szn Hpos Hc Hx Hin Hne Hszx Hszn).
      lia. }
    unfold get_size, get_next.
    split; apply Hframe; consts; simpl Z.of_nat; lia. }
  destruct Hcase as [(Hsmall & Hs1 & Hn1 & Etail)|(Hbig & Hs1 & Hn1 & Hs2 & Hn2 & Etail)].
  - exists s', l. split; [exact Ht|].
    assert (Hall : forall x, x ∈ l ->
              get_size s' x = get_size s x /\ get_next s' x = get_next s x).
    { intros x Hx. destruct (Z.eq_dec x b) as [->|Hne]; [split; congruence|].
      apply Hothers; assumption. }
    split; [split|].
    + apply well_formed_intro; [exact Hok'|lia|lia| |].
      * rewrite Ehead. apply (chainb_frame s s'); try assumption. lia.
      * right. rewrite Etail, Ecb, Elo. destruct Htail as [?|?]; [contradiction|assumption].
    + right. rewrite Etail. split; [assumption|].
      rewrite (proj2 (Hall _ Htin)). exact Htnx.
    + split; [lia|]. do 4 (split; [assumption|]). split; [exact Hframe|].
      split; [exact Hothers|]. left. auto.
  - exists s', (insert_after b (b + req) l). split; [exact Ht|].
    split; [split|].
    + apply well_formed_intro; [exact Hok'|lia|lia| |].
      * rewrite Ehead.
        apply (chainb_insert_after s s' l (s_head s) b sz nx req);
          try assumption; try (consts; lia).
      * right. rewrite Etail, Ecb, Elo.
        destruct (Z.eqb_spec nx 0); [consts; lia|].
        destruct Htail as [?|?]; [contradiction|assumption].
    + right. rewrite Etail. destruct (Z.eqb_spec nx 0) as [->|Hnz].
      * split; [apply elem_of_insert_after_new; assumption|exact Hn2].
      * split; [apply elem_of_insert_after; assumption|].
        assert (Hne : s_tail s <> b) by (intros E; rewrite E in Htnx; congruence).
        rewrite (proj2 (Hothers _ Htin Hne)). exact Htnx.
    + split; [apply length_insert_after|]. do 4 (split; [assumption|]).
      split; [exact Hframe|]. split; [exact Hothers|]. right. auto 10.
Qed.

Lemma malloc_take_tiles s l b req sz nx :
  tiles s l -> b ∈ l ->
  get_size s b = Ok sz -> get_next s b = Ok nx ->
  HEADER <= req <= sz -> req mod HEADER = 0 ->
  exists s' l',
    malloc_take s b req = Ok (s', b + HEADER) /\ tiles s' l' /\
    (length l' <= S (length l))%nat /\
    (forall a k,
       a + Z.of_nat k <= b + 8 \/ b + sz <= a ->
       nx = 0 \/ a + Z.of_nat k <= nx \/ nx + 8 <= a ->
       load s' a k = load s a k) /\
    b ∈ l'.
Proof.
  intros (Hl & H0 & H1 & Hall) Hb Hsz Hnx Hreq Hmod.
  destruct (malloc_take_list s l b req sz nx Hl Hb Hsz Hnx Hreq)
    as (s' & l' & Ht & Hl' & Hlen & Ecb & Elo & Elen & Ehead & Hframe & Hothers & Hcase).
  assert (Hbl : b ∈ l').
  { destruct Hcase as [(-> & _)|(-> & _)]; [exact Hb|apply elem_of_insert_after; exact Hb]. }
  exists s', l'. split; [exact Ht|].
  split; [|split; [exact Hlen|split; [exact Hframe|exact Hbl]]].
  destruct (tileb_elim _ _ (Hall b Hb)) as (sz' & nx' & Hsz' & Hnx' & Hszmod & Hbend).
  assert (sz' = sz) by congruence. assert (nx' = nx) by congruence. subst sz' nx'.
  assert (Hold : forall x, x ∈ l -> x <> b -> tileb s' x = true).
  { intros x Hx Hne. destruct (tileb_elim _ _ (Hall x Hx)) as (szx & nxx & E1 & E2 & E3 & E4).
    destruct (Hothers x Hx Hne) as [F1 F2].
    apply (tileb_intro s' x szx nxx); try congruence. rewrite Ecb. exact E4. }
  split; [exact Hl'|]. rewrite Ehead, Ecb, Elo. split; [exact H0|]. split; [exact H1|].
  destruct Hcase as [(-> & Hs1 & Hn1)|(-> & Hs1 & Hn1 & Hs2 & Hn2)].
  - intros x Hx. destruct (Z.eq_dec x b) as [->|Hne]; [|apply Hold; assumption].
    apply (tileb_intro s' b sz nx); try assumption. rewrite Ecb. exact Hbend.
  - intros x Hx. destruct (Z.eq_dec x b) as [->|Hne].
    + apply (tileb_intro s' b req (b + req)); try assumption.
      destruct (Z.eqb_spec (b + req) 0); [|reflexivity].
      exfalso. clear - Hl e Hb Hreq.
      destruct Hl as [Hwf _]. apply well_formed_elim in Hwf as (Hok & _ & _ & Hc & _).
      apply heap_ok_elim in Hok as (? & _).
      destruct (chainb_elem s l _ b ltac:(lia) Hc Hb) as (_ & ? & _). consts. lia.
    + destruct (Z.eq_dec x (b + req)) as [->|Hne2].
      * apply (tileb_intro s' (b + req) (sz - req) nx); try assumption.
        -- rewrite Zminus_mod, Hszmod, Hmod. reflexivity.
        -- rewrite Ecb. rewrite <- Hbend. lia.
      * apply elem_of_insert_after_inv in Hx as [?|Hx]; [contradiction|].
        apply Hold; assumption.
Qed.

(** Extending a linked list by a block from [sbrk]: the list that
    results, and what has changed in memory. *)
Lemma alloc_block_list s l req :
  linked s l -> HEADER <= req < HALF -> extension_fails s req = false ->
  exists s',
    alloc_block s req = Ok (s', cur_brk s) /\
    linked s' (l ++ [cur_brk s]) /\
    get_size s' (cur_brk s) = Ok (Z.max req MIN_ALLOC) /\
    get_next s' (cur_brk s) = Ok 0 /\
    cur_brk s' = cur_brk s + Z.max req MIN_ALLOC /\
    s_heap s' = s_heap s /\ s_heapsize s' = s_heapsize s /\
    s_head s' = (if s_head s =? 0 then cur_brk s else s_head s) /\
    (forall a k,
       a + Z.of_nat k <= cur_brk s ->
       s_head s = 0 \/ a + Z.of_nat k <= s_tail s + 8 \/ s_tail s + 16 <= a ->
       load s' a k = load s a k) /\
    (forall x, x ∈ l ->
       get_size s' x = get_size s x /\
       (x <> s_tail s -> get_next s' x = get_next s x)) /\
    (s_head s <> 0 -> get_next s' (s_tail s) = Ok (cur_brk s)).
Proof.
  intros [Hwf Htl] Hreq Hfit.
  apply well_formed_elim in Hwf as (Hok & Hb1 & Hb2 & Hc & Htail).
  pose proof (heap_ok_elim _ Hok) as (Hlo & Hlen & Hhi).
  assert (Hpos : 0 < s_heap s) by lia.
  destruct (alloc_block_effect s req Hok Hb1 Hb2 Htail Hreq Hfit)
    as (s' & Ha & Elo & Elen & Ebrk & Etail & Ehead & Hsz & Hnx & Hlink & Hframe).
  set (bs := Z.max req MIN_ALLOC) in *.
  assert (Hbs : MIN_ALLOC <= bs) by (unfold bs; lia).
  assert (Hroom : cur_brk s + bs <= s_heap s + s_heapsize s).
  { unfold extension_fails in Hfit. apply Z.ltb_ge in Hfit. fold bs in Hfit. lia. }
  assert (Ecb : cur_brk s' = cur_brk s + bs).
  { apply cur_brk_after_extension; [assumption|consts; lia]. }
  assert (Hok' : heap_ok s' = true) by (rewrite (heap_ok_same s s'); assumption).
  exists s'. split; [exact Ha|].
  destruct (Z.eqb_spec (s_head s) 0) as [Hz|Hnz].
  - rewrite Hz in Hc. apply chainb_empty_head in Hc; [|assumption]. subst l.
    simpl app. split; [split|].
    + apply well_formed_intro; [exact Hok'|consts; lia|lia| |].
      * rewrite Ehead.
        apply (chainb_cons_intro s' (cur_brk s) bs 0);
          try assumption; try (consts; lia); reflexivity.
      * right. rewrite Etail. consts. lia.
    + right. rewrite Etail. split; [left|exact Hnx].
    + do 6 (split; [assumption|]). split; [exact Hframe|].
      split; [intros x Hx; inversion Hx|intros; contradiction].
  - destruct Htl as [?|[Htin Htnx]]; [contradiction|].
    destruct Hlink as [?|Hlink]; [contradiction|].
    destruct (chainb_elem s l _ _ Hpos Hc Htin)
      as (_ & Htlo & szt & ? & Hszt & _ & Hmint & Hendt & _).
    assert (Hsame : forall y szy, y ∈ l -> get_size s y = Ok szy ->
              HEADER <= szy -> y + szy <= cur_brk s ->
              (y = s_tail s \/ y + szy <= s_tail s \/ s_tail s + szt <= y) ->
              get_size s' y = get_size s y /\
              (y <> s_tail s -> get_next s' y = get_next s y)).
    { intros y szy Hy Hszy Hminy Hendy Hsep. unfold get_size, get_next.
      split; [|intros Hne]; apply Hframe; consts; simpl Z.of_nat; lia. }
    assert (Hall : forall y, y ∈ l ->
              get_size s' y = get_size s y /\
              (y <> s_tail s -> get_next s' y = get_next s y)).
    { intros y Hy.
      destruct (chainb_elem s l _ y Hpos Hc Hy)
        as (_ & _ & szy & ? & Hszy & _ & Hminy & Hendy & _).
      apply (Hsame y szy Hy Hszy Hminy Hendy).
      destruct (Z.eq_dec y (s_tail s)) as [?|Hne]; [left; assumption|right].
      apply (chainb_separated s l _ y (s_tail s) szy szt Hpos Hc Hy Htin Hne Hszy Hszt). }
    split; [split|].
    + apply well_formed_intro; [exact Hok'|consts; lia|lia| |].
      * rewrite Ehead.
        apply (chainb_append s s' l (s_head s) (s_tail s) (cur_brk s) bs szt);
          try assumption; try (consts; lia); try reflexivity.
        -- rewrite <- Hszt. apply (Hall (s_tail s) Htin).
        -- intros y Hy Hne. destruct (Hall y Hy) as [E1 E2].
           split; [exact E1|apply E2; exact Hne].
      * right. rewrite Etail. consts. lia.
    + right. rewrite Etail. split; [apply elem_of_app; right; left|exact Hnx].
    + do 6 (split; [assumption|]). split; [exact Hframe|].
      split; [exact Hall|intros _; exact Hlink].
Qed.

Lemma alloc_block_tiles s l req :
  tiles s l -> HEADER <= req < HALF -> req mod HEADER = 0 ->
  extension_fails s req = false ->
  exists s',
    alloc_block s req = Ok (s', cur_brk s) /\
    tiles s' (l ++ [cur_brk s]) /\
    get_size s' (cur_brk s) = Ok (Z.max req MIN_ALLOC) /\
    get_next s' (cur_brk s) = Ok 0 /\
    (forall a k,
       a + Z.of_nat k <= cur_brk s ->
       s_head s = 0 \/ a + Z.of_nat k <= s_tail s + 8 \/ s_tail s + 16 <= a ->
       load s' a k = load s a k).
Proof.
  intros (Hl & H0 & H1 & Htiles) Hreq Hmod Hfit.
  destruct (alloc_block_list s l req Hl Hreq Hfit)
    as (s' & Ha & Hl' & Hsz & Hnx & Ecb & Elo & Elen & Ehead & Hframe & Hall & Hlink).
  exists s'. split; [exact Ha|]. split; [|split; [exact Hsz|split; [exact Hnx|exact Hframe]]].
  pose proof Hl as [Hwf Htl].
  apply well_formed_elim in Hwf as (Hok & Hb1 & Hb2 & Hc & Htail).
  pose proof (heap_ok_elim _ Hok) as (Hlo & Hlen & Hhi).
  assert (Hpos : 0 < s_heap s) by lia.
  set (bs := Z.max req MIN_ALLOC) in *.
  assert (Hbsmod : bs mod HEADER = 0).
  { unfold bs. destruct (Z.max_spec req MIN_ALLOC) as [[_ ->]|[_ ->]];
      [reflexivity|exact Hmod]. }
  assert (Hnew : tileb s' (cur_brk s) = true).
  { apply (tileb_intro s' (cur_brk s) bs 0); try assumption. simpl. lia. }
  split; [exact Hl'|]. rewrite Ehead, Elo.
  split; [|split].
  - intros E. destruct (Z.eqb_spec (s_head s) 0); lia.
  - intros _. destruct (Z.eqb_spec (s_head s) 0) as [E|E]; [|apply H1; exact E].
    apply H0. exact E.
  - intros x Hx. apply elem_of_app in Hx as [Hx|Hx];
      [|apply list_elem_of_singleton in Hx; subst x; exact Hnew].
    destruct (tileb_elim _ _ (Htiles x Hx)) as (szx & nxx & E1 & E2 & E3 & E4).
    assert (Hhead : s_head s <> 0) by (eapply chainb_nonempty_head; eassumption).
    destruct Htl as [?|[Htin Htnx]]; [contradiction|].
    destruct (Hall x Hx) as [F1 F2].
    destruct (Z.eq_dec x (s_tail s)) as [->|Hne].
    + assert (nxx = 0) by congruence. subst nxx. simpl in E4.
      apply (tileb_intro s' (s_tail s) szx (cur_brk s)); try congruence.
      * apply Hlink. exact Hhead.
      * destruct (Z.eqb_spec (cur_brk s) 0); lia.
    + apply (tileb_intro s' x szx nxx); try congruence.
      * rewrite F2 by exact Hne. exact E2.
      * destruct (Z.eqb_spec nxx 0) as [->|Hnn]; [|exact E4].
        exfalso.
        destruct (tileb_elim _ _ (Htiles _ Htin)) as (szt & nxt & T1 & T2 & T3 & T4).
        assert (nxt = 0) by congruence. subst nxt. simpl in T4.
        destruct (chainb_elem s l _ x Hpos Hc Hx) as (_ & _ & qx & ? & Q1 & _ & Q2 & _).
        destruct (chainb_elem s l _ _ Hpos Hc Htin) as (_ & _ & qt & ? & Q3 & _ & Q4 & _).
        pose proof (chainb_separated s l _ x (s_tail s) szx szt Hpos Hc Hx Htin Hne E1 T1).
        assert (qx = szx) by congruence. assert (qt = szt) by congruence.
        consts. lia.
Qed.

Lemma tiles_same s s' l :
  mem s' = mem s -> s_heap s' = s_heap s -> s_heapsize s' = s_heapsize s ->
  s_head s' = s_head s -> s_tail s' = s_tail s -> cur_brk s' = cur_brk s ->
  tiles s l -> tiles s' l.
Proof.
  intros Em Elo Elen Eh Et Ecb (Hl & H0 & H1 & Hall).
  split; [apply (linked_same s); assumption|].
  rewrite Eh, Ecb, Elo. split; [exact H0|]. split; [exact H1|].
  intros x Hx. specialize (Hall x Hx). unfold tileb, get_size, get_next in *.
  rewrite !(load_same_mem s s') by assumption. rewrite Ecb. exact Hall.
Qed.

(** [malloc] on a tiled heap: the heap stays tiled, and no byte behind
    the header of an allocated block changes. *)
Lemma malloc_keeps_tiles (fuel : nat) (s : state) (l : list Z) (n : Z) :
  tiles s l -> (length l < fuel)%nat -> 0 <= n <= HALF - 64 ->
  exists s' r l',
    malloc fuel s n = Ok (s', r) /\ tiles s' l' /\
    (length l' <= length l + 2)%nat /\
    (forall x sz a k,
       x ∈ l -> is_allocated s x = Ok true -> get_size s x = Ok sz ->
       x + HEADER <= a -> a + Z.of_nat k <= x + sz ->
       load s' a k = load s a k) /\
    (r <> 0 -> r - HEADER ∈ l').
Proof.
  intros Ht Hfuel Hn.
  pose proof Ht as (Hl & H0 & H1 & Hall).
  pose proof Hl as [Hwf Htl].
  apply well_formed_elim in Hwf as (Hok & Hb1 & Hb2 & Hc & Htail).
  pose proof (heap_ok_elim _ Hok) as (Hlo & Hlen & Hhi).
  assert (Hpos : 0 < s_heap s) by lia.
  pose proof (required_bounds n Hn) as [Hreq Hmod].
  unfold malloc. fold (required n). set (req := required n) in *.
  destruct (find_block_chain l fuel s (s_head s) req ltac:(lia) Hb2 Hc Hfuel)
    as (b & Hfind & [[-> Hnofit]|(Hbnz & Hbin & Hblo & sz & nx & Hsz & Hnx & Hfit & _ & Hnxb & Hfree)]).
  - rewrite Hfind, obind_Ok. simpl (0 =? 0). cbv iota.
    destruct (extension_fails s req) eqn:Hext.
    + destruct (alloc_block_ok s req Hok Hb1 Hb2 Htail ltac:(consts; lia))
        as [(_ & s1 & Ha & Em & Eh & Et & Elo & Elen & _ & Ecb)|(Hcontra & _)];
        [|congruence].
      rewrite Ha, obind_Ok. simpl (0 =? 0). cbv iota.
      eexists _, _, l. split; [reflexivity|]. split; [|split; [lia|split]].
      * apply (tiles_same s); fields; assumption.
      * intros x szx a k _ _ _ _ _. apply load_same_mem; fields; assumption.
      * intros Hcontra. contradiction Hcontra. reflexivity.
    + destruct (alloc_block_tiles s l req Ht ltac:(consts; lia) Hmod Hext)
        as (s1 & Ha & Ht1 & Hsz1 & Hnx1 & Hframe1).
      rewrite Ha, obind_Ok.
      assert (Hnz : cur_brk s <> 0) by lia.
      apply Z.eqb_neq in Hnz. rewrite Hnz.
      destruct (malloc_take_tiles s1 (l ++ [cur_brk s]) (cur_brk s) req
                  (Z.max req MIN_ALLOC) 0 Ht1
                  ltac:(apply elem_of_app; right; left) Hsz1 Hnx1 ltac:(lia) Hmod)
        as (s2 & l2 & Htk & Ht2 & Hlen2 & Hframe2 & Hin2).
      rewrite Htk. eexists _, _, l2. split; [reflexivity|]. split; [exact Ht2|].
      split; [rewrite length_app in Hlen2; simpl in Hlen2; lia|].
      split; [|intros _; replace (cur_brk s + HEADER - HEADER) with (cur_brk s) by lia;
               exact Hin2].
      intros x szx a k Hx Hal Hszx Ha1 Ha2.
      destruct (chainb_elem s l _ x Hpos Hc Hx) as (_ & _ & qx & ? & Q1 & _ & Q2 & Q3 & _).
      assert (qx = szx) by congruence. subst qx.
      assert (E1 : load s2 a k = load s1 a k).
      { apply Hframe2; [left; lia|left; reflexivity]. }
      rewrite E1. apply Hframe1; [lia|].
      destruct (Z.eq_dec (s_head s) 0) as [?|Hh]; [left; assumption|right].
      destruct Htl as [?|[Htin _]]; [contradiction|].
      destruct (Z.eq_dec x (s_tail s)) as [<-|Hne]; [consts; lia|].
      destruct (chainb_elem s l _ _ Hpos Hc Htin) as (_ & _ & qt & ? & Q4 & _ & Q5 & _).
      pose proof (chainb_separated s l _ x (s_tail s) szx qt Hpos Hc Hx Htin Hne Hszx Q4).
      consts. lia.
  - rewrite Hfind, obind_Ok. apply Z.eqb_neq in Hbnz. rewrite Hbnz.
    destruct (malloc_take_tiles s l b req sz nx Ht Hbin Hsz Hnx ltac:(lia) Hmod)
      as (s2 & l2 & Htk & Ht2 & Hlen2 & Hframe2 & Hin2).
    rewrite Htk. eexists _, _, l2. split; [reflexivity|]. split; [exact Ht2|].
    split; [lia|].
    split; [|intros _; replace (b + HEADER - HEADER) with b by lia; exact Hin2].
    intros x szx a k Hx Hal Hszx Ha1 Ha2.
    assert (Hne : x <> b) by (intros ->; congruence).
    destruct (chainb_elem s l _ x Hpos Hc Hx) as (_ & _ & qx & ? & Q1 & _ & Q2 & _).
    assert (qx = szx) by congruence. subst qx.
    pose proof (chainb_separated s l _ x b szx sz Hpos Hc Hx Hbin Hne Hszx Hsz) as Hsep.
    destruct (chainb_elem s l _ b Hpos Hc Hbin) as (_ & _ & qb & qn & Q3 & Q4 & _ & _ & Q5).
    assert (qn = nx) by congruence. subst qn.
    apply Hframe2; [consts; lia|].
    destruct Q5 as [?|[_ Hnin]]; [left; assumption|right].
    destruct (Z.eq_dec x nx) as [<-|Hnen]; [consts; lia|].
    destruct (chainb_elem s l _ nx Hpos Hc Hnin) as (_ & _ & qm & ? & Q6 & _ & Q7 & _).
    pose proof (chainb_separated s l _ x nx szx qm Hpos Hc Hx Hnin Hnen Hszx Q6).
    consts. lia.
Qed.

Lemma fresh_tiles base size : heap_ok (fresh base size) = true -> tiles (fresh base size) [].
Proof.
  intros Hok. split; [apply fresh_linked; exact Hok|].
  split; [intros _; reflexivity|]. split; [intros H; contradiction H; reflexivity|].
  intros x Hx. inversion Hx.
Qed.

Lemma allocations_keep_tiles (fuel : nat) (ns : list Z) : forall s l ps,
  tiles s l -> Forall (fun n => 0 <= n <= HALF - 64) ns ->
  (length l + 2 * length ns < fuel)%nat ->
  exists s' ps' l',
    serve_all fuel (s, ps) (map Allocate ns) = Ok (s', ps') /\
    tiles s' l' /\ (length l' <= length l + 2 * length ns)%nat /\
    length ps' = (length ps + length ns)%nat.
Proof.
  induction ns as [|n ns IH]; intros s l ps Hl Hns Hfuel.
  - exists s, ps, l. split; [reflexivity|]. split; [exact Hl|simpl; lia].
  - apply Forall_cons in Hns as [Hn Hns]. simpl in Hfuel.
    destruct (malloc_keeps_tiles fuel s l n Hl ltac:(lia) Hn)
      as (s1 & r & l1 & Hm & Hl1 & Hlen1 & _).
    destruct (IH s1 l1 (ps ++ [r]) Hl1 Hns ltac:(lia))
      as (s' & ps' & l' & Hrun & Hl' & Hlen' & Hps).
    exists s', ps', l'. simpl. rewrite Hm, !obind_Ok. split; [exact Hrun|].
    split; [exact Hl'|]. rewrite length_app in Hps. simpl in *. lia.
Qed.

(** X7.  [malloc] keeps the layout of the heap: if the blocks reachable
    from [s_head] tile the region from its start to the break, with
    sizes that are multiples of the header size and [s_tail] the last
    of them, the same holds after the call; the list has grown by at
    most two blocks, and its sizes add up to the bytes by which the
    break has advanced. *)
Theorem malloc_preserves_layout (fuel : nat) (s : state) (l : list Z) (n : Z) :
  layout s l = true -> (length l < fuel)%nat -> 0 <= n <= HALF - 64 ->
  exists s' r l',
    malloc fuel s n = Ok (s', r) /\
    layout s' l' = true /\
    block_list (S (length l')) s' = Ok l' /\
    sum_sizes s' l' = Ok (advanced s') /\
    (length l' <= length l + 2)%nat.
Proof.
  intros Hl Hfuel Hn. apply layout_tiles in Hl.
  destruct (malloc_keeps_tiles fuel s l n Hl Hfuel Hn) as (s' & r & l' & Hm & Ht & Hlen & _).
  exists s', r, l'. split; [exact Hm|]. split; [apply layout_tiles; exact Ht|].
  destruct (tiles_sum s' l' Ht) as [Hsum Hlist].
  split; [exact Hlist|]. split; [exact Hsum|exact Hlen].
Qed.

Lemma malloc_preserves_layout_witness :
  let s := state_after 4 [Allocate 32; Allocate 100] in
  exists s' r l',
    malloc 4 s 50 = Ok (s', r) /\
    layout s' l' = true /\
    block_list (S (length l')) s' = Ok l' /\
    sum_sizes s' l' = Ok (advanced s') /\
    (length l' <= 3 + 2)%nat.
Proof.
  apply (malloc_preserves_layout 4 (state_after 4 [Allocate 32; Allocate 100])
           [65536; 65600; 65760] 50).
  - vm_compute. reflexivity.
  - simpl. lia.
  - unfold HALF. lia.
Defined.

(** X8.  [malloc] on a heap with this layout does not change any byte
    that lies behind the header of a block that is allocated when it is
    called. *)
Theorem malloc_keeps_live_payloads (fuel : nat) (s : state) (l : list Z) (n : Z) :
  layout s l = true -> (length l < fuel)%nat -> 0 <= n <= HALF - 64 ->
  exists s' r,
    malloc fuel s n = Ok (s', r) /\
    forall x sz a k,
      x ∈ l -> is_allocated s x = Ok true -> get_size s x = Ok sz ->
      x + HEADER <= a -> a + Z.of_nat k <= x + sz ->
      load s' a k = load s a k.
Proof.
  intros Hl Hfuel Hn. apply layout_tiles in Hl.
  destruct (malloc_keeps_tiles fuel s l n Hl Hfuel Hn)
    as (s' & r & l' & Hm & _ & _ & Hkeep & _).
  exists s', r. split; [exact Hm|exact Hkeep].
Qed.

Lemma malloc_keeps_live_payloads_witness :
  let s := state_after 4 [Allocate 32; Allocate 100] in
  exists s' r,
    malloc 4 s 50 = Ok (s', r) /\
    forall x sz a k,
      x ∈ [65536; 65600; 65760] -> is_allocated s x = Ok true -> get_size s x = Ok sz ->
      x + HEADER <= a -> a + Z.of_nat k <= x + sz ->
      load s' a k = load s a k.
Proof.
  apply (malloc_keeps_live_payloads 4 (state_after 4 [Allocate 32; Allocate 100])
           [65536; 65600; 65760] 50).
  - vm_compute. reflexivity.
  - simpl. lia.
  - unfold HALF. lia.
Defined.

(** X9.  After any sequence of allocations of admissible sizes from a
    fresh region every call has returned, and the sizes of the blocks
    reachable from [s_head] add up to the bytes by which the break has
    advanced; the blocks tile the region up to the break. *)
Theorem allocations_account_for_break (base size : Z) (ns : list Z) :
  heap_ok (fresh base size) = true ->
  Forall (fun n => 0 <= n <= HALF - 64) ns ->
  let fuel := S (2 * length ns) in
  exists s ps l,
    serve_all fuel (fresh base size, []) (map Allocate ns) = Ok (s, ps) /\
    length ps = length ns /\
    block_list fuel s = Ok l /\
    sum_sizes s l = Ok (advanced s) /\
    layout s l = true.
Proof.
  intros Hok Hns fuel.
  destruct (allocations_keep_tiles fuel ns (fresh base size) [] []
              (fresh_tiles _ _ Hok) Hns ltac:(unfold fuel; simpl; lia))
    as (s & ps & l & Hrun & Ht & Hlen & Hps).
  exists s, ps, l. split; [exact Hrun|]. split; [exact Hps|].
  destruct (tiles_sum s l Ht) as [Hsum _].
  split; [|split; [exact Hsum|apply layout_tiles; exact Ht]].
  destruct Ht as ([Hwf _] & _).
  apply well_formed_elim in Hwf as (Hok' & _ & _ & Hc & _).
  apply heap_ok_elim in Hok' as (? & _).
  unfold block_list. apply walk_chain; [lia|exact Hc|unfold fuel; simpl in *; lia].
Qed.

Lemma allocations_account_for_break_witness :
  let fuel := S (2 * length [100; 200; 50]) in
  exists s ps l,
    serve_all fuel (fresh 65536 8388608, []) (map Allocate [100; 200; 50]) = Ok (s, ps) /\
    length ps = length [100; 200; 50] /\
    block_list fuel s = Ok l /\
    sum_sizes s l = Ok (advanced s) /\
    layout s l = true.
Proof.
  apply (allocations_account_for_break 65536 8388608 [100; 200; 50]).
  - vm_compute. reflexivity.
  - unfold HALF. repeat constructor; lia.
Defined.

(** ** [malloc]: first fit *)

Lemma find_block_first l : forall fuel s b req,
  0 < s_heap s -> cur_brk s <= s_heap s + s_heapsize s ->
  chainb s b l = true -> (length l < fuel)%nat ->
  exists r,
    find_block fuel s b req = Ok r /\
    ((r = 0 /\ no_fit s l req = true) \/
     (r <> 0 /\ exists l1 l2,
        l = l1 ++ r :: l2 /\ no_fit s l1 req = true /\ fitsb s r req = true)).
Proof.
  induction l as [|x l IH]; intros fuel s b req Hpos Hbrk Hc Hfuel;
    (destruct fuel as [|fuel]; [simpl in Hfuel; lia|]).
  - apply chainb_nil_elim in Hc. subst b.
    exists 0. split; [reflexivity|]. left. split; reflexivity.
  - apply chainb_cons_elim in Hc as (-> & Hlo & sz & nx & Hsz & Hnx & Hmin & Hend & Hord & Hrest).
    assert (Hx : x <> 0) by lia.
    destruct (IH fuel s nx req Hpos Hbrk Hrest ltac:(simpl in Hfuel; lia)) as (r & Hr & Hcase).
    simpl find_block. destruct (Z.eqb_spec x 0) as [?|_]; [contradiction|].
    destruct (fitsb s x req) eqn:Hf.
    + exists x. unfold fitsb in Hf. rewrite Hsz in *. rewrite obind_Ok.
      destruct (is_allocated s x) as [[|]| |] eqn:Ha; try discriminate.
      rewrite Hf, obind_Ok. simpl negb. cbv iota.
      split; [reflexivity|]. right. split; [exact Hx|].
      exists [], l. split; [reflexivity|]. split; [reflexivity|].
      unfold fitsb. rewrite Hsz, Ha. exact Hf.
    + exists r. split.
      * rewrite <- Hr. unfold fitsb in Hf. rewrite Hsz in *. rewrite obind_Ok.
        destruct (Z.leb_spec req sz) as [Hle|Hgt]; [|rewrite Hnx; reflexivity].
        assert (Hfl : exists a, is_allocated s x = Ok a).
        { unfold is_allocated, get_flags. rewrite load_ok; [eexists; reflexivity|].
          apply load_inv in Hsz. apply valid_intro; consts; simpl Z.of_nat in *; lia. }
        destruct Hfl as [a Ha]. rewrite Ha in *. rewrite obind_Ok.
        destruct a; [|discriminate]. simpl negb. cbv iota. rewrite Hnx. reflexivity.
      * destruct Hcase as [[-> Hnf]|(Hrnz & l1 & l2 & -> & Hnf & Hfit)].
        -- left. split; [reflexivity|]. simpl. rewrite Hf, Hnf. reflexivity.
        -- right. split; [exact Hrnz|]. exists (x :: l1), l2.
           split; [reflexivity|]. split; [|exact Hfit]. simpl. rewrite Hf, Hnf. reflexivity.
Qed.

(** The block [malloc] takes: the first block of the list that fits, or a
    new one at the old break. *)
Lemma malloc_choice (fuel : nat) (s : state) (l : list Z) (n : Z) :
  well_formed s l = true -> (length l < fuel)%nat -> 0 <= n <= HALF - 64 ->
  exists s' r,
    malloc fuel s n = Ok (s', r) /\
    ((no_fit s l (required n) = true /\ (r = 0 \/ r = cur_brk s + HEADER)) \/
     (exists l1 b l2,
        l = l1 ++ b :: l2 /\ no_fit s l1 (required n) = true /\
        fitsb s b (required n) = true /\ r = b + HEADER)).
Proof.
  intros Hwf Hfuel Hn.
  destruct (malloc_on_well_formed fuel s l n Hwf Hfuel Hn) as (s' & r & Hm & _).
  exists s', r. split; [exact Hm|].
  apply well_formed_elim in Hwf as (Hok & Hb1 & Hb2 & Hc & Htail).
  pose proof (heap_ok_elim _ Hok) as (Hlo & Hlen & Hhi).
  unfold malloc in Hm. fold (required n) in Hm.
  destruct (find_block_first l fuel s (s_head s) (required n) ltac:(lia) ltac:(lia) Hc Hfuel)
    as (b & Hfind & Hcase).
  rewrite Hfind, obind_Ok in Hm.
  destruct Hcase as [[-> Hnf]|(Hbnz & l1 & l2 & -> & Hnf & Hfit)].
  - left. split; [exact Hnf|]. simpl in Hm.
    apply obind_inv in Hm as ([s1 blk] & Ha & Hm).
    destruct (alloc_block_inv _ _ _ _ Ha) as (Elo & Elen & Hblk).
    destruct (Z.eqb_spec blk 0) as [-> |Hnz].
    + injection Hm as _ <-. left. reflexivity.
    + destruct Hblk as [[? _]| ->]; [contradiction|].
      assert (Hok1 : heap_ok s1 = true) by (rewrite (heap_ok_same s s1); assumption).
      destruct (malloc_take_inv _ _ _ _ _ Hok1 Hm) as [-> _]. right. reflexivity.
  - right. apply Z.eqb_neq in Hbnz. rewrite Hbnz in Hm.
    destruct (malloc_take_inv _ _ _ _ _ Hok Hm) as [-> _].
    exists l1, b, l2. auto.
Qed.


(** X10.  [malloc] is first fit.  On a well-formed heap it returns the
    address behind the header of the first block, in list order, that
    is free and at least as large as the block size it needs; only
    when no block of the list is, the result is the null pointer or the
    address behind a header placed at the old break. *)
Theorem malloc_first_fit (fuel : nat) (s : state) (l : list Z) (n : Z) :
  well_formed s l = true -> (length l < fuel)%nat -> 0 <= n <= HALF - 64 ->
  exists s' r,
    malloc fuel s n = Ok (s', r) /\
    ((no_fit s l (required n) = true /\ (r = 0 \/ r = cur_brk s + HEADER)) \/
     (exists l1 b l2,
        l = l1 ++ b :: l2 /\ no_fit s l1 (required n) = true /\
        fitsb s b (required n) = true /\ r = b + HEADER)).
Proof.
  intros Hwf Hfuel Hn. exact (malloc_choice fuel s l n Hwf Hfuel Hn).
Qed.

Lemma malloc_first_fit_witness :
  let s := state_after 4 [Allocate 32; Allocate 100] in
  let l := [65536; 65600; 65760] in
  exists s' r,
    malloc 4 s 50 = Ok (s', r) /\
    ((no_fit s l (required 50) = true /\ (r = 0 \/ r = cur_brk s + HEADER)) \/
     (exists l1 b l2,
        l = l1 ++ b :: l2 /\ no_fit s l1 (required 50) = true /\
        fitsb s b (required 50) = true /\ r = b + HEADER)).
Proof.
  apply (malloc_first_fit 4 (state_after 4 [Allocate 32; Allocate 100])
           [65536; 65600; 65760] 50).
  - vm_compute. reflexivity.
  - simpl. lia.
  - unfold HALF. lia.
Defined.

(** ** [malloc]: the result of a call *)

(** A non-null result of [malloc] on a well-formed heap is apart from
    the blocks of the list that are allocated. *)
Lemma malloc_apart (fuel : nat) (s : state) (l : list Z) (n : Z) :
  well_formed s l = true -> (length l < fuel)%nat -> 0 <= n <= HALF - 64 ->
  exists s' r,
    malloc fuel s n = Ok (s', r) /\
    (r <> 0 ->
     forall x sz,
       x ∈ l -> is_allocated s x = Ok true -> get_size s x = Ok sz ->
       x + sz <= r - HEADER \/ r + n <= x).
Proof.
  intros Hwf Hfuel Hn.
  destruct (malloc_choice fuel s l n Hwf Hfuel Hn) as (s' & r & Hm & Hcase).
  exists s', r. split; [exact Hm|]. intros Hr x sz Hx Hal Hsz.
  apply well_formed_elim in Hwf as (Hok & Hb1 & Hb2 & Hc & Htail).
  pose proof (heap_ok_elim _ Hok) as (Hlo & Hlen & Hhi).
  assert (Hpos : 0 < s_heap s) by lia.
  pose proof (required_bounds n Hn) as [Hreq _].
  destruct Hcase as [[_ [->| ->]]|(l1 & b & l2 & -> & _ & Hfit & ->)].
  - contradiction.
  - left. destruct (chainb_elem s l _ x Hpos Hc Hx) as (_ & _ & sz' & nx & Hsz' & _ & _ & Hend & _).
    assert (sz' = sz) by congruence. subst sz'. lia.
  - unfold fitsb in Hfit.
    destruct (get_size s b) as [szb| |] eqn:Hszb; try discriminate.
    destruct (is_allocated s b) as [[|]| |] eqn:Halb; try discriminate.
    apply Z.leb_le in Hfit.
    assert (Hb : b ∈ l1 ++ b :: l2) by (apply elem_of_app; right; left).
    assert (Hne : x <> b) by (intros ->; congruence).
    destruct (chainb_separated s _ _ x b sz szb Hpos Hc Hx Hb Hne Hsz Hszb); lia.
Qed.

(** The blocks of a tiled list cover the region up to the break. *)
Lemma tiled_chain_cover s l : forall b,
  chainb s b l = true -> (forall x, x ∈ l -> tileb s x = true) -> b <> 0 ->
  forall a, b <= a < cur_brk s ->
  exists x sz, x ∈ l /\ get_size s x = Ok sz /\ x <= a < x + sz.
Proof.
  induction l as [|y l IH]; intros b Hc Hall Hb a Ha.
  - apply chainb_nil_elim in Hc. contradiction.
  - apply chainb_cons_elim in Hc as (-> & _ & sz & nx & Hsz & Hnx & _ & _ & _ & Hrest).
    destruct (tileb_elim _ _ (Hall y ltac:(left))) as (sz' & nx' & E1 & E2 & _ & E4).
    assert (sz' = sz) by congruence. assert (nx' = nx) by congruence. subst sz' nx'.
    destruct (Z.lt_ge_cases a (y + sz)) as [Hlt|Hge].
    + exists y, sz. split; [left|]. split; [exact Hsz|lia].
    + destruct (Z.eqb_spec nx 0) as [Hz|Hnz]; [lia|].
      destruct (IH nx Hrest ltac:(intros x Hx; apply Hall; right; exact Hx) Hnz a ltac:(lia))
        as (x & szx & Hx & Hszx & Hax).
      exists x, szx. split; [right; exact Hx|]. split; assumption.
Qed.

Lemma tiles_cover s l :
  tiles s l ->
  forall a, s_heap s <= a < cur_brk s ->
  exists x sz, x ∈ l /\ get_size s x = Ok sz /\ x <= a < x + sz.
Proof.
  intros ([Hwf _] & H0 & H1 & Hall) a Ha.
  apply well_formed_elim in Hwf as (Hok & _ & _ & Hc & _).
  destruct (Z.eq_dec (s_head s) 0) as [Hz|Hnz]; [specialize (H0 Hz); lia|].
  apply (tiled_chain_cover s l (s_head s) Hc Hall Hnz). rewrite (H1 Hnz). exact Ha.
Qed.

(** [malloc] on a tiled heap: what the call grants. *)
Lemma malloc_grants (fuel : nat) (s : state) (l : list Z) (n : Z) :
  tiles s l -> (length l < fuel)%nat -> 0 <= n <= HALF - 64 ->
  exists s' r l',
    malloc fuel s n = Ok (s', r) /\ tiles s' l' /\ granted s l n s' l' r.
Proof.
  intros Ht Hfuel Hn.
  pose proof Ht as ([Hwf _] & _).
  destruct (malloc_keeps_tiles fuel s l n Ht Hfuel Hn)
    as (s' & r & l' & Hm & Ht' & _ & _ & Hin).
  destruct (malloc_on_well_formed fuel s l n Hwf Hfuel Hn) as (s1 & r1 & Hm1 & Hserved).
  destruct (malloc_choice fuel s l n Hwf Hfuel Hn) as (s2 & r2 & Hm2 & Hchoice).
  destruct (malloc_apart fuel s l n Hwf Hfuel Hn) as (s3 & r3 & Hm3 & Hapart).
  assert (s1 = s' /\ r1 = r) as [-> ->] by (split; congruence).
  assert (s2 = s' /\ r2 = r) as [-> ->] by (split; congruence).
  assert (s3 = s' /\ r3 = r) as [-> ->] by (split; congruence).
  exists s', r, l'. split; [exact Hm|]. split; [exact Ht'|].
  destruct Hserved as [(Hr & He & Hnf & Hext)|(Hr & sz & Hsz & Hal & Hfits & _)].
  - left. auto.
  - right. split; [exact Hr|]. split; [exact (Hin Hr)|]. split; [|split].
    + destruct Ht' as (_ & _ & _ & Hall).
      destruct (tileb_elim _ _ (Hall _ (Hin Hr))) as (sz' & nx & E1 & E2 & _ & E4).
      assert (sz' = sz) by congruence. subst sz'.
      exists sz, nx. auto.
    + destruct Hchoice as [[Hnf [Hz|Hnew]]|(l1 & b & l2 & El & Hnf & Hfit & Hb)].
      * contradiction.
      * right. split; [lia|exact Hnf].
      * left. exists l1, l2. replace (r - HEADER) with b by lia. auto.
    + exact (Hapart Hr).
Qed.

(** C3 (amended).  In a heap whose block list tiles the region from its
    start to the break (the layout [malloc] builds and keeps), and for
    a request [n] whose block size does not leave the range of
    [intptr_t] ([n <= 2^63 - 64]), [malloc n] returns and the heap keeps
    the layout.  The result is either the null pointer with [errno] set
    to [ENOMEM], and then no block of the list fits and [sbrk] refuses
    the extension; or a non-null pointer to a block of the new list,
    marked allocated, with at least [n] bytes behind its header before
    the boundary of the next block.  That block is the first block of
    the old list that was free and large enough or, if there was none,
    a new one at the old break; the header and the [n] bytes lie
    outside every block that was allocated before the call. *)
Theorem malloc_result (fuel : nat) (s : state) (l : list Z) (n : Z) :
  layout s l = true -> (length l < fuel)%nat -> 0 <= n <= HALF - 64 ->
  exists s' r l',
    malloc fuel s n = Ok (s', r) /\ layout s' l' = true /\ granted s l n s' l' r.
Proof.
  intros Hl Hfuel Hn. apply layout_tiles in Hl.
  destruct (malloc_grants fuel s l n Hl Hfuel Hn) as (s' & r & l' & Hm & Ht & Hg).
  exists s', r, l'. split; [exact Hm|]. split; [apply layout_tiles; exact Ht|exact Hg].
Qed.

(** A request of 50 bytes on a heap with two allocated blocks and a free
    one behind them. *)
Lemma malloc_result_witness :
  let s := state_after 4 [Allocate 32; Allocate 100] in
  let l := [65536; 65600; 65760] in
  exists s' r l',
    malloc 4 s 50 = Ok (s', r) /\ layout s' l' = true /\ granted s l 50 s' l' r.
Proof.
  apply (malloc_result 4 (state_after 4 [Allocate 32; Allocate 100])
           [65536; 65600; 65760] 50).
  - vm_compute. reflexivity.
  - simpl. lia.
  - unfold HALF. lia.
Defined.

(** C3 (as stated, refuted).  Two calls that return a non-null pointer
    without [n] usable bytes behind it.  A request for 2^64 - 1 bytes
    on the empty heap: [size + sizeof(struct Header)] wraps to 31, the
    block size is 32, and the block returned has no byte behind its
    header.  And a request for 1000 bytes after the calls of
    [stale_tail_calls], all of which return: the list is well formed
    but does not tile the region; the block at 65728, whose pointer
    65760 the sixth call returned and no call released, is not in it;
    and [malloc] returns 65696.  The 1000 bytes include that block's
    header and the first bytes behind it, and the split writes a header
    at 66720, in the bytes the sixth call handed out. *)
Lemma malloc_returns_unusable_bytes :
  (exists s' r,
     malloc 1 empty_heap (WORD - 1) = Ok (s', r) /\
     r <> 0 /\ get_size s' (r - HEADER) = Ok HEADER) /\
  (let s := state_after 8 stale_tail_calls in
   serve_all 8 (empty_heap, []) stale_tail_calls =
     Ok (s, [65568; 65632; 65696; 65760; 65632; 65760; 131104]) /\
   well_formed s [65536; 65600; 65664] = true /\
   layout s [65536; 65600; 65664] = false /\
   block_list 8 s = Ok [65536; 65600; 65664] /\
   is_allocated s (65760 - HEADER) = Ok true /\
   get_size s (65760 - HEADER) = Ok 65344 /\
   exists s',
     malloc 8 s 1000 = Ok (s', 65696) /\
     65696 <= 65760 < 65696 + 1000 /\
     load s' 66736 8 <> load s 66736 8).
Proof.
  split.
  - exists (state_after 1 [Allocate (WORD - 1)]), 65568.
    split; [vm_compute; reflexivity|]. split; [discriminate|]. vm_compute. reflexivity.
  - cbv zeta.
    split; [vm_compute; reflexivity|]. split; [vm_compute; reflexivity|].
    split; [vm_compute; reflexivity|]. split; [vm_compute; reflexivity|].
    split; [vm_compute; reflexivity|]. split; [vm_compute; reflexivity|].
    exists (state_after 8 (stale_tail_calls ++ [Allocate 1000])).
    split; [vm_compute; reflexivity|]. split; [lia|]. vm_compute. discriminate.
Qed.

(** X11.  On a heap with the tiling layout every byte between the start
    of the region and the break lies in a block of the list, and the
    bytes [malloc] hands out are apart from every block of the list
    that is allocated when it is called: a non-null result lies behind
    the end of such a block, or its [n] bytes end before the block
    begins. *)
Theorem malloc_result_apart_from_live_blocks (fuel : nat) (s : state) (l : list Z) (n : Z) :
  layout s l = true -> (length l < fuel)%nat -> 0 <= n <= HALF - 64 ->
  (forall a, s_heap s <= a < cur_brk s ->
     exists x sz, x ∈ l /\ get_size s x = Ok sz /\ x <= a < x + sz) /\
  exists s' r,
    malloc fuel s n = Ok (s', r) /\
    (r <> 0 ->
     forall x sz,
       x ∈ l -> is_allocated s x = Ok true -> get_size s x = Ok sz ->
       x + sz <= r - HEADER \/ r + n <= x).
Proof.
  intros Hl Hfuel Hn. apply layout_tiles in Hl.
  split; [exact (tiles_cover s l Hl)|].
  destruct Hl as ([Hwf _] & _).
  exact (malloc_apart fuel s l n Hwf Hfuel Hn).
Qed.

Lemma malloc_result_apart_from_live_blocks_witness :
  let s := state_after 4 [Allocate 32; Allocate 100] in
  let l := [65536; 65600; 65760] in
  (forall a, s_heap s <= a < cur_brk s ->
     exists x sz, x ∈ l /\ get_size s x = Ok sz /\ x <= a < x + sz) /\
  exists s' r,
    malloc 4 s 50 = Ok (s', r) /\
    (r <> 0 ->
     forall x sz,
       x ∈ l -> is_allocated s x = Ok true -> get_size s x = Ok sz ->
       x + sz <= r - HEADER \/ r + 50 <= x).
Proof.
  apply (malloc_result_apart_from_live_blocks 4
           (state_after 4 [Allocate 32; Allocate 100]) [65536; 65600; 65760] 50).
  - vm_compute. reflexivity.
  - simpl. lia.
  - unfold HALF. lia.
Defined.

(** ** [free]: the cases that return *)

Lemma coalesce_allocated s b :
  is_allocated s b = Ok true -> coalesce_if_necessary s b = Ok s.
Proof. intros H. unfold coalesce_if_necessary. rewrite H. reflexivity. Qed.

Lemma coalesce_last s b :
  is_allocated s b = Ok false -> get_next s b = Ok 0 -> coalesce_if_necessary s b = Ok s.
Proof. intros H1 H2. unfold coalesce_if_necessary. rewrite H1, obind_Ok, H2. reflexivity. Qed.

Lemma coalesce_before_allocated s b nx :
  is_allocated s b = Ok false -> get_next s b = Ok nx -> is_allocated s nx = Ok true ->
  coalesce_if_necessary s b = Ok s.
Proof.
  intros H1 H2 H3. unfold coalesce_if_necessary. rewrite H1, obind_Ok, H2, obind_Ok.
  destruct (nx =? 0); [reflexivity|]. rewrite H3. reflexivity.
Qed.

(** The first statements of [free] on an allocated block: the flag is
    cleared, and nothing else is written. *)
Lemma free_clears_flag s p :
  heap_ok s = true -> is_allocated s (p - HEADER) = Ok true ->
  exists s1,
    free s p = (let* s2 := coalesce_if_necessary s1 (p - HEADER) in
                let* pv := get_prev s2 (p - HEADER) in
                coalesce_if_necessary s2 pv) /\
    is_allocated s1 (p - HEADER) = Ok false /\
    s_head s1 = s_head s /\ s_tail s1 = s_tail s /\ s_brk s1 = s_brk s /\
    s_heap s1 = s_heap s /\ s_heapsize s1 = s_heapsize s /\
    errno s1 = errno s /\ stderr_log s1 = stderr_log s /\
    (forall a k, a + Z.of_nat k <= p - 8 \/ p - 4 <= a -> load s1 a k = load s a k).
Proof.
  intros Hok Hal.
  destruct (block_header_address _ _ _ Hok Hal) as [Ew Hp].
  apply heap_ok_elim in Hok as (Hlo & Hlen & Hhi).
  unfold free. apply Z.eqb_neq in Hp. rewrite Hp, Ew, Hal, obind_Ok. simpl negb. cbv iota.
  unfold is_allocated in Hal. apply obind_inv in Hal as (fl & Hfl & _).
  rewrite Hfl, obind_Ok.
  unfold get_flags in Hfl. apply load_inv in Hfl as (_ & Hf1 & Hf2).
  unfold put_flags. rewrite store_ok by (apply valid_intro; assumption). rewrite obind_Ok.
  eexists. split; [reflexivity|]. fields.
  split.
  - unfold is_allocated, get_flags. rewrite load_ok by (apply valid_intro; fields; assumption).
    fields. rewrite load_le_store_le_same, obind_Ok, allocated_bit_cleared. reflexivity.
  - do 7 (split; [reflexivity|]).
    intros a k Hak. unfold load, valid. fields.
    rewrite load_le_store_le_other by (consts; simpl Z.of_nat; lia). reflexivity.
Qed.

Lemma free_twice_logs s p :
  heap_ok s = true -> is_allocated s (p - HEADER) = Ok false ->
  free s p = Ok (log_stderr s (InvalidFree p)).
Proof.
  intros Hok Hal. destruct (block_header_address _ _ _ Hok Hal) as [Ew Hp].
  unfold free. apply Z.eqb_neq in Hp. rewrite Hp, Ew, Hal. reflexivity.
Qed.

Lemma tiles_frame s s' l :
  tiles s l ->
  s_heap s' = s_heap s -> s_heapsize s' = s_heapsize s ->
  s_head s' = s_head s -> s_tail s' = s_tail s -> cur_brk s' = cur_brk s ->
  (forall x, x ∈ l -> get_size s' x = get_size s x /\ get_next s' x = get_next s x) ->
  tiles s' l.
Proof.
  intros ([Hwf Htl] & H0 & H1 & Hall) Elo Elen Eh Et Ecb Hframe.
  apply well_formed_elim in Hwf as (Hok & Hb1 & Hb2 & Hc & Htail).
  split; [split|].
  - apply well_formed_intro.
    + rewrite (heap_ok_same s s'); assumption.
    + lia.
    + lia.
    + rewrite Eh. apply (chainb_frame s s'); try assumption. lia.
    + rewrite Eh, Et, Ecb, Elo. exact Htail.
  - rewrite Eh, Et. destruct Htl as [?|[Hin Hnx]]; [left; assumption|right].
    split; [exact Hin|]. destruct (Hframe _ Hin) as [_ ->]. exact Hnx.
  - rewrite Eh, Ecb, Elo. split; [exact H0|]. split; [exact H1|].
    intros x Hx. specialize (Hall x Hx). destruct (Hframe x Hx) as [E1 E2].
    unfold tileb in *. rewrite E1, E2, Ecb. exact Hall.
Qed.

(** Writing the flags of a block of the list leaves the list as it is. *)
Lemma tiles_flags_frame s s' l b :
  tiles s l -> b ∈ l ->
  s_heap s' = s_heap s -> s_heapsize s' = s_heapsize s ->
  s_head s' = s_head s -> s_tail s' = s_tail s -> cur_brk s' = cur_brk s ->
  (forall a k, a + Z.of_nat k <= b + 24 \/ b + 28 <= a -> load s' a k = load s a k) ->
  tiles s' l.
Proof.
  intros Ht Hb Elo Elen Eh Et Ecb Hframe.
  apply (tiles_frame s); try assumption.
  destruct Ht as ([Hwf _] & _).
  apply well_formed_elim in Hwf as (Hok & _ & _ & Hc & _).
  apply heap_ok_elim in Hok as (Hlo' & _).
  assert (Hlo : 0 < s_heap s) by lia.
  intros x Hx.
  destruct (chainb_elem s l _ x Hlo Hc Hx) as (_ & _ & szx & nxx & Hszx & _ & Hminx & _).
  destruct (chainb_elem s l _ b Hlo Hc Hb) as (_ & _ & szb & nxb & Hszb & _ & Hminb & _).
  assert (Hsep : x = b \/ x + HEADER <= b \/ b + HEADER <= x).
  { destruct (Z.eq_dec x b) as [?|Hne]; [left; assumption|right].
    destruct (chainb_separated s l _ x b szx szb Hlo Hc Hx Hb Hne Hszx Hszb); lia. }
  unfold get_size, get_next. split; apply Hframe; consts; simpl Z.of_nat; lia.
Qed.

Lemma free_between_allocated_effect s p pv nx :
  heap_ok s = true ->
  is_allocated s (p - HEADER) = Ok true ->
  get_prev s (p - HEADER) = Ok pv -> pv + HEADER <= p - HEADER ->
  is_allocated s pv = Ok true ->
  get_next s (p - HEADER) = Ok nx ->
  (nx = 0 \/ (p <= nx /\ is_allocated s nx = Ok true)) ->
  exists s',
    free s p = Ok s' /\
    is_allocated s' (p - HEADER) = Ok false /\
    s_head s' = s_head s /\ s_tail s' = s_tail s /\ s_brk s' = s_brk s /\
    s_heap s' = s_heap s /\ s_heapsize s' = s_heapsize s /\
    errno s' = errno s /\ stderr_log s' = stderr_log s /\
    (forall a k, a + Z.of_nat k <= p - 8 \/ p - 4 <= a -> load s' a k = load s a k).
Proof.
  intros Hok Hal Hpv Hord Halp Hnx Hnext.
  destruct (free_clears_flag s p Hok Hal)
    as (s1 & Hfree & Hal1 & Eh & Et & Eb & Elo & Elen & Ee & Eg & Hframe).
  exists s1. split; [|repeat split; assumption].
  rewrite Hfree.
  assert (Hnx1 : get_next s1 (p - HEADER) = Ok nx).
  { unfold get_next in *. rewrite Hframe; [exact Hnx|]. consts. simpl Z.of_nat. lia. }
  assert (Hc1 : coalesce_if_necessary s1 (p - HEADER) = Ok s1).
  { destruct Hnext as [->|[Hlt Haln]]; [apply coalesce_last; assumption|].
    apply (coalesce_before_allocated s1 _ nx); try assumption.
    unfold is_allocated, get_flags in *. rewrite Hframe; [exact Haln|].
    consts. simpl Z.of_nat. lia. }
  rewrite Hc1, obind_Ok.
  assert (Hpv1 : get_prev s1 (p - HEADER) = Ok pv).
  { unfold get_prev in *. rewrite Hframe; [exact Hpv|]. consts. simpl Z.of_nat. lia. }
  rewrite Hpv1, obind_Ok. apply coalesce_allocated.
  unfold is_allocated, get_flags in *. rewrite Hframe; [exact Halp|].
  consts. simpl Z.of_nat. lia.
Qed.

(** X12.  [free] of an allocated block whose predecessor is allocated
    and whose successor, if there is one, is allocated too: the call
    returns, the block is marked free and nothing else has changed; a
    heap with the tiling layout keeps it, with the same block list.  A
    second [free] of the same pointer returns after writing the
    diagnostic and changes nothing else. *)
Theorem free_between_allocated (s : state) (p pv nx : Z) :
  heap_ok s = true ->
  is_allocated s (p - HEADER) = Ok true ->
  get_prev s (p - HEADER) = Ok pv -> pv + HEADER <= p - HEADER ->
  is_allocated s pv = Ok true ->
  get_next s (p - HEADER) = Ok nx ->
  (nx = 0 \/ (p <= nx /\ is_allocated s nx = Ok true)) ->
  exists s',
    free s p = Ok s' /\
    is_allocated s' (p - HEADER) = Ok false /\
    s_head s' = s_head s /\ s_tail s' = s_tail s /\ cur_brk s' = cur_brk s /\
    stderr_log s' = stderr_log s /\
    (forall a k, a + Z.of_nat k <= p - 8 \/ p - 4 <= a -> load s' a k = load s a k) /\
    (forall l, layout s l = true -> p - HEADER ∈ l -> layout s' l = true) /\
    free s' p = Ok (log_stderr s' (InvalidFree p)).
Proof.
  intros Hok Hal Hpv Hord Halp Hnx Hnext.
  destruct (free_between_allocated_effect s p pv nx Hok Hal Hpv Hord Halp Hnx Hnext)
    as (s' & Hfree & Hal' & Eh & Et & Eb & Elo & Elen & Ee & Eg & Hframe).
  assert (Ecb : cur_brk s' = cur_brk s) by (unfold cur_brk; rewrite Eb, Elo; reflexivity).
  exists s'. split; [exact Hfree|]. split; [exact Hal'|].
  split; [exact Eh|]. split; [exact Et|]. split; [exact Ecb|]. split; [exact Eg|].
  split; [exact Hframe|]. split.
  - intros l Hl Hin. apply layout_tiles. apply layout_tiles in Hl.
    apply (tiles_flags_frame s s' l (p - HEADER)); try assumption.
    intros a k Hak. apply Hframe. consts. lia.
  - apply free_twice_logs; [|exact Hal'].
    rewrite (heap_ok_same s s'); assumption.
Qed.

Lemma free_between_allocated_witness :
  let s := state_after 4 [Allocate 32; Allocate 32; Allocate 32] in
  exists s',
    free s 65632 = Ok s' /\
    is_allocated s' (65632 - HEADER) = Ok false /\
    s_head s' = s_head s /\ s_tail s' = s_tail s /\ cur_brk s' = cur_brk s /\
    stderr_log s' = stderr_log s /\
    (forall a k, a + Z.of_nat k <= 65632 - 8 \/ 65632 - 4 <= a -> load s' a k = load s a k) /\
    (forall l, layout s l = true -> 65632 - HEADER ∈ l -> layout s' l = true) /\
    free s' 65632 = Ok (log_stderr s' (InvalidFree 65632)).
Proof.
  apply (free_between_allocated
           (state_after 4 [Allocate 32; Allocate 32; Allocate 32]) 65632 65536 65664).
  - vm_compute. reflexivity.
  - vm_compute. reflexivity.
  - vm_compute. reflexivity.
  - unfold HEADER. lia.
  - vm_compute. reflexivity.
  - vm_compute. reflexivity.
  - right. split; [lia|]. vm_compute. reflexivity.
Defined.

(** X13.  [free] of an allocated block whose predecessor is allocated
    and whose successor is free: the call returns, the block is free
    and has absorbed the successor (its size is the sum of the two
    sizes, its [next] the successor's [next]); it becomes the tail when
    the successor was the last block.  The [prev] field of the block
    behind the absorbed one is not written. *)
Theorem free_merges_free_successor (s : state) (p pv sz nx nsz nn : Z) :
  heap_ok s = true ->
  is_allocated s (p - HEADER) = Ok true ->
  get_size s (p - HEADER) = Ok sz ->
  get_prev s (p - HEADER) = Ok pv -> pv + HEADER <= p - HEADER ->
  is_allocated s pv = Ok true ->
  get_next s (p - HEADER) = Ok nx -> p <= nx ->
  is_allocated s nx = Ok false ->
  get_size s nx = Ok nsz -> get_next s nx = Ok nn ->
  (nn = 0 \/ nx + HEADER <= nn) ->
  exists s',
    free s p = Ok s' /\
    is_allocated s' (p - HEADER) = Ok false /\
    get_size s' (p - HEADER) = Ok (wrap (sz + nsz)) /\
    get_next s' (p - HEADER) = Ok nn /\
    s_tail s' = (if nn =? 0 then p - HEADER else s_tail s) /\
    s_head s' = s_head s /\ cur_brk s' = cur_brk s /\
    (nn <> 0 -> get_prev s' nn = get_prev s nn) /\
    (forall a k,
       a + Z.of_nat k <= p - 24 \/ p - 4 <= a ->
       a + Z.of_nat k <= nx \/ nx + 8 <= a ->
       load s' a k = load s a k).
Proof.
  intros Hok Hal Hsz Hpv Hord Halp Hnx Hlt Haln Hnsz Hnn Hnnord.
  destruct (block_header_address _ _ _ Hok Hal) as [_ Hp].
  destruct (free_clears_flag s p Hok Hal)
    as (s1 & Hfree & Hal1 & Eh & Et & Eb & Elo & Elen & Ee & Eg & Hframe).
  pose proof (heap_ok_elim _ Hok) as (Hlo & Hlen & Hhi).
  assert (Hok1 : heap_ok s1 = true) by (rewrite (heap_ok_same s s1); assumption).
  assert (Hb : s_heap s1 <= p - HEADER).
  { unfold get_prev in Hpv. apply load_inv in Hpv as (_ & H1 & _). consts. lia. }
  assert (Hsz1 : get_size s1 (p - HEADER) = Ok sz).
  { unfold get_size in *. rewrite Hframe; [exact Hsz|]. consts. simpl Z.of_nat. lia. }
  assert (Hnx1 : get_next s1 (p - HEADER) = Ok nx).
  { unfold get_next in *. rewrite Hframe; [exact Hnx|]. consts. simpl Z.of_nat. lia. }
  assert (Hpv1 : get_prev s1 (p - HEADER) = Ok pv).
  { unfold get_prev in *. rewrite Hframe; [exact Hpv|]. consts. simpl Z.of_nat. lia. }
  assert (Haln1 : is_allocated s1 nx = Ok false).
  { unfold is_allocated, get_flags in *. rewrite Hframe; [exact Haln|].
    consts. simpl Z.of_nat. lia. }
  assert (Hnsz1 : get_size s1 nx = Ok nsz).
  { unfold get_size in *. rewrite Hframe; [exact Hnsz|]. consts. simpl Z.of_nat. lia. }
  assert (Hnn1 : get_next s1 nx = Ok nn).
  { unfold get_next in *. rewrite Hframe; [exact Hnn|]. consts. simpl Z.of_nat. lia. }
  assert (Halp1 : is_allocated s1 pv = Ok true).
  { unfold is_allocated, get_flags in *. rewrite Hframe; [exact Halp|].
    consts. simpl Z.of_nat. lia. }
  destruct (coalesce_absorb_effect s1 (p - HEADER) sz nx nsz nn Hok1 Hb Hal1 Hsz1 Hnx1
              ltac:(consts; lia) ltac:(consts; lia) Haln1 Hnsz1 Hnn1)
    as (s2 & Hc & Hsz2 & Hnx2 & Et2 & Eh2 & Eb2 & Elo2 & Elen2 & _ & _ & Hframe2).
  exists s2. rewrite Hfree, Hc, obind_Ok.
  assert (Hpv2 : get_prev s2 (p - HEADER) = Ok pv).
  { unfold get_prev in *. rewrite Hframe2; [exact Hpv1| |]; consts; simpl Z.of_nat; lia. }
  rewrite Hpv2, obind_Ok.
  assert (Halp2 : is_allocated s2 pv = Ok true).
  { unfold is_allocated, get_flags in *.
    rewrite Hframe2; [exact Halp1| |]; consts; simpl Z.of_nat; lia. }
  split; [apply coalesce_allocated; exact Halp2|].
  split.
  { unfold is_allocated, get_flags in *.
    rewrite Hframe2; [exact Hal1| |]; consts; simpl Z.of_nat; lia. }
  split; [exact Hsz2|]. split; [exact Hnx2|].
  split; [rewrite Et2, Et; reflexivity|].
  split; [congruence|].
  split; [unfold cur_brk; rewrite Eb2, Elo2, Eb, Elo; reflexivity|].
  split.
  - intros Hnnz. unfold get_prev.
    rewrite Hframe2 by (consts; simpl Z.of_nat; lia).
    apply Hframe. consts. simpl Z.of_nat. lia.
  - intros a k H1 H2.
    rewrite Hframe2 by (consts; simpl Z.of_nat; lia).
    apply Hframe. consts. lia.
Qed.

Lemma free_merges_free_successor_witness :
  let s := state_after 6 [Allocate 32; Allocate 32; Allocate 32; Allocate 32;
                          Allocate 32; Release 3] in
  exists s',
    free s 65696 = Ok s' /\
    is_allocated s' (65696 - HEADER) = Ok false /\
    get_size s' (65696 - HEADER) = Ok (wrap (64 + 64)) /\
    get_next s' (65696 - HEADER) = Ok 65792 /\
    s_tail s' = (if 65792 =? 0 then 65696 - HEADER else s_tail s) /\
    s_head s' = s_head s /\ cur_brk s' = cur_brk s /\
    (65792 <> 0 -> get_prev s' 65792 = get_prev s 65792) /\
    (forall a k,
       a + Z.of_nat k <= 65696 - 24 \/ 65696 - 4 <= a ->
       a + Z.of_nat k <= 65728 \/ 65728 + 8 <= a ->
       load s' a k = load s a k).
Proof.
  apply (free_merges_free_successor
           (state_after 6 [Allocate 32; Allocate 32; Allocate 32; Allocate 32;
                           Allocate 32; Release 3])
           65696 65600 64 65728 64 65792).
  - vm_compute. reflexivity.
  - vm_compute. reflexivity.
  - vm_compute. reflexivity.
  - vm_compute. reflexivity.
  - unfold HEADER. lia.
  - vm_compute. reflexivity.
  - vm_compute. reflexivity.
  - lia.
  - vm_compute. reflexivity.
  - vm_compute. reflexivity.
  - vm_compute. reflexivity.
  - right. unfold HEADER. lia.
Defined.

(** X14.  [free] of an allocated block whose predecessor is free and
    whose successor, if there is one, is allocated: the call returns
    and the predecessor has absorbed the block (its size is the sum of
    the two sizes, its [next] the block's [next]); the predecessor
    becomes the tail when the block was the last one. *)
Theorem free_merges_into_free_predecessor (s : state) (p pv psz sz nx : Z) :
  heap_ok s = true ->
  is_allocated s (p - HEADER) = Ok true ->
  get_size s (p - HEADER) = Ok sz ->
  get_next s (p - HEADER) = Ok nx ->
  (nx = 0 \/ (p <= nx /\ is_allocated s nx = Ok true)) ->
  get_prev s (p - HEADER) = Ok pv ->
  s_heap s <= pv -> pv + HEADER <= p - HEADER ->
  is_allocated s pv = Ok false ->
  get_size s pv = Ok psz -> get_next s pv = Ok (p - HEADER) ->
  exists s',
    free s p = Ok s' /\
    is_allocated s' pv = Ok false /\
    get_size s' pv = Ok (wrap (psz + sz)) /\
    get_next s' pv = Ok nx /\
    s_tail s' = (if nx =? 0 then pv else s_tail s) /\
    s_head s' = s_head s /\ cur_brk s' = cur_brk s /\
    (forall a k,
       a + Z.of_nat k <= pv + 8 \/ pv + 24 <= a ->
       a + Z.of_nat k <= p - HEADER \/ p - 24 <= a ->
       a + Z.of_nat k <= p - 8 \/ p - 4 <= a ->
       load s' a k = load s a k).
Proof.
  intros Hok Hal Hsz Hnx Hnext Hpv Hpvlo Hord Halp Hpsz Hpnx.
  destruct (block_header_address _ _ _ Hok Hal) as [_ Hp].
  destruct (free_clears_flag s p Hok Hal)
    as (s1 & Hfree & Hal1 & Eh & Et & Eb & Elo & Elen & Ee & Eg & Hframe).
  pose proof (heap_ok_elim _ Hok) as (Hlo & Hlen & Hhi).
  assert (Hok1 : heap_ok s1 = true) by (rewrite (heap_ok_same s s1); assumption).
  assert (Hsz1 : get_size s1 (p - HEADER) = Ok sz).
  { unfold get_size in *. rewrite Hframe; [exact Hsz|]. consts. simpl Z.of_nat. lia. }
  assert (Hnx1 : get_next s1 (p - HEADER) = Ok nx).
  { unfold get_next in *. rewrite Hframe; [exact Hnx|]. consts. simpl Z.of_nat. lia. }
  assert (Hpv1 : get_prev s1 (p - HEADER) = Ok pv).
  { unfold get_prev in *. rewrite Hframe; [exact Hpv|]. consts. simpl Z.of_nat. lia. }
  assert (Halp1 : is_allocated s1 pv = Ok false).
  { unfold is_allocated, get_flags in *. rewrite Hframe; [exact Halp|].
    consts. simpl Z.of_nat. lia. }
  assert (Hpsz1 : get_size s1 pv = Ok psz).
  { unfold get_size in *. rewrite Hframe; [exact Hpsz|]. consts. simpl Z.of_nat. lia. }
  assert (Hpnx1 : get_next s1 pv = Ok (p - HEADER)).
  { unfold get_next in *. rewrite Hframe; [exact Hpnx|]. consts. simpl Z.of_nat. lia. }
  assert (Hc1 : coalesce_if_necessary s1 (p - HEADER) = Ok s1).
  { destruct Hnext as [->|[Hlt Haln]]; [apply coalesce_last; assumption|].
    apply (coalesce_before_allocated s1 _ nx); try assumption.
    unfold is_allocated, get_flags in *. rewrite Hframe; [exact Haln|].
    consts. simpl Z.of_nat. lia. }
  rewrite Hfree, Hc1, obind_Ok, Hpv1, obind_Ok.
  destruct (coalesce_absorb_effect s1 pv psz (p - HEADER) sz nx Hok1 ltac:(consts; lia) Halp1
              Hpsz1 Hpnx1 ltac:(consts; lia) Hord Hal1 Hsz1 Hnx1)
    as (s2 & Hc & Hsz2 & Hnx2 & Et2 & Eh2 & Eb2 & Elo2 & Elen2 & _ & _ & Hframe2).
  exists s2. split; [exact Hc|].
  split.
  { unfold is_allocated, get_flags in *.
    rewrite Hframe2; [exact Halp1| |]; consts; simpl Z.of_nat; lia. }
  split; [exact Hsz2|]. split; [exact Hnx2|].
  split; [rewrite Et2, Et; reflexivity|].
  split; [congruence|].
  split; [unfold cur_brk; rewrite Eb2, Elo2, Eb, Elo; reflexivity|].
  intros a k H1 H2 H3.
  rewrite Hframe2 by (consts; simpl Z.of_nat; lia).
  apply Hframe. exact H3.
Qed.

Lemma free_merges_into_free_predecessor_witness :
  let s := state_after 6 [Allocate 32; Allocate 32; Allocate 32; Allocate 32;
                          Allocate 32; Release 2] in
  exists s',
    free s 65760 = Ok s' /\
    is_allocated s' 65664 = Ok false /\
    get_size s' 65664 = Ok (wrap (64 + 64)) /\
    get_next s' 65664 = Ok 65792 /\
    s_tail s' = (if 65792 =? 0 then 65664 else s_tail s) /\
    s_head s' = s_head s /\ cur_brk s' = cur_brk s /\
    (forall a k,
       a + Z.of_nat k <= 65664 + 8 \/ 65664 + 24 <= a ->
       a + Z.of_nat k <= 65760 - HEADER \/ 65760 - 24 <= a ->
       a + Z.of_nat k <= 65760 - 8 \/ 65760 - 4 <= a ->
       load s' a k = load s a k).
Proof.
  apply (free_merges_into_free_predecessor
           (state_after 6 [Allocate 32; Allocate 32; Allocate 32; Allocate 32;
                           Allocate 32; Release 2])
           65760 65664 64 64 65792).
  - vm_compute. reflexivity.
  - vm_compute. reflexivity.
  - vm_compute. reflexivity.
  - vm_compute. reflexivity.
  - right. split; [lia|]. vm_compute. reflexivity.
  - vm_compute. reflexivity.
  - vm_compute. discriminate.
  - unfold HEADER. lia.
  - vm_compute. reflexivity.
  - vm_compute. reflexivity.
  - vm_compute. reflexivity.
Defined.
(** X15.  [coalesce_if_necessary] has no test for the null pointer: on
    it the call faults.  So does [free(p)] of an allocated block whose
    [prev] is null and whose successor, if any, begins behind the
    block's header: after clearing the flag and looking at the
    successor it calls [coalesce_if_necessary] on [prev]. *)
Theorem free_null_predecessor_faults (s : state) (p nx : Z) :
  heap_ok s = true ->
  is_allocated s (p - HEADER) = Ok true ->
  get_prev s (p - HEADER) = Ok 0 ->
  get_next s (p - HEADER) = Ok nx -> (nx = 0 \/ p <= nx) ->
  coalesce_if_necessary s 0 = Fault /\ free s p = Fault.
Proof.
  intros Hok Hal Hprev Hnext Hord. split.
  - apply heap_ok_elim in Hok as (Hlo & _).
    unfold coalesce_if_necessary, is_allocated, get_flags.
    rewrite load_fault; [reflexivity|]. left. consts. lia.
  - exact (free_without_predecessor_faults s p nx Hok Hal Hprev Hnext Hord).
Qed.

Lemma free_null_predecessor_faults_witness :
  let s := state_after 4 [Allocate 100; Allocate 200] in
  coalesce_if_necessary s 0 = Fault /\ free s 65568 = Fault.
Proof.
  apply (free_null_predecessor_faults
           (state_after 4 [Allocate 100; Allocate 200]) 65568 65696).
  - vm_compute. reflexivity.
  - vm_compute. reflexivity.
  - vm_compute. reflexivity.
  - vm_compute. reflexivity.
  - right. lia.
Defined.

(** ** [free], then [malloc] *)

Lemma first_fit_unique (P : Z -> bool) (l1 : list Z) : forall b l2 l1' b' l2',
  l1 ++ b :: l2 = l1' ++ b' :: l2' ->
  forallb (fun x => negb (P x)) l1 = true -> P b = true ->
  forallb (fun x => negb (P x)) l1' = true -> P b' = true ->
  b = b'.
Proof.
  induction l1 as [|x l1 IH]; intros b l2 l1' b' l2' E H1 Hb H1' Hb'.
  - destruct l1' as [|y l1']; simpl in E; injection E as -> E; [reflexivity|].
    simpl in H1'. rewrite Hb in H1'. discriminate.
  - destruct l1' as [|y l1']; simpl in E; injection E as -> E.
    + simpl in H1. rewrite Hb' in H1. discriminate.
    + simpl in H1, H1'. apply andb_true_iff in H1 as [_ H1].
      apply andb_true_iff in H1' as [_ H1'].
      exact (IH _ _ _ _ _ E H1 Hb H1' Hb').
Qed.

Lemma chainb_app_notin s l1 : forall h b l2,
  0 < s_heap s -> chainb s h (l1 ++ b :: l2) = true -> b ∉ l1.
Proof.
  induction l1 as [|x l1 IH]; intros h b l2 Hpos Hc Hin; [inversion Hin|].
  simpl app in Hc. pose proof Hc as Hc'.
  apply chainb_cons_elim in Hc' as (-> & _ & sz & nx & Hsz & _ & Hmin & _ & _ & Hrest).
  apply elem_of_cons in Hin as [->|Hin].
  - assert (Hb : x ∈ l1 ++ x :: l2) by (apply elem_of_app; right; left).
    pose proof (chainb_after_head s x _ x sz Hpos Hc Hsz Hb). consts. lia.
  - exact (IH _ _ _ Hpos Hrest Hin).
Qed.

(** X16.  A block released between allocated neighbours is handed out
    again: after [free(p)], a call of [malloc] whose block size the
    block can hold, and that no block before it in the list fits,
    returns [p]. *)
Theorem malloc_reuses_freed_block
    (fuel : nat) (s : state) (l1 l2 : list Z) (p pv nx sz n : Z) :
  layout s (l1 ++ (p - HEADER) :: l2) = true ->
  (length (l1 ++ (p - HEADER)%Z :: l2) < fuel)%nat ->
  is_allocated s (p - HEADER) = Ok true ->
  get_size s (p - HEADER) = Ok sz ->
  get_prev s (p - HEADER) = Ok pv -> pv + HEADER <= p - HEADER ->
  is_allocated s pv = Ok true ->
  get_next s (p - HEADER) = Ok nx ->
  (nx = 0 \/ (p <= nx /\ is_allocated s nx = Ok true)) ->
  0 <= n <= HALF - 64 -> required n <= sz ->
  no_fit s l1 (required n) = true ->
  exists s1 s2, free s p = Ok s1 /\ malloc fuel s1 n = Ok (s2, p).
Proof.
  intros Hl Hfuel Hal Hsz Hpv Hord Halp Hnx Hnext Hn Hfit Hnofit.
  set (b := p - HEADER) in *. set (l := l1 ++ b :: l2) in *.
  apply layout_tiles in Hl. pose proof Hl as ([Hwf _] & _).
  apply well_formed_elim in Hwf as (Hok & _ & _ & Hc & _).
  pose proof (heap_ok_elim _ Hok) as (Hlo & _).
  assert (Hpos : 0 < s_heap s) by lia.
  assert (Hb : b ∈ l) by (apply elem_of_app; right; left).
  destruct (free_between_allocated_effect s p pv nx Hok Hal Hpv Hord Halp Hnx Hnext)
    as (s1 & Hfree & Hal1 & Eh & Et & Eb & Elo & Elen & _ & _ & Hframe).
  fold b in Hal1.
  assert (Ecb : cur_brk s1 = cur_brk s) by (unfold cur_brk; rewrite Eb, Elo; reflexivity).
  assert (Hl1 : tiles s1 l).
  { apply (tiles_flags_frame s s1 l b); try assumption.
    intros a k Hak. apply Hframe. unfold b. consts. lia. }
  destruct Hl1 as ([Hwf1 _] & _).
  destruct (malloc_choice fuel s1 l n Hwf1 Hfuel Hn) as (s2 & r & Hm & Hcase).
  assert (Hfits1 : fitsb s1 b (required n) = true).
  { unfold fitsb. rewrite Hal1. unfold get_size in *.
    rewrite Hframe by (unfold b; consts; simpl Z.of_nat; lia).
    rewrite Hsz. apply Z.leb_le. exact Hfit. }
  assert (Hnofit1 : no_fit s1 l1 (required n) = true).
  { unfold no_fit in *. rewrite forallb_forall in *. intros x Hx.
    rewrite <- (Hnofit x Hx). f_equal.
    apply list_elem_of_In in Hx.
    assert (Hxl : x ∈ l) by (apply elem_of_app; left; exact Hx).
    assert (Hne : x <> b).
    { intros ->. exact (chainb_app_notin s l1 _ b l2 Hpos Hc Hx). }
    destruct (chainb_elem s l _ x Hpos Hc Hxl) as (_ & _ & szx & ? & Hszx & _ & Hminx & _).
    destruct (chainb_elem s l _ b Hpos Hc Hb) as (_ & _ & szb & ? & Hszb & _ & Hminb & _).
    pose proof (chainb_separated s l _ x b szx szb Hpos Hc Hxl Hb Hne Hszx Hszb) as Hsep.
    unfold fitsb, is_allocated, get_size, get_flags.
    rewrite !Hframe by (unfold b in *; consts; simpl Z.of_nat; lia). reflexivity. }
  exists s1, s2. split; [exact Hfree|]. rewrite Hm. do 2 f_equal.
  destruct Hcase as [[Hall _]|(l1' & b' & l2' & El & Hnf' & Hfit' & ->)].
  - exfalso. unfold no_fit, l in Hall. rewrite forallb_app in Hall.
    apply andb_true_iff in Hall as [_ Hall]. simpl in Hall.
    rewrite Hfits1 in Hall. discriminate.
  - rewrite <- (first_fit_unique (fun x => fitsb s1 x (required n))
                  l1 b l2 l1' b' l2' El Hnofit1 Hfits1 Hnf' Hfit').
    unfold b. lia.
Qed.

Lemma malloc_reuses_freed_block_witness :
  let s := state_after 4 [Allocate 32; Allocate 32; Allocate 32] in
  exists s1 s2, free s 65632 = Ok s1 /\ malloc 5 s1 20 = Ok (s2, 65632).
Proof.
  apply (malloc_reuses_freed_block 5
           (state_after 4 [Allocate 32; Allocate 32; Allocate 32])
           [65536] [65664; 65728] 65632 65536 65664 64 20).
  - vm_compute. reflexivity.
  - simpl. lia.
  - vm_compute. reflexivity.
  - vm_compute. reflexivity.
  - vm_compute. reflexivity.
  - unfold HEADER. lia.
  - vm_compute. reflexivity.
  - vm_compute. reflexivity.
  - right. split; [lia|]. vm_compute. reflexivity.
  - unfold HALF. lia.
  - vm_compute. discriminate.
  - vm_compute. reflexivity.
Defined.
(** ** [calloc] on a well-formed heap *)

Lemma zero_filled_frame s1 s' buf n :
  zero_filled s1 s' buf n ->
  s_heap s' = s_heap s1 /\ s_heapsize s' = s_heapsize s1 /\ s_brk s' = s_brk s1 /\
  s_head s' = s_head s1 /\ s_tail s' = s_tail s1 /\ errno s' = errno s1 /\
  forall a k, a + Z.of_nat k <= buf \/ buf + n <= a -> load s' a k = load s1 a k.
Proof.
  intros [Hset Hbytes].
  pose proof (f_equal s_heap Hset) as E1. pose proof (f_equal s_heapsize Hset) as E2.
  pose proof (f_equal s_brk Hset) as E3. pose proof (f_equal s_head Hset) as E4.
  pose proof (f_equal s_tail Hset) as E5. pose proof (f_equal errno Hset) as E6.
  fields. repeat (split; [assumption|]).
  intros a k Hak. unfold load, valid. rewrite E1, E2.
  destruct ((s_heap s1 <=? a) && (a + Z.of_nat k <=? s_heap s1 + s_heapsize s1));
    [|reflexivity].
  f_equal. apply load_le_ext. intros x Hx. rewrite Hbytes.
  destruct (Z.leb_spec buf x), (Z.ltb_spec x (buf + n)); simpl; try reflexivity; lia.
Qed.

(** X17.  [calloc] on a well-formed heap, the product of its arguments
    not wrapping: the call returns, with what [malloc] owes for the
    product; behind a non-null result that many bytes are zero, and
    the header before them is the one [malloc] left (the block is
    allocated and holds the bytes). *)
Theorem calloc_zeroed (fuel : nat) (s : state) (l : list Z) (nmemb size : Z) :
  well_formed s l = true -> (length l < fuel)%nat ->
  0 <= nmemb * size <= HALF - 64 ->
  exists s' r,
    calloc fuel s nmemb size = Ok (s', r) /\
    served s l (nmemb * size) s' r /\
    (r <> 0 -> forall x, r <= x < r + nmemb * size -> byte_at (mem s') x = 0).
Proof.
  intros Hwf Hfuel Hn.
  destruct (malloc_on_well_formed fuel s l (nmemb * size) Hwf Hfuel Hn)
    as (s1 & r & Hm & Hserved).
  unfold calloc. rewrite wrap_small by (consts; lia). rewrite Hm, obind_Ok.
  destruct (Z.eqb_spec r 0) as [Hz|Hnz]; simpl negb; cbv iota.
  - exists s1, r. split; [reflexivity|]. split; [exact Hserved|]. contradiction.
  - destruct Hserved as [[? _]|(_ & sz & Hsz & Hal & Hfits & Hlo & Hend & Hbrk)];
      [contradiction|].
    assert (Hv : (nmemb * size =? 0) || valid s1 r (nmemb * size) = true).
    { apply orb_true_iff. right. apply valid_intro; consts; lia. }
    destruct (memset_zero_filled s1 r (nmemb * size) ltac:(lia) Hv) as (s' & Hset & Hz).
    rewrite Hset, obind_Ok. exists s', r. split; [reflexivity|].
    destruct (zero_filled_frame _ _ _ _ Hz) as (E1 & E2 & E3 & E4 & E5 & E6 & Hframe).
    assert (Ecb : cur_brk s' = cur_brk s1) by (unfold cur_brk; rewrite E3, E1; reflexivity).
    split.
    + right. split; [exact Hnz|]. exists sz.
      split; [unfold get_size in *; rewrite Hframe; [exact Hsz|]; consts; simpl Z.of_nat; lia|].
      split; [unfold is_allocated, get_flags in *; rewrite Hframe; [exact Hal|];
              consts; simpl Z.of_nat; lia|].
      rewrite Ecb, E1, E2. auto.
    + intros _ x Hx. destruct Hz as [_ Hbytes]. rewrite Hbytes.
      destruct (Z.leb_spec r x), (Z.ltb_spec x (r + nmemb * size)); simpl;
        try reflexivity; lia.
Qed.

Lemma calloc_zeroed_witness :
  let s := state_after 4 [Allocate 32; Allocate 100] in
  exists s' r,
    calloc 4 s 10 8 = Ok (s', r) /\
    served s [65536; 65600; 65760] (10 * 8) s' r /\
    (r <> 0 -> forall x, r <= x < r + 10 * 8 -> byte_at (mem s') x = 0).
Proof.
  apply (calloc_zeroed 4 (state_after 4 [Allocate 32; Allocate 100]) [65536; 65600; 65760] 10 8).
  - vm_compute. reflexivity.
  - simpl. lia.
  - unfold HALF. lia.
Defined.

(** ** Start-up: what runs, and how a run ends *)

Lemma before_cons a b x t : before a b (x :: t) <-> (x = a /\ b ∈ t) \/ before a b t.
Proof.
  rewrite <- !beforeb_spec. simpl.
  rewrite orb_true_iff, andb_true_iff, !bool_decide_eq_true. reflexivity.
Qed.

Lemma before_nil a b : before a b [] -> False.
Proof. rewrite <- beforeb_spec. discriminate. Qed.

(** X18.  Whatever the environment answers, program code (the real
    pre-init hook, the real entry function) runs only in a run in which
    the region was mapped, the C library opened, its start routine
    found and [prctl(PR_SET_SECCOMP)] succeeded, and only after the
    [prctl] call. *)
Theorem program_runs_only_under_seccomp (w : world) (e : event) :
  e = ERealInit \/ e = ERealMain ->
  e ∈ fst (__libc_start_main w) ->
  mmap_result w <> MAP_FAILED /\ dlopen_result w <> 0 /\ dlsym_result w <> 0 /\
  prctl_result w <> -1 /\
  before EPrctl e (fst (__libc_start_main w)).
Proof.
  intros He Hin.
  destruct (Z.eqb_spec (mmap_result w) MAP_FAILED) as [Hm|Hm].
  { exfalso. revert Hin. unfold __libc_start_main. apply Z.eqb_eq in Hm. rewrite Hm.
    rewrite list_elem_of_In. simpl. destruct He; subst e; intuition discriminate. }
  destruct (Z.eqb_spec (dlopen_result w) 0) as [Hd|Hd].
  { exfalso. revert Hin. unfold __libc_start_main. apply Z.eqb_neq in Hm.
    apply Z.eqb_eq in Hd. rewrite Hm, Hd.
    rewrite list_elem_of_In. simpl. destruct He; subst e; intuition discriminate. }
  destruct (Z.eqb_spec (dlsym_result w) 0) as [Hs|Hs].
  { exfalso. revert Hin. unfold __libc_start_main. apply Z.eqb_neq in Hm, Hd.
    apply Z.eqb_eq in Hs. rewrite Hm, Hd, Hs.
    rewrite list_elem_of_In. simpl. destruct He; subst e; intuition discriminate. }
  rewrite (start_trace w Hm Hd Hs) in *. cbn [fst] in *.
  destruct (Z.eqb_spec (prctl_result w) (-1)) as [Hp|Hp].
  { exfalso. revert Hin. unfold priming. rewrite list_elem_of_In.
    destruct (fgetc_result w =? EOF); simpl; destruct He; subst e; intuition discriminate. }
  repeat (split; [assumption|]).
  rewrite <- beforeb_spec. unfold priming.
  destruct (fgetc_result w =? EOF); destruct He; subst e; reflexivity.
Qed.

Lemma program_runs_only_under_seccomp_witness :
  let w := mkWorld None 65536 1 1 2 97 0 0 in
  mmap_result w <> MAP_FAILED /\ dlopen_result w <> 0 /\ dlsym_result w <> 0 /\
  prctl_result w <> -1 /\
  before EPrctl ERealMain (fst (__libc_start_main w)).
Proof.
  apply (program_runs_only_under_seccomp (mkWorld None 65536 1 1 2 97 0 0) ERealMain).
  - right. reflexivity.
  - rewrite list_elem_of_In. vm_compute. tauto.
Defined.

(** X19.  A run in which set-up and [prctl] succeed ends in the [exit]
    system call with the result of the real entry function, made after
    the real pre-init hook and the real entry function have run, once
    each and in this order, and both streams have been flushed.  The
    run makes no [_exit] call, and the process status is the result of
    the real entry function (never the fallback [EXIT_FAILED] of
    [wrapper_main]). *)
Theorem run_ends_in_exit_system_call (w : world) :
  mmap_result w <> MAP_FAILED -> dlopen_result w <> 0 -> dlsym_result w <> 0 ->
  prctl_result w <> -1 ->
  let t := fst (__libc_start_main w) in
  snd (__libc_start_main w) = Exits (real_main_result w) /\
  (exists pre,
     t = pre ++ [ERealInit; ERealMain; EFflush Stdout; EFflush Stderr;
                 ESysExit (real_main_result w)] /\
     (ERealInit ∉ pre) /\ (ERealMain ∉ pre) /\
     forall st, ESysExit st ∉ pre) /\
  forall st, E_exit st ∉ t.
Proof.
  intros Hm Hd Hs Hp t. unfold t. rewrite (start_trace w Hm Hd Hs). cbn [fst snd].
  apply Z.eqb_neq in Hp. rewrite Hp. split; [reflexivity|]. split.
  - exists ([EGetenv; EMmap (heap_size_setting w); EDlopen; EDlsym; ERealStart]
              ++ priming w ++ [EPrctl]).
    split; [rewrite <- !app_assoc; reflexivity|].
    unfold priming. destruct (fgetc_result w =? EOF); simpl;
      rewrite !list_elem_of_In; simpl; repeat split; try intros st;
      rewrite ?list_elem_of_In; simpl; intuition discriminate.
  - intros st. unfold priming. destruct (fgetc_result w =? EOF); simpl;
      rewrite list_elem_of_In; simpl; intuition discriminate.
Qed.

Lemma run_ends_in_exit_system_call_witness :
  let w := mkWorld None 65536 1 1 2 97 0 7 in
  let t := fst (__libc_start_main w) in
  snd (__libc_start_main w) = Exits (real_main_result w) /\
  (exists pre,
     t = pre ++ [ERealInit; ERealMain; EFflush Stdout; EFflush Stderr;
                 ESysExit (real_main_result w)] /\
     (ERealInit ∉ pre) /\ (ERealMain ∉ pre) /\
     forall st, ESysExit st ∉ pre) /\
  forall st, E_exit st ∉ t.
Proof.
  apply (run_ends_in_exit_system_call (mkWorld None 65536 1 1 2 97 0 7));
    vm_compute; discriminate.
Defined.

(** X20.  The probe of standard input in [wrapper_init] is undone before
    SECCOMP mode is entered: the read is made with [O_NONBLOCK] added
    to the flags, the character read is pushed back exactly when it is
    not [EOF], and the flags read at the start are set again, as the
    last change of flags, before [prctl]. *)
Theorem stdin_probe_is_undone (w : world) :
  mmap_result w <> MAP_FAILED -> dlopen_result w <> 0 -> dlsym_result w <> 0 ->
  let t := fst (__libc_start_main w) in
  before EFcntlGet (EFcntlSet (Z.lor (stdin_flags w) O_NONBLOCK)) t /\
  before (EFcntlSet (Z.lor (stdin_flags w) O_NONBLOCK)) EFgetc t /\
  before EFgetc (EFcntlSet (stdin_flags w)) t /\
  before (EFcntlSet (stdin_flags w)) EPrctl t /\
  (forall f, f <> stdin_flags w -> ~ before (EFcntlSet (stdin_flags w)) (EFcntlSet f) t) /\
  (forall c, EUngetc c ∈ t <-> c = fgetc_result w /\ c <> EOF) /\
  (fgetc_result w <> EOF ->
   before EFgetc (EUngetc (fgetc_result w)) t /\
   before (EUngetc (fgetc_result w)) (EFcntlSet (stdin_flags w)) t).
Proof.
  intros Hm Hd Hs t. unfold t. rewrite (start_trace w Hm Hd Hs). cbn [fst].
  set (fl := stdin_flags w). set (c0 := fgetc_result w).
  set (post := if prctl_result w =? -1 then [E_exit SECCOMP_FAILED]
               else [ERealInit; ERealMain; EFflush Stdout; EFflush Stderr;
                     ESysExit (real_main_result w)]).
  set (unget := if negb (c0 =? EOF) then [EUngetc c0] else []).
  assert (Et : [EGetenv; EMmap (heap_size_setting w); EDlopen; EDlsym; ERealStart] ++
                priming w ++ EPrctl :: post =
                [EGetenv; EMmap (heap_size_setting w); EDlopen; EDlsym; ERealStart;
                 ESentinel Stdout; EFflush Stdout; ESentinel Stderr; EFflush Stderr] ++
                EFcntlGet :: [] ++ EFcntlSet (Z.lor fl O_NONBLOCK) :: [] ++
                EFgetc :: unget ++ EFcntlSet fl :: [] ++ EPrctl :: post).
  { unfold priming. fold fl c0 unget. simpl. rewrite <- app_assoc. reflexivity. }
  rewrite Et. clear Et.
  set (pre := [EGetenv; EMmap (heap_size_setting w); EDlopen; EDlsym; ERealStart;
               ESentinel Stdout; EFflush Stdout; ESentinel Stderr; EFflush Stderr]).
  assert (Hpost : forall f, EFcntlSet f ∉ post).
  { intros f. unfold post. destruct (prctl_result w =? -1);
      rewrite list_elem_of_In; simpl; intuition discriminate. }
  split; [exists pre, [], (EFgetc :: unget ++ EFcntlSet fl :: [] ++ EPrctl :: post);
          reflexivity|].
  split; [exists (pre ++ [EFcntlGet]), [], (unget ++ EFcntlSet fl :: [] ++ EPrctl :: post);
          rewrite <- app_assoc; reflexivity|].
  split; [exists (pre ++ [EFcntlGet; EFcntlSet (Z.lor fl O_NONBLOCK)]), unget, (EPrctl :: post);
          rewrite <- app_assoc; reflexivity|].
  split; [exists (pre ++ [EFcntlGet; EFcntlSet (Z.lor fl O_NONBLOCK); EFgetc] ++ unget), [], post;
          rewrite <- !app_assoc; reflexivity|].
  split; [|split].
  - intros f Hf Hb. unfold pre, unget, post in Hb.
    destruct (negb (c0 =? EOF)), (prctl_result w =? -1); simpl in Hb;
      repeat (apply before_cons in Hb as [[Heq Hin]|Hb];
              [try discriminate Heq;
               rewrite list_elem_of_In in Hin; simpl in Hin;
               intuition (discriminate || congruence)|]);
      apply before_nil in Hb; exact Hb.
  - intros c. unfold pre, unget. destruct (Z.eqb_spec c0 EOF) as [He|He]; simpl negb; cbv iota.
    + split.
      * rewrite list_elem_of_In. simpl.
        intros H. exfalso.
        repeat match goal with
               | H : _ \/ _ |- _ => destruct H as [H|H]; try discriminate
               | H : False |- _ => contradiction
               end.
        unfold post in H. destruct (prctl_result w =? -1); simpl in H; intuition discriminate.
      * intros [-> Hc]. contradiction.
    + split.
      * rewrite list_elem_of_In. simpl.
        intros H.
        repeat match goal with
               | H : _ \/ _ |- _ => destruct H as [H|H]; try discriminate
               | H : False |- _ => contradiction
               end.
        -- injection H as <-. split; [reflexivity|exact He].
        -- exfalso. unfold post in H.
           destruct (prctl_result w =? -1); simpl in H; intuition discriminate.
      * intros [-> _]. rewrite list_elem_of_In. simpl. tauto.
  - intros He. unfold unget. apply Z.eqb_neq in He. rewrite He. simpl negb. cbv iota.
    split.
    + exists (pre ++ [EFcntlGet; EFcntlSet (Z.lor fl O_NONBLOCK)]), [],
        (EFcntlSet fl :: [] ++ EPrctl :: post).
      rewrite <- app_assoc. reflexivity.
    + exists (pre ++ [EFcntlGet; EFcntlSet (Z.lor fl O_NONBLOCK); EFgetc]), [],
        ([] ++ EPrctl :: post).
      rewrite <- app_assoc. reflexivity.
Qed.

Lemma stdin_probe_is_undone_witness :
  let w := mkWorld None 65536 1 1 2 97 0 0 in
  let t := fst (__libc_start_main w) in
  before EFcntlGet (EFcntlSet (Z.lor (stdin_flags w) O_NONBLOCK)) t /\
  before (EFcntlSet (Z.lor (stdin_flags w) O_NONBLOCK)) EFgetc t /\
  before EFgetc (EFcntlSet (stdin_flags w)) t /\
  before (EFcntlSet (stdin_flags w)) EPrctl t /\
  (forall f, f <> stdin_flags w -> ~ before (EFcntlSet (stdin_flags w)) (EFcntlSet f) t) /\
  (forall c, EUngetc c ∈ t <-> c = fgetc_result w /\ c <> EOF) /\
  (fgetc_result w <> EOF ->
   before EFgetc (EUngetc (fgetc_result w)) t /\
   before (EUngetc (fgetc_result w)) (EFcntlSet (stdin_flags w)) t).
Proof.
  apply (stdin_probe_is_undone (mkWorld None 65536 1 1 2 97 0 0));
    vm_compute; discriminate.
Defined.

(** ** [realloc] of the first block *)

(** C6 (the code at the failing input).  Two blocks are allocated; the
    first, of 100 bytes, is resized to 300.  The [malloc] inside
    [realloc] returns a new block and the 128 usable bytes of the old
    one are copied to it; then [realloc] calls [free] on the old
    pointer, whose block has no predecessor, and [free] faults: the
    call does not return the new address. *)
Theorem realloc_first_block_faults :
  let s := state_after 4 [Allocate 100; Allocate 200] in
  let s1 := state_after 4 [Allocate 100; Allocate 200; Allocate 300] in
  block_list 4 s = Ok [65536; 65696; 65952] /\
  is_allocated s (65568 - HEADER) = Ok true /\
  get_size s (65568 - HEADER) = Ok 160 /\
  get_prev s (65568 - HEADER) = Ok 0 /\
  malloc 4 s 300 = Ok (s1, 65984) /\
  (exists s2, memcpy s1 65984 65568 128 = Ok s2 /\ free s2 65568 = Fault) /\
  realloc 4 s 65568 300 = Fault /\
  serve_all 4 (empty_heap, []) [Allocate 100; Allocate 200; Resize 0 300] = Fault.
Proof.
  cbv zeta.
  split; [vm_compute; reflexivity|]. split; [vm_compute; reflexivity|].
  split; [vm_compute; reflexivity|]. split; [vm_compute; reflexivity|].
  split; [vm_compute; reflexivity|]. split.
  - exists (set_mem (state_after 4 [Allocate 100; Allocate 200; Allocate 300])
              (write_bytes (mem (state_after 4 [Allocate 100; Allocate 200; Allocate 300]))
                 65984
                 (read_bytes (mem (state_after 4 [Allocate 100; Allocate 200; Allocate 300]))
                    65568 128))).
    split; vm_compute; reflexivity.
  - split; vm_compute; reflexivity.
Qed.
